(** * doublecheck: provably-fair outcome verification

    A shallow embedding of the verification engine of the repository
    ([server/src/lib/provablyFair.ts], [server/src/lib/hashUtils.ts] and the
    verdict logic of [server/src/api/verify.ts]) together with the theorems
    that settle the claims of the specification, and with further
    properties of that code, of the settings of the rate limiter and of the
    client code that builds a request and explains a response.

    Modelling conventions
    - a JavaScript string is a Rocq [string] (a sequence of bytes; the
      seeds are taken in their UTF-8 form, which is what the hash consumes);
    - a JavaScript number is an IEEE-754 binary64 value, a [spec_float] of
      the Standard Library with [prec = 53] and [emax = 1024]; the
      arithmetic operators are the Standard Library's [SFsub], [SFmul]
      and [SFdiv] and the comparisons its [SFltb] and [SFleb]; the
      properties of their rounding are proved here, over the reals;
    - SHA-256 (node's [crypto.createHash('sha256')]) is implemented in full
      on 32-bit words carried by [Z] with the wrap-around written out. *)

From Stdlib Require Import ZArith List String Ascii Bool Lia.
From Stdlib Require Import Reals Lra SpecFloat.
Import ListNotations.

Local Open Scope list_scope.
Local Open Scope Z_scope.

(* ------------------------------------------------------------------ *)
(** * SHA-256 (FIPS 180-4) *)

Module Sha256.

(** Words are integers below [2^32]; sums wrap around. *)
Definition w32 (x : Z) : Z := x mod 2 ^ 32.

Definition add32 (a b : Z) : Z := w32 (a + b).

(** Rotation of a word to the right by [n] bits. *)
Definition rotr (n x : Z) : Z :=
  Z.lor (Z.shiftr x n) (w32 (Z.shiftl x (32 - n))).

(** The six logical functions of the standard. *)
Definition Ch (x y z : Z) : Z :=
  Z.lxor (Z.land x y) (Z.land (Z.lnot x) z).

Definition Maj (x y z : Z) : Z :=
  Z.lxor (Z.lxor (Z.land x y) (Z.land x z)) (Z.land y z).

Definition Sigma0 (x : Z) : Z :=
  Z.lxor (Z.lxor (rotr 2 x) (rotr 13 x)) (rotr 22 x).

Definition Sigma1 (x : Z) : Z :=
  Z.lxor (Z.lxor (rotr 6 x) (rotr 11 x)) (rotr 25 x).

Definition sigma0 (x : Z) : Z :=
  Z.lxor (Z.lxor (rotr 7 x) (rotr 18 x)) (Z.shiftr x 3).

Definition sigma1 (x : Z) : Z :=
  Z.lxor (Z.lxor (rotr 17 x) (rotr 19 x)) (Z.shiftr x 10).

(** The round constants are the first thirty-two bits of the fractional
    parts of the cube roots of the first sixty-four primes; the initial
    chaining value takes the square roots of the first eight. *)
Definition primes : list Z :=
  [2; 3; 5; 7; 11; 13; 17; 19; 23; 29; 31; 37; 41; 43; 47; 53; 59; 61; 67;
   71; 73; 79; 83; 89; 97; 101; 103; 107; 109; 113; 127; 131; 137; 139;
   149; 151; 157; 163; 167; 173; 179; 181; 191; 193; 197; 199; 211; 223;
   227; 229; 233; 239; 241; 251; 257; 263; 269; 271; 277; 281; 283; 293;
   307; 311].

(** Integer cube root, one bit at a time from bit [bits - 1] down. *)
Fixpoint cbrt_from (bits : nat) (n r : Z) : Z :=
  match bits with
  | O => r
  | S b =>
      let c := r + 2 ^ Z.of_nat b in
      cbrt_from b n (if c * c * c <=? n then c else r)
  end.

Definition frac_cbrt32 (p : Z) : Z := w32 (cbrt_from 36 (p * 2 ^ 96) 0).

Definition frac_sqrt32 (p : Z) : Z := w32 (Z.sqrt (p * 2 ^ 64)).

Definition K : list Z := map frac_cbrt32 primes.

(** The eight working variables / the chaining value. *)
Record state := mkState {
  sa : Z; sb : Z; sc : Z; sd : Z; se : Z; sf : Z; sg : Z; sh : Z
}.

Definition state_of_list (l : list Z) : state :=
  mkState (nth 0 l 0) (nth 1 l 0) (nth 2 l 0) (nth 3 l 0)
          (nth 4 l 0) (nth 5 l 0) (nth 6 l 0) (nth 7 l 0).

Definition H0 : state := state_of_list (map frac_sqrt32 (firstn 8 primes)).

(** ** Padding and parsing *)

(** The bytes of the message. *)
Definition bytes_of_string (s : string) : list Z :=
  map (fun c => Z.of_N (N_of_ascii c)) (list_ascii_of_string s).

(** Big-endian bytes of [x], [n] of them. *)
Fixpoint be_bytes (n : nat) (x : Z) : list Z :=
  match n with
  | O => []
  | S n' => (Z.shiftr x (8 * Z.of_nat n')) mod 256 :: be_bytes n' x
  end.

(** The message, a byte 0x80, zeros up to 56 modulo 64, and the length in
    bits on eight bytes. *)
Definition pad (msg : list Z) : list Z :=
  let len := Z.of_nat (List.length msg) in
  let zeros := Z.to_nat ((55 - len) mod 64) in
  msg ++ [0x80] ++ repeat 0 zeros ++ be_bytes 8 (8 * len).

(** Big-endian words of four bytes. *)
Fixpoint words (bs : list Z) : list Z :=
  match bs with
  | b0 :: b1 :: b2 :: b3 :: rest =>
      (Z.shiftl b0 24 + Z.shiftl b1 16 + Z.shiftl b2 8 + b3) :: words rest
  | _ => []
  end.

(** ** Message schedule: a sliding window of the last sixteen words *)

Definition next_word (win : list Z) : Z :=
  add32 (add32 (add32 (sigma1 (nth 14 win 0)) (nth 9 win 0))
               (sigma0 (nth 1 win 0)))
        (nth 0 win 0).

Fixpoint extend (n : nat) (win : list Z) : list Z :=
  match n with
  | O => []
  | S n' => let w := next_word win in w :: extend n' (tl win ++ [w])
  end.

Definition schedule (block : list Z) : list Z := block ++ extend 48 block.

(** ** Compression *)

(** One round, on a constant and a word of the schedule. *)
Definition round (s : state) (kw : Z * Z) : state :=
  let '(k, w) := kw in
  let t1 := add32 (add32 (add32 (add32 (sh s) (Sigma1 (se s)))
                                (Ch (se s) (sf s) (sg s))) k) w in
  let t2 := add32 (Sigma0 (sa s)) (Maj (sa s) (sb s) (sc s)) in
  mkState (add32 t1 t2) (sa s) (sb s) (sc s)
          (add32 (sd s) t1) (se s) (sf s) (sg s).

(** The sixty-four rounds on a block, added to the chaining value. *)
Definition compress (h : state) (block : list Z) : state :=
  let s := fold_left round (combine K (schedule block)) h in
  mkState (add32 (sa h) (sa s)) (add32 (sb h) (sb s))
          (add32 (sc h) (sc s)) (add32 (sd h) (sd s))
          (add32 (se h) (se s)) (add32 (sf h) (sf s))
          (add32 (sg h) (sg s)) (add32 (sh h) (sh s)).

(** The first [n] blocks of sixteen words, in order. *)
Fixpoint process (n : nat) (h : state) (ws : list Z) : state :=
  match n with
  | O => h
  | S n' => process n' (compress h (firstn 16 ws)) (skipn 16 ws)
  end.

Definition digest_state (msg : list Z) : state :=
  let ws := words (pad msg) in
  process (List.length ws / 16) H0 ws.

(** ** Hexadecimal output *)

(** The hexadecimal digit of the low nibble of [n], in lower case. *)
Definition hex_digit (n : Z) : ascii :=
  match n mod 16 with
  | 0 => "0" | 1 => "1" | 2 => "2" | 3 => "3" | 4 => "4" | 5 => "5"
  | 6 => "6" | 7 => "7" | 8 => "8" | 9 => "9" | 10 => "a" | 11 => "b"
  | 12 => "c" | 13 => "d" | 14 => "e" | _ => "f"
  end%char.

Fixpoint hex_fixed (n : nat) (x : Z) : list ascii :=
  match n with
  | O => []
  | S n' => hex_digit (Z.shiftr x (4 * Z.of_nat n')) :: hex_fixed n' x
  end.

Definition hex_of_state (s : state) : list ascii :=
  flat_map (hex_fixed 8)
    [sa s; sb s; sc s; sd s; se s; sf s; sg s; sh s].

(** The digest of a string, as sixty-four hexadecimal digits. *)
Definition hexdigest (s : string) : string :=
  string_of_list_ascii (hex_of_state (digest_state (bytes_of_string s))).

End Sha256.

(* ------------------------------------------------------------------ *)
(** * JavaScript numbers: IEEE-754 binary64 *)

Module Num.

(** The parameters of binary64. *)
Definition prec : Z := 53.
Definition emax : Z := 1024.

Definition number : Type := spec_float.

Definition NaN : number := S754_nan.

(** The Number nearest to the integer [z] (exact up to [2^53]). *)
Definition of_Z (z : Z) : number := binary_normalize prec emax z 0 false.

(** The operators [-], [*], [/], [<], [<=] and [Math.abs]. *)
Definition sub : number -> number -> number := SFsub prec emax.
Definition mul : number -> number -> number := SFmul prec emax.
Definition div : number -> number -> number := SFdiv prec emax.
Definition ltb : number -> number -> bool := SFltb.
Definition leb : number -> number -> bool := SFleb.
Definition abs : number -> number := SFabs.

(** The Number nearest to the fraction [n / d] of two positive integers,
    whatever their size: the division core of the Standard Library takes
    mantissas of any length and rounds the exact quotient once. *)
Definition of_ratio (n d : positive) : number :=
  SFdiv prec emax (S754_finite false n 0) (S754_finite false d 0).

(** Source literals. A decimal literal denotes the Number nearest to its
    exact decimal value. *)
Definition lit_1e_12 : number := of_ratio 1 (10 ^ 12).   (* 1e-12 *)
Definition lit_0_01 : number := of_ratio 1 100.          (* 0.01 *)
Definition EPSILON : number := S754_finite false (2 ^ 52) (-104). (* 2^-52 *)

(** [Number::remainder], the [%] operator: the exact remainder of the
    truncating division, with the sign of the dividend. *)
Definition rem (n d : number) : number :=
  match n, d with
  | S754_nan, _ | _, S754_nan => S754_nan
  | S754_infinity _, _ => S754_nan
  | _, S754_zero _ => S754_nan
  | _, S754_infinity _ => n
  | S754_zero _, _ => n
  | S754_finite sn mn en, S754_finite _ md ed =>
      let e := Z.min en ed in
      let r := Z.rem (cond_Zopp sn (Zpos mn * 2 ^ (en - e)))
                     (Zpos md * 2 ^ (ed - e)) in
      binary_normalize prec emax r e sn
  end.

(** [Math.floor]. *)
Definition floor (x : number) : number :=
  match x with
  | S754_finite s m e =>
      if 0 <=? e then x
      else binary_normalize prec emax
             (Z.shiftr (cond_Zopp s (Zpos m)) (- e)) 0 s
  | _ => x
  end.

(** [Math.round]: the integer nearest to [x], ties towards +Infinity,
    that is floor(x + 1/2) computed exactly; the sign of a zero result is
    the sign of [x]. *)
Definition round (x : number) : number :=
  match x with
  | S754_finite s m e =>
      if 0 <=? e then x
      else binary_normalize prec emax
             (Z.shiftr (2 * cond_Zopp s (Zpos m) + 2 ^ (- e)) (- e + 1)) 0 s
  | _ => x
  end.

(** [Math.min] of two arguments. *)
Definition min (a b : number) : number :=
  match a, b with
  | S754_nan, _ | _, S754_nan => S754_nan
  | S754_zero sa, S754_zero sb => S754_zero (sa || sb)
  | _, _ => if SFltb b a then b else a
  end.

(** [Number.isInteger]. *)
Definition isInteger (x : number) : bool :=
  match x with
  | S754_zero _ => true
  | S754_finite _ m e => (0 <=? e) || (Zpos m mod 2 ^ (- e) =? 0)
  | _ => false
  end.

End Num.

(* ------------------------------------------------------------------ *)
(** * JavaScript strings and the conversions between strings and numbers *)

Module Str.

Local Open Scope string_scope.
Local Open Scope Z_scope.

(** [s.slice(0, n)] for a non-negative [n]. *)
Fixpoint slice0 (n : nat) (s : string) : string :=
  match n, s with
  | S n', String c s' => String c (slice0 n' s')
  | _, _ => EmptyString
  end.

(** [s.slice(n)] for a non-negative [n]. *)
Fixpoint drop (n : nat) (s : string) : string :=
  match n, s with
  | S n', String _ s' => drop n' s'
  | _, _ => s
  end.

(** The lower-case form of an ASCII letter; other bytes are left alone. *)
Definition lower_char (c : ascii) : ascii :=
  let n := N_of_ascii c in
  if ((65 <=? n) && (n <=? 90))%N then ascii_of_N (n + 32) else c.

(** [s.toLowerCase()] (on the bytes of ASCII letters). *)
Fixpoint toLowerCase (s : string) : string :=
  match s with
  | EmptyString => EmptyString
  | String c s' => String (lower_char c) (toLowerCase s')
  end.

(** Truthiness of a string: every string but the empty one. *)
Definition truthy (s : string) : bool :=
  match s with EmptyString => false | _ => true end.

(** [n] zeros. *)
Fixpoint zeros (n : nat) : string :=
  match n with O => EmptyString | S n' => String "0" (zeros n') end.

(** ** Decimal digits of an integer *)

(** The character of the last decimal digit of [d]. *)
Definition digit_char (d : Z) : ascii := Sha256.hex_digit (d mod 10).

(** The digits of [z] in front of [acc], least significant first. *)
Fixpoint digits_acc (fuel : nat) (z : Z) (acc : string) : string :=
  match fuel with
  | O => acc
  | S f =>
      let acc' := String (digit_char z) acc in
      if z <? 10 then acc' else digits_acc f (z / 10) acc'
  end.

(** The decimal expansion of [z >= 0], without leading zeros. *)
Definition digits (z : Z) : string :=
  digits_acc (S (Z.to_nat (Z.log2 z))) z EmptyString.

(** The decimal form of an integer. *)
Definition decimal (z : Z) : string :=
  if z <? 0 then String "-" (digits (- z)) else digits z.

(** ** [Number::toString] (radix 10)

    For a finite non-zero Number ECMAScript takes the integers [n], [k]
    and [s] with [k >= 1], [10^(k-1) <= s < 10^k], [s * 10^(n-k)] reading
    back as the Number, and [k] as small as possible, and lays the digits
    of [s] out according to [n]. *)

(** The Number that the decimal [s * 10^p] reads as. *)
Definition read_decimal (s : Z) (p : Z) : Num.number :=
  if 0 <=? p then Num.of_Z (s * 10 ^ p)
  else match s with
       | Zpos s' => Num.of_ratio s' (Z.to_pos (10 ^ (- p)))
       | _ => Num.of_Z 0
       end.

(** Smallest [j <= fuel] with [num * 10^j >= den]. *)
Fixpoint scale_up (fuel : nat) (num den : Z) (j : Z) : Z :=
  match fuel with
  | O => j
  | S f => if den <=? num then j else scale_up f (num * 10) den (j + 1)
  end.

(** The [n] with [10^(n-1) <= num/den < 10^n]. *)
Definition decimal_exponent (num den : Z) : Z :=
  if den <=? num then Z.of_nat (length (digits (num / den)))
  else 1 - scale_up 400 num den 0.

(** Search for the shortest digit string, [k = 1, 2, ...]. The result is
    [(s, k, n)]. *)
Fixpoint shortest (fuel : nat) (x : Num.number) (num den n k : Z)
  : Z * Z * Z :=
  let p := n - k in
  let sn := if 0 <=? p then num else num * 10 ^ (- p) in
  let sd := if 0 <=? p then den * 10 ^ p else den in
  let lo := sn / sd in
  let hi := lo + 1 in
  let ok s := SFeqb (read_decimal s p) x in
  let pick s := if s =? 10 ^ k then (10 ^ (k - 1), k, n + 1) else (s, k, n) in
  match fuel with
  | O => pick lo
  | S f =>
      match ok lo, ok hi with
      | true, false => pick lo
      | false, true => pick hi
      | true, true =>
          match 2 * sn ?= (2 * lo + 1) * sd with
          | Lt => pick lo
          | Gt => pick hi
          | Eq => if Z.even lo then pick lo else pick hi
          end
      | false, false => shortest f x num den n (k + 1)
      end
  end.

(** The layout of the digits: plain, with a decimal point, or with an
    exponent when [n] is outside [-5 .. 21]. *)
Definition format_digits (skn : Z * Z * Z) : string :=
  let '(s, k, n) := skn in
  let ds := digits s in
  if (k <=? n) && (n <=? 21) then ds ++ zeros (Z.to_nat (n - k))
  else if (0 <? n) && (n <=? 21)
  then slice0 (Z.to_nat n) ds ++ "." ++ drop (Z.to_nat n) ds
  else if (-6 <? n) && (n <=? 0)
  then "0." ++ zeros (Z.to_nat (- n)) ++ ds
  else
    let ex := n - 1 in
    let sign := if ex <? 0 then "-" else "+" in
    if k =? 1 then ds ++ "e" ++ sign ++ digits (Z.abs ex)
    else slice0 1 ds ++ "." ++ drop 1 ds ++ "e" ++ sign ++ digits (Z.abs ex).

(** [Number::toString(x)], which a template literal applies. *)
Definition numberToString (x : Num.number) : string :=
  match x with
  | S754_nan => "NaN"
  | S754_zero _ => "0"
  | S754_infinity s => if s then "-Infinity" else "Infinity"
  | S754_finite s m e =>
      let num := if 0 <=? e then Zpos m * 2 ^ e else Zpos m in
      let den := if 0 <=? e then 1 else 2 ^ (- e) in
      let n := decimal_exponent num den in
      (if s then "-" else EmptyString)
      ++ format_digits (shortest 20 (S754_finite false m e) num den n 1)
  end.

(** ** [parseInt(string, radix)] *)

(** White space (the ASCII part of it). *)
Definition is_space (c : ascii) : bool :=
  let n := N_of_ascii c in
  (((9 <=? n) && (n <=? 13)) || (n =? 32))%N.

(** [s] without its leading white space. *)
Fixpoint trim_start (s : string) : string :=
  match s with
  | String c s' => if is_space c then trim_start s' else s
  | EmptyString => s
  end.

(** The value of [c] as a digit, in any radix up to 36. *)
Definition digit_value (c : ascii) : option Z :=
  let n := Z.of_N (N_of_ascii c) in
  if (48 <=? n) && (n <=? 57) then Some (n - 48)
  else if (97 <=? n) && (n <=? 122) then Some (n - 87)
  else if (65 <=? n) && (n <=? 90) then Some (n - 55)
  else None.

(** Value of the longest prefix of radix-[r] digits; [None] if it is empty. *)
Fixpoint parse_digits (r : Z) (s : string) (acc : option Z) : option Z :=
  match s with
  | String c s' =>
      match digit_value c with
      | Some d =>
          if d <? r
          then parse_digits r s'
                 (Some (match acc with Some a => a * r + d | None => d end))
          else acc
      | None => acc
      end
  | EmptyString => acc
  end.

(** [s] without a leading [0x] or [0X]. *)
Definition strip_0x (s : string) : string :=
  match s with
  | String "0" (String "x" s') => s'
  | String "0" (String "X" s') => s'
  | _ => s
  end.

(** [parseInt(str, radix)] for a radix from 2 to 36: optional sign,
    optional [0x] when the radix is 16, then the longest run of digits;
    NaN when there is none. *)
Definition parseInt (str : string) (radix : Z) : Num.number :=
  let s := trim_start str in
  let '(neg, s) :=
    match s with
    | String "-" s' => (true, s')
    | String "+" s' => (false, s')
    | _ => (false, s)
    end in
  if (radix <? 2) || (36 <? radix) then Num.NaN
  else
    let s := if radix =? 16 then strip_0x s else s in
    match parse_digits radix s None with
    | None => Num.NaN
    | Some v => binary_normalize Num.prec Num.emax (cond_Zopp neg v) 0 neg
    end.

End Str.

(* ------------------------------------------------------------------ *)
(** * The verification engine *)

Import Num.

Local Open Scope string_scope.
Local Open Scope Z_scope.

(** ** [server/src/lib/hashUtils.ts] *)

(** [createHash('sha256').update(input).digest('hex')]. *)
Definition sha256 (input : string) : string := Sha256.hexdigest input.

(** Does the server seed hash to the claimed hash? Letter case is ignored. *)
Definition verifyServerSeedHash (serverSeed serverSeedHash : string) : bool :=
  let computedHash := sha256 serverSeed in
  String.eqb (Str.toLowerCase computedHash) (Str.toLowerCase serverSeedHash).

(** The first 12 characters of the hash of the server seed. *)
Definition createAuditDigest (serverSeed : string) : string :=
  Str.slice0 12 (sha256 serverSeed).

(** ** [server/src/lib/provablyFair.ts] *)

(** The Outcome of a derivation. *)
Record VerificationResult := mkVerificationResult {
  computedResult : number;
  computationHex : string;
  serverSeedHash : string
}.

(** The template literal [`${serverSeed}:${clientSeed}:${nonce}`]. *)
Definition computeHashInput (serverSeed clientSeed : string) (nonce : number)
  : string :=
  serverSeed ++ ":" ++ clientSeed ++ ":" ++ Str.numberToString nonce.

(** The dice derivation. *)
Definition verifyDice (serverSeed clientSeed : string) (nonce : number)
  : VerificationResult :=
  let hashInput := computeHashInput serverSeed clientSeed nonce in
  let hash := sha256 hashInput in
  let computationHex := hash in
  let hexPrefix := Str.slice0 8 hash in
  let x := Str.parseInt hexPrefix 16 in
  let result := div (rem x (of_Z 10000)) (of_Z 100) in
  let serverSeedHash := sha256 serverSeed in
  {| computedResult := div (round (mul result (of_Z 100))) (of_Z 100);
     computationHex := computationHex;
     serverSeedHash := serverSeedHash |}.

(** A parameter with a default value: [None] is an argument left out. *)
Definition or_default {A : Type} (d : A) (o : option A) : A :=
  match o with Some a => a | None => d end.

(** The crash derivation (inverse mapping); [maxMult] defaults to 10000. *)
Definition verifyCrash (serverSeed clientSeed : string) (nonce : number)
    (maxMult : option number) : VerificationResult :=
  let maxMult := or_default (of_Z 10000) maxMult in
  let hashInput := computeHashInput serverSeed clientSeed nonce in
  let hash := sha256 hashInput in
  let computationHex := hash in
  let hexPrefix := Str.slice0 13 hash in
  let x := Str.parseInt hexPrefix 16 in
  let TWO_TO_52 := of_Z 4503599627370496 in
  let r := div x TWO_TO_52 in
  let r := min r (sub (of_Z 1) lit_1e_12) in
  let mult := div (floor (mul (div (of_Z 1) (sub (of_Z 1) r)) (of_Z 100)))
                  (of_Z 100) in
  let mult := min mult maxMult in
  let serverSeedHash := sha256 serverSeed in
  {| computedResult := div (round (mul mult (of_Z 100))) (of_Z 100);
     computationHex := computationHex;
     serverSeedHash := serverSeedHash |}.

(** A call either returns or throws an [Error] with a message. *)
Inductive completion (A : Type) : Type :=
| Return (a : A)
| Throw (message : string).
Arguments Return {A} a.
Arguments Throw {A} message.

(** What [verifyGame] returns. *)
Record GameVerification := mkGameVerification {
  result : VerificationResult;
  hashVerified : bool;
  hashMismatch : bool
}.

(** The claimed hash is tested for truthiness: [undefined] ([None]) and the
    empty string both skip the check. *)
Definition truthy_opt (o : option string) : bool :=
  match o with Some s => Str.truthy s | None => false end.

(** Checks the claimed hash, if there is one, and dispatches on the game;
    any other game name throws. [maxMult] defaults to 10000. *)
Definition verifyGame (game serverSeed : string)
    (serverSeedHash : option string) (clientSeed : string) (nonce : number)
    (maxMult : option number) : completion GameVerification :=
  let maxMult := or_default (of_Z 10000) maxMult in
  let hashVerified :=
    if truthy_opt serverSeedHash
    then verifyServerSeedHash serverSeed (or_default EmptyString serverSeedHash)
    else false in
  let hashMismatch :=
    if truthy_opt serverSeedHash then negb hashVerified else false in
  if String.eqb game "dice" then
    Return {| result := verifyDice serverSeed clientSeed nonce;
              hashVerified := hashVerified;
              hashMismatch := hashMismatch |}
  else if String.eqb game "crash" then
    Return {| result := verifyCrash serverSeed clientSeed nonce (Some maxMult);
              hashVerified := hashVerified;
              hashMismatch := hashMismatch |}
  else Throw ("Unknown game type: " ++ game).

(** Comparison of the computed result with the expected one; [strict]
    defaults to false. *)
Definition compareResults (computed expected : number) (strict : option bool)
  : bool :=
  if or_default false strict
  then ltb (abs (sub computed expected)) (mul EPSILON (of_Z 10))
  else ltb (abs (sub computed expected)) lit_0_01.

(** ** [server/src/api/verify.ts] *)

(** The body of a request, with the types that the interface declares; an
    optional field that is absent is [None]. *)
Record VerifyRequest := mkVerifyRequest {
  game : string;
  server_seed : string;
  server_seed_hash : option string;
  client_seed : string;
  nonce : number;
  server_provided_hash : option bool;
  expected_result : option number;
  expect_strict : option bool
}.

(** [s] between double quotes. *)
Definition quoted (s : string) : string :=
  let q := String (ascii_of_nat 34) EmptyString in q ++ s ++ q.

(** [None] stands for [{ valid: true }], [Some e] for
    [{ valid: false, error: e }]. *)
Definition validateRequest (body : VerifyRequest) : option string :=
  if negb (Str.truthy (game body))
     || (negb (String.eqb (game body) "dice")
         && negb (String.eqb (game body) "crash"))
  then Some ("Invalid game type. Must be " ++ quoted "dice" ++ " or "
             ++ quoted "crash")
  else if negb (Str.truthy (server_seed body))
  then Some "server_seed is required and must be a string"
  else if (1000 <? length (server_seed body))%nat
  then Some "server_seed is too long (max 1000 characters)"
  else if negb (Str.truthy (client_seed body))
  then Some "client_seed is required and must be a string"
  else if (1000 <? length (client_seed body))%nat
  then Some "client_seed is too long (max 1000 characters)"
  else if ltb (nonce body) (of_Z 1) || negb (isInteger (nonce body))
  then Some "nonce must be a positive integer"
  else if match expected_result body with
          | Some e => ltb e (of_Z 0)
          | None => false
          end
  then Some "expected_result must be a non-negative number"
  else None.

(** The verdict of a response. *)
Inductive Verdict := PASS | FAIL.

(** [details] of the response, with [used_input] flattened into it. *)
Record Details := mkDetails {
  used_client_seed : string;
  used_nonce : number;
  used_server_seed_hash : string;
  computation_hex : string;
  notes : string
}.

(** The response of a successful verification; [resp_game] is its [game]. *)
Record VerifyResponse := mkVerifyResponse {
  ok : bool;
  resp_game : string;
  computed_result : number;
  verdict : Verdict;
  details : Details
}.

(** What the handler sends: a status code with an error message, or the
    verification response (status 200). *)
Inductive Response :=
| Failure (status : Z) (error : string)
| Success (body : VerifyResponse).

(** [notes.push(s)]. *)
Definition push (l : list string) (s : string) : list string :=
  (l ++ [s])%list.

(** [l.join(sep)]. *)
Fixpoint join (sep : string) (l : list string) : string :=
  match l with
  | [] => EmptyString
  | [a] => a
  | a :: l' => a ++ sep ++ join sep l'
  end.

(** [env_MAX_MULT] is [process.env.MAX_MULT]. *)
Definition postVerify (env_MAX_MULT : option string) (body : VerifyRequest)
  : Response :=
  match validateRequest body with
  | Some e => Failure 400 e
  | None =>
      let maxMult :=
        Str.parseInt
          (if truthy_opt env_MAX_MULT then or_default EmptyString env_MAX_MULT
           else "10000") 10 in
      match verifyGame (game body) (server_seed body) (server_seed_hash body)
                       (client_seed body) (nonce body) (Some maxMult) with
      | Throw msg => Failure 500 ("Verification failed: " ++ msg)
      | Return gv =>
          let notes0 :=
            if truthy_opt (server_seed_hash body) then
              if hashMismatch gv
              then ["Server seed hash verification FAILED - hash mismatch"]
              else if hashVerified gv
              then ["Server seed hash verified successfully"]
              else []
            else ["No server seed hash provided for verification"] in
          let verdict0 := if hashMismatch gv then FAIL else PASS in
          let '(verdict1, notes1) :=
            match expected_result body with
            | Some expected =>
                let matches :=
                  compareResults (computedResult (result gv)) expected
                    (Some (or_default false (expect_strict body))) in
                if matches
                then (verdict0,
                      push notes0
                        ("Computed result matches expected result ("
                         ++ Str.numberToString expected ++ ")"))
                else (FAIL,
                      push notes0
                        ("Computed result ("
                         ++ Str.numberToString (computedResult (result gv))
                         ++ ") does not match expected result ("
                         ++ Str.numberToString expected ++ ")"))
            | None =>
                (verdict0,
                 push notes0 "No expected result provided - computation only")
            end in
          Success
            {| ok := true;
               resp_game := game body;
               computed_result := computedResult (result gv);
               verdict := verdict1;
               details :=
                 {| used_client_seed := client_seed body;
                    used_nonce := nonce body;
                    used_server_seed_hash := serverSeedHash (result gv);
                    computation_hex := computationHex (result gv);
                    notes := join "; " notes1 |} |}
      end
  end.


(** ** [server/src/middleware/rateLimit.ts] *)

Module RateLimit.

(** The options that the rate limiter is built with; [message] is the
    object [{ ok, error }] of a refused request. *)
Record Options := mkOptions {
  windowMs : number;
  max : number;
  message_ok : bool;
  message_error : string;
  standardHeaders : bool;
  legacyHeaders : bool
}.

(** The options of [apiRateLimiter]; [env_RATE_LIMIT_PER_MIN] is
    [process.env.RATE_LIMIT_PER_MIN]. *)
Definition apiRateLimiter (env_RATE_LIMIT_PER_MIN : option string) : Options :=
  {| windowMs := mul (of_Z 60) (of_Z 1000);
     max :=
       Str.parseInt
         (if truthy_opt env_RATE_LIMIT_PER_MIN
          then or_default EmptyString env_RATE_LIMIT_PER_MIN
          else "60") 10;
     message_ok := false;
     message_error := "Too many requests, please try again later.";
     standardHeaders := true;
     legacyHeaders := false |}.

End RateLimit.

(** ** [client/src/components/ExplainTooltip.tsx] *)

(** The numbers that the explanation of a result recomputes from the digest
    and shows, for either game, with the result it was given. *)
Inductive Explanation :=
| ExplainDice (hexPrefix : string) (x modulo computed result : number)
| ExplainCrash (hexPrefix : string) (x r mult finalMult result : number).

(** The component: any game but "dice" is explained as a crash, with the
    default cap of 10000. *)
Definition ExplainTooltip (game computationHex : string) (result : number)
  : Explanation :=
  if String.eqb game "dice" then
    let hexPrefix := Str.slice0 8 computationHex in
    let x := Str.parseInt hexPrefix 16 in
    let modulo := rem x (of_Z 10000) in
    let computed := div modulo (of_Z 100) in
    ExplainDice hexPrefix x modulo computed result
  else
    let hexPrefix := Str.slice0 13 computationHex in
    let x := Str.parseInt hexPrefix 16 in
    let TWO_TO_52 := of_Z 4503599627370496 in
    let r := div x TWO_TO_52 in
    let r := min r (sub (of_Z 1) lit_1e_12) in
    let mult := div (floor (mul (div (of_Z 1) (sub (of_Z 1) r)) (of_Z 100)))
                    (of_Z 100) in
    let maxMult := of_Z 10000 in
    let finalMult := min mult maxMult in
    ExplainCrash hexPrefix x r mult finalMult result.

(** ** [client/src/components/VerifyForm.tsx] *)

(** Truthiness of a number: every number but NaN and the two zeros. *)
Definition truthy_num (x : number) : bool :=
  match x with
  | S754_nan | S754_zero _ => false
  | _ => true
  end.

(** The change handler of the nonce input: the nonce that it stores for
    the text of the input, [parseInt(e.target.value, 10) || 1]. *)
Definition nonce_onChange (value : string) : number :=
  let parsed := Str.parseInt value 10 in
  if truthy_num parsed then parsed else of_Z 1.

(** The nonce that [handleSubmit] hands over for the stored nonce,
    [parseInt(nonce.toString(), 10)]. *)
Definition submitted_nonce (nonce : number) : number :=
  Str.parseInt (Str.numberToString nonce) 10.

(** ** [client/src/App.tsx] *)

(** The form data that [handleVerify] receives. *)
Record FormData := mkFormData {
  fd_game : string;
  fd_server_seed : string;
  fd_server_seed_hash : option string;
  fd_client_seed : string;
  fd_nonce : number;
  fd_expected_result : option number;
  fd_expect_strict : option bool
}.

(** The object that [handleVerify] serialises as the body of the request.
    A field whose value is [undefined] is left out by [JSON.stringify], so
    that the server finds it absent. *)
Definition request_body (formData : FormData) : VerifyRequest :=
  {| game := fd_game formData;
     server_seed := fd_server_seed formData;
     server_seed_hash :=
       if truthy_opt (fd_server_seed_hash formData)
       then fd_server_seed_hash formData else None;
     client_seed := fd_client_seed formData;
     nonce := fd_nonce formData;
     server_provided_hash := None;
     expected_result :=
       match fd_expected_result formData with
       | Some e => if truthy_num e then Some e else None
       | None => None
       end;
     expect_strict := Some (or_default false (fd_expect_strict formData)) |}.

(* ------------------------------------------------------------------ *)
(** * Definitions used by the proofs

    The real value of a number, the predicates of the rounding analysis,
    the games as a closed type, and the derivations reworded from the
    specification, against which the code is compared. *)

(** Powers of two, as reals. *)
Definition bpow (e : Z) : R := powerRZ 2 e.

(** The real [m * 2^e]. *)
Definition F2R (m e : Z) : R := (IZR m * bpow e)%R.

(** The real value of a finite number (0 for the others). *)
Definition SF2R (x : spec_float) : R :=
  match x with
  | S754_finite s m e => F2R (cond_Zopp s (Zpos m)) e
  | _ => 0%R
  end.

(** The real [x] lies in [m, m+1) at the place the location tells. *)
Definition loc_ok (m : Z) (l : location) (x : R) : Prop :=
  match l with
  | loc_Exact => x = IZR m
  | loc_Inexact Lt => (IZR m < x < IZR m + / 2)%R
  | loc_Inexact Eq => (x = IZR m + / 2)%R
  | loc_Inexact Gt => (IZR m + / 2 < x < IZR m + 1)%R
  end.

(** The same, for the record that the shifts of the Standard Library carry. *)
Definition rec_ok (mrs : shr_record) (x : R) : Prop :=
  loc_ok (shr_m mrs) (loc_of_shr_record mrs) x.

(** The exponent of the binary64 numbers of magnitude [2^(e-1) .. 2^e]. *)
Definition fexp64 (e : Z) : Z := fexp Num.prec Num.emax e.

(** Mantissas that fit the format at exponent [e]. *)
Definition fits (m e : Z) : Prop :=
  0 < m < 2 ^ 53 /\ - 1074 <= e /\ (e = - 1074 \/ 2 ^ 52 <= m).

(** The positive reals that binary64 represents exactly. *)
Definition repr (v : R) : Prop :=
  exists m e, 0 < m < 2 ^ 53 /\ - 1074 <= e <= 971 /\ v = F2R m e.

(** A finite, strictly positive binary64 number in canonical form. *)
Definition good (x : spec_float) : Prop :=
  match x with
  | S754_finite false m e => bounded Num.prec Num.emax m e = true
  | _ => False
  end.

(** The lower-case hexadecimal digits. *)
Definition is_hex_lower (c : ascii) : bool :=
  let n := Z.of_N (N_of_ascii c) in
  ((48 <=? n) && (n <=? 57)) || ((97 <=? n) && (n <=? 102)).

(** Strings made of such digits only. *)
Fixpoint all_hex (s : string) : bool :=
  match s with
  | EmptyString => true
  | String c s' => is_hex_lower c && all_hex s'
  end.

(** The value of a hexadecimal digit, read off a table. *)
Definition hex_char_value (c : ascii) : Z :=
  match c with
  | "0" => 0 | "1" => 1 | "2" => 2 | "3" => 3 | "4" => 4 | "5" => 5
  | "6" => 6 | "7" => 7 | "8" => 8 | "9" => 9 | "a" => 10 | "b" => 11
  | "c" => 12 | "d" => 13 | "e" => 14 | "f" => 15 | _ => 0
  end%char.

(** Horner evaluation in base 16, from the most significant digit. *)
Fixpoint hex_value_acc (s : string) (acc : Z) : Z :=
  match s with
  | EmptyString => acc
  | String c s' => hex_value_acc s' (acc * 16 + hex_char_value c)
  end.

(** The unsigned base-16 integer a string of hex digits denotes. *)
Definition hex_value (s : string) : Z := hex_value_acc s 0.

(** Rounding to two decimal places, as both derivations do it. *)
Definition round2 (v : number) : number :=
  div (round (mul v (of_Z 100))) (of_Z 100).

(** The digest prefix that a derivation parses. *)
Definition prefix_value (n : nat) (hash : string) : Z :=
  hex_value (Str.slice0 n hash).

(** A digest: sixty-four lower-case hexadecimal digits. *)
Definition is_digest (hash : string) : Prop :=
  all_hex hash = true /\ String.length hash = 64%nat.

(** Steps 3 to 5: the fraction [r = x / 2^52], its clamp, and the floored
    inverse. *)
Definition crash_multiplier (x : Z) : number :=
  let r := div (of_Z x) (of_Z 4503599627370496) in
  let r := min r (sub (of_Z 1) lit_1e_12) in
  div (floor (mul (div (of_Z 1) (sub (of_Z 1) r)) (of_Z 100))) (of_Z 100).

(** Steps 6 and 7: the cap and the rounding to two decimals. *)
Definition crash_result (x : Z) (maxMult : number) : number :=
  round2 (min (crash_multiplier x) maxMult).

(** The clamp [1 - 1e-12] of step 4. *)
Definition clamp : number := sub (of_Z 1) lit_1e_12.

(** The closed set of games. *)
Inductive GameType := dice | crash.

(** The name of a game in a request. *)
Definition game_name (g : GameType) : string :=
  match g with dice => "dice" | crash => "crash" end.

(** The derivation a game dispatches to. *)
Definition derive (g : GameType) (serverSeed clientSeed : string)
    (nonce : number) (maxMult : number) : VerificationResult :=
  match g with
  | dice => verifyDice serverSeed clientSeed nonce
  | crash => verifyCrash serverSeed clientSeed nonce (Some maxMult)
  end.

(** A request with its claimed hash replaced. *)
Definition with_claimed_hash (body : VerifyRequest) (h : option string)
  : VerifyRequest :=
  {| game := game body;
     server_seed := server_seed body;
     server_seed_hash := h;
     client_seed := client_seed body;
     nonce := nonce body;
     server_provided_hash := server_provided_hash body;
     expected_result := expected_result body;
     expect_strict := expect_strict body |}.

(** The expected result of a request disagrees with the computed one. *)
Definition expected_mismatch (body : VerifyRequest) (computed : number)
  : bool :=
  match expected_result body with
  | Some expected =>
      negb (compareResults computed expected
              (Some (or_default false (expect_strict body))))
  | None => false
  end.

(** A request with a wrong claimed hash and the right expected result. *)
Definition sample_request : VerifyRequest :=
  {| game := "dice";
     server_seed := "seed123";
     server_seed_hash := Some "wrong";
     client_seed := "client456";
     nonce := of_Z 1;
     server_provided_hash := None;
     expected_result := Some (of_ratio 174 100);
     expect_strict := None |}.

(** The Outcome of a call: its verification result, if it returns. *)
Definition outcome_of (c : completion GameVerification)
  : option VerificationResult :=
  match c with
  | Return gv => Some (result gv)
  | Throw _ => None
  end.

(** ** Definitions for the further properties

    The cap read from the environment, requests and form data built from
    others, and the predicates on strings that the statements use. *)

(** What [parse_digits] has read so far, nothing read counting as 0. *)
Definition acc_value (acc : option Z) : Z :=
  match acc with Some a => a | None => 0 end.

(** The cap that [postVerify] reads from the environment:
    [parseInt(process.env.MAX_MULT || '10000', 10)]. *)
Definition env_max_mult (env_MAX_MULT : option string) : number :=
  Str.parseInt
    (if truthy_opt env_MAX_MULT then or_default EmptyString env_MAX_MULT
     else "10000") 10.

(** The request that submits again what a response reported: its server
    seed hash as the claimed hash and its computed result as the expected
    result. *)
Definition confirming (body : VerifyRequest) (resp : VerifyResponse)
    (strict : option bool) : VerifyRequest :=
  {| game := game body;
     server_seed := server_seed body;
     server_seed_hash := Some (used_server_seed_hash (details resp));
     client_seed := client_seed body;
     nonce := nonce body;
     server_provided_hash := server_provided_hash body;
     expected_result := Some (computed_result resp);
     expect_strict := strict |}.

(** A crash request with an expected result and no claimed hash. *)
Definition sample_crash_request : VerifyRequest :=
  {| game := "crash";
     server_seed := "test";
     server_seed_hash := None;
     client_seed := "test";
     nonce := of_Z 1;
     server_provided_hash := None;
     expected_result := Some (of_Z 2);
     expect_strict := None |}.

(** Strings without a colon. *)
Fixpoint no_colon (s : string) : bool :=
  match s with
  | EmptyString => true
  | String c s' => negb (Ascii.eqb c ":") && no_colon s'
  end.

(** The value that an explanation arrives at: the quotient for the dice,
    the capped multiplier for the crash. *)
Definition explained_value (e : Explanation) : number :=
  match e with
  | ExplainDice _ _ _ computed _ => computed
  | ExplainCrash _ _ _ _ finalMult _ => finalMult
  end.

(** The decimal digits, as characters. *)
Definition decimal_digit (c : ascii) : bool :=
  match Str.digit_value c with
  | Some d => d <? 10
  | None => false
  end.

(** What may follow the digits that [parseInt] reads in radix 10: nothing,
    or text that does not start with a decimal digit. *)
Definition stops (rest : string) : bool :=
  match rest with
  | EmptyString => true
  | String c _ => negb (decimal_digit c)
  end.

(** The form data with its expected result left out. *)
Definition without_expected (formData : FormData) : FormData :=
  {| fd_game := fd_game formData;
     fd_server_seed := fd_server_seed formData;
     fd_server_seed_hash := fd_server_seed_hash formData;
     fd_client_seed := fd_client_seed formData;
     fd_nonce := fd_nonce formData;
     fd_expected_result := None;
     fd_expect_strict := fd_expect_strict formData |}.

(** Form data that expect the result 0 and claim a wrong hash. *)
Definition sample_form : FormData :=
  {| fd_game := "dice";
     fd_server_seed := "seed123";
     fd_server_seed_hash := Some "wrong";
     fd_client_seed := "client456";
     fd_nonce := of_Z 1;
     fd_expected_result := Some (of_Z 0);
     fd_expect_strict := Some true |}.

(** The number of [k] hundredths, as the derivations produce it. *)
Definition hundredths (k : Z) : number := div (of_Z k) (of_Z 100).

(* ------------------------------------------------------------------ *)
(** * Test vectors *)

(** ** SHA-256 against the vectors of FIPS 180-4 *)

Example sha256_constants :
  nth 0 Sha256.K 0 = 0x428a2f98 /\ nth 63 Sha256.K 0 = 0xc67178f2
  /\ Sha256.sa Sha256.H0 = 0x6a09e667 /\ Sha256.sh Sha256.H0 = 0x5be0cd19.
Proof. vm_compute. repeat split; reflexivity. Qed.

Example sha256_abc :
  sha256 "abc"
  = "ba7816bf8f01cfea414140de5dae2223b00361a396177a9cb410ff61f20015ad".
Proof. vm_compute. reflexivity. Qed.

Example sha256_empty :
  sha256 EmptyString
  = "e3b0c44298fc1c149afbf4c8996fb92427ae41e4649b934ca495991b7852b855".
Proof. vm_compute. reflexivity. Qed.

Example sha256_two_blocks :
  sha256 "abcdbcdecdefdefgefghfghighijhijkijkljklmklmnlmnomnopnopq"
  = "248d6a61d20638b8e5c026930c3e6039a33ce45964ff2167f6ecedd419db06c1".
Proof. vm_compute. reflexivity. Qed.

(** ** Numbers to strings and back *)

Example toString_small_integers :
  Str.numberToString (of_Z 1) = "1"
  /\ Str.numberToString (of_Z 1200) = "1200"
  /\ Str.numberToString (of_Z (2 ^ 53)) = "9007199254740992".
Proof. vm_compute. repeat split; reflexivity. Qed.

Example toString_large_integers :
  Str.numberToString (of_Z (10 ^ 21)) = "1e+21"
  /\ Str.numberToString (of_Z 123456789012345680000) = "123456789012345680000"
  /\ Str.numberToString (of_Z (2 ^ 1024 - 2 ^ 971)) = "1.7976931348623157e+308".
Proof. vm_compute. repeat split; reflexivity. Qed.

Example toString_fractions :
  Str.numberToString (of_ratio 4237 100) = "42.37"
  /\ Str.numberToString (div (of_Z 1) (of_Z 3)) = "0.3333333333333333"
  /\ Str.numberToString (of_ratio 1 1000000) = "0.000001"
  /\ Str.numberToString (of_ratio 1 10000000) = "1e-7"
  /\ Str.numberToString (S754_finite false 1 (- 1074)) = "5e-324"
  /\ Str.numberToString (S754_zero true) = "0"
  /\ Str.numberToString (SFopp (of_ratio 5 2)) = "-2.5".
Proof. vm_compute. repeat split; reflexivity. Qed.

Example literals_read_back :
  Str.numberToString lit_1e_12 = "1e-12"
  /\ Str.numberToString lit_0_01 = "0.01"
  /\ Str.numberToString EPSILON = "2.220446049250313e-16"
  /\ Str.numberToString (sub (of_Z 1) lit_1e_12) = "0.999999999999".
Proof. vm_compute. repeat split; reflexivity. Qed.

Example parseInt_samples :
  Str.parseInt "fc585ffe" 16 = of_Z 4233650174
  /\ Str.parseInt "10000" 10 = of_Z 10000
  /\ Str.parseInt "  -0x1F" 16 = of_Z (- 31)
  /\ Str.parseInt "12abc" 10 = of_Z 12
  /\ Str.parseInt "zz" 16 = NaN.
Proof. vm_compute. repeat split; reflexivity. Qed.

(** ** Arithmetic *)

Example math_samples :
  Str.numberToString (round (of_ratio 5 2)) = "3"
  /\ round (SFopp (of_ratio 5 2)) = of_Z (- 2)
  /\ round (SFopp (of_ratio 3 10)) = S754_zero true
  /\ floor (SFopp (of_ratio 3 10)) = of_Z (- 1)
  /\ floor (of_ratio 277 100) = of_Z 2
  /\ rem (of_Z 4233650174) (of_Z 10000) = of_Z 174
  /\ rem (SFopp (of_Z 7)) (of_Z 4) = of_Z (- 3)
  /\ min (of_Z 3) NaN = NaN
  /\ min (S754_zero false) (S754_zero true) = S754_zero true.
Proof. vm_compute. repeat split; reflexivity. Qed.

(** ** The vectors of the specification *)

Example dice_vector :
  sha256 "seed123:client456:1"
  = "fc585ffee5e1bfeb0f0e6b22126e8f209974eeb0939e8ccfb47d96a060160cc5"
  /\ Str.numberToString
       (computedResult (verifyDice "seed123" "client456" (of_Z 1)))
     = "1.74".
Proof. vm_compute. split; reflexivity. Qed.

Example crash_vector :
  sha256 "test:test:1"
  = "a3b8ef9da90794aa6e9da679fc78e910ecfefad1d5eea399f24d3677bde9d4f1"
  /\ Str.numberToString
       (computedResult
          (verifyCrash "test" "test" (of_Z 1) (Some (of_Z 10000))))
     = "2.77".
Proof. vm_compute. split; reflexivity. Qed.

Example seed_hash_case_insensitive :
  verifyServerSeedHash "test"
    "9F86D081884C7D659A2FEAA0C55AD015A3BF4F1B2B0B822CD15D6C15B0F00A08"
  = true.
Proof. vm_compute. reflexivity. Qed.

(** ** The client and the settings *)

Example nonce_input_samples :
  nonce_onChange "42" = of_Z 42
  /\ nonce_onChange "abc" = of_Z 1
  /\ nonce_onChange "0" = of_Z 1
  /\ nonce_onChange "-5" = of_Z (- 5)
  /\ nonce_onChange "12.7" = of_Z 12
  /\ submitted_nonce (of_Z 42) = of_Z 42
  /\ submitted_nonce (of_Z (10 ^ 21)) = of_Z 1.
Proof. vm_compute. repeat split; reflexivity. Qed.

Example rate_limit_samples :
  RateLimit.max (RateLimit.apiRateLimiter None) = of_Z 60
  /\ RateLimit.max (RateLimit.apiRateLimiter (Some "100")) = of_Z 100
  /\ RateLimit.max (RateLimit.apiRateLimiter (Some "fast")) = NaN
  /\ RateLimit.windowMs (RateLimit.apiRateLimiter None) = of_Z 60000.
Proof. vm_compute. repeat split; reflexivity. Qed.

Example explanation_sample :
  ExplainTooltip "dice" (sha256 "seed123:client456:1") (of_ratio 174 100)
  = ExplainDice "fc585ffe" (of_Z 4233650174) (of_Z 174)
      (of_ratio 174 100) (of_ratio 174 100).
Proof. vm_compute. reflexivity. Qed.

(* ------------------------------------------------------------------ *)
(** * Binary64 rounding *)

Lemma bpow_pos e : (0 < bpow e)%R.
Proof. apply powerRZ_lt; lra. Qed.

Lemma bpow_add a b : bpow (a + b) = (bpow a * bpow b)%R.
Proof. apply powerRZ_add; lra. Qed.

Lemma bpow_IZR e : 0 <= e -> bpow e = IZR (2 ^ e).
Proof.
  intros He. unfold bpow.
  destruct e as [|p|p]; try lia.
  - reflexivity.
  - simpl. rewrite pow_IZR. f_equal. rewrite positive_nat_Z. reflexivity.
Qed.

Lemma bpow_lt a b : a < b -> (bpow a < bpow b)%R.
Proof.
  intros H. replace b with (a + (b - a)) by ring.
  rewrite bpow_add.
  assert (Ha := bpow_pos a).
  assert (1 < bpow (b - a))%R.
  { rewrite bpow_IZR by lia. apply IZR_lt.
    replace 1 with (2 ^ 0) at 1 by reflexivity.
    apply Z.pow_lt_mono_r; lia. }
  nra.
Qed.

Lemma bpow_le a b : a <= b -> (bpow a <= bpow b)%R.
Proof.
  intros H. destruct (Z.eq_dec a b) as [->|Hne]; [lra|].
  apply Rlt_le, bpow_lt. lia.
Qed.

Lemma bpow_0 : bpow 0 = 1%R.
Proof. reflexivity. Qed.

Lemma bpow_opp e : bpow (- e) = (/ bpow e)%R.
Proof.
  assert (H := bpow_add e (- e)). rewrite Z.add_opp_diag_r, bpow_0 in H.
  assert (Hp := bpow_pos e).
  apply Rmult_eq_reg_l with (bpow e); [|lra].
  rewrite <- H. field. lra.
Qed.

(** digits *)
Lemma digits2_pos_bounds (m : positive) :
  2 ^ (Zpos (digits2_pos m) - 1) <= Zpos m < 2 ^ Zpos (digits2_pos m).
Proof.
  induction m as [m IH|m IH|]; cbn [digits2_pos].
  - rewrite Pos2Z.inj_succ, Pos2Z.inj_xI.
    replace (Z.succ (Zpos (digits2_pos m)) - 1) with (Z.succ (Zpos (digits2_pos m) - 1)) by lia.
    rewrite (Z.pow_succ_r 2 (Zpos (digits2_pos m) - 1)),
      (Z.pow_succ_r 2 (Zpos (digits2_pos m))) by lia. lia.
  - rewrite Pos2Z.inj_succ. change (Zpos m~0) with (2 * Zpos m).
    replace (Z.succ (Zpos (digits2_pos m)) - 1) with (Z.succ (Zpos (digits2_pos m) - 1)) by lia.
    rewrite (Z.pow_succ_r 2 (Zpos (digits2_pos m) - 1)),
      (Z.pow_succ_r 2 (Zpos (digits2_pos m))) by lia. lia.
  - simpl. lia.
Qed.

Lemma Zdigits2_bounds (m : Z) : 0 < m ->
  2 ^ (Zdigits2 m - 1) <= m < 2 ^ Zdigits2 m.
Proof.
  destruct m; try lia. intros _. apply digits2_pos_bounds.
Qed.

Lemma Zdigits2_nonneg m : 0 <= Zdigits2 m.
Proof. destruct m; simpl; lia. Qed.

Lemma Zdigits2_unique m d : 0 < m -> 2 ^ (d - 1) <= m < 2 ^ d -> Zdigits2 m = d.
Proof.
  intros Hm [H1 H2].
  destruct (Zdigits2_bounds m Hm) as [B1 B2].
  assert (Hd0 : 0 < d).
  { destruct (Z.le_gt_cases d 0) as [Hle|]; [|assumption].
    exfalso. destruct (Z.eq_dec d 0) as [->|].
    - simpl in H2. lia.
    - rewrite (Z.pow_neg_r 2 d) in H2 by lia. lia. }
  assert (Hz := Zdigits2_nonneg m).
  assert (Hz' : 0 < Zdigits2 m).
  { destruct m; simpl in *; lia. }
  destruct (Z.lt_trichotomy (Zdigits2 m) d) as [Hlt|[Heq|Hgt]]; [exfalso|assumption|exfalso].
  - assert (2 ^ Zdigits2 m <= 2 ^ (d - 1)) by (apply Z.pow_le_mono_r; lia). lia.
  - assert (2 ^ d <= 2 ^ (Zdigits2 m - 1)) by (apply Z.pow_le_mono_r; lia). lia.
Qed.

Lemma loc_ok_range m l x : loc_ok m l x -> (IZR m <= x < IZR m + 1)%R.
Proof. destruct l as [|[]]; simpl; lra. Qed.

Lemma IZR_xI p : IZR (Zpos p~1) = (2 * IZR (Zpos p) + 1)%R.
Proof. change (Zpos p~1) with (2 * Zpos p + 1). rewrite plus_IZR, mult_IZR. reflexivity. Qed.

Lemma IZR_xO p : IZR (Zpos p~0) = (2 * IZR (Zpos p))%R.
Proof. change (Zpos p~0) with (2 * Zpos p). rewrite mult_IZR. reflexivity. Qed.

Lemma shr_1_ok mrs x :
  0 <= shr_m mrs -> rec_ok mrs x ->
  rec_ok (shr_1 mrs) (x * / 2) /\ shr_m (shr_1 mrs) = shr_m mrs / 2.
Proof.
  destruct mrs as [m r s]. unfold rec_ok. cbn [shr_m].
  intros Hm H.
  destruct m as [|[p|p|]|p]; try lia; split;
    try (destruct r, s; cbn in *; rewrite ?(IZR_xI p), ?(IZR_xO p) in *; lra).
  - reflexivity.
  - cbn [shr_1 shr_m]. change (Zpos p~1) with (2 * Zpos p + 1).
    apply Z.div_unique with 1; lia.
  - cbn [shr_1 shr_m]. change (Zpos p~0) with (2 * Zpos p).
    apply Z.div_unique with 0; lia.
  - reflexivity.
Qed.

Lemma shr_iter_ok p : forall mrs x,
  0 <= shr_m mrs -> rec_ok mrs x ->
  rec_ok (iter_pos shr_1 p mrs) (x * bpow (- Zpos p))
  /\ shr_m (iter_pos shr_1 p mrs) = shr_m mrs / 2 ^ Zpos p.
Proof.
  assert (Hhalf : bpow (- 1) = (/ 2)%R).
  { unfold bpow. simpl. f_equal. lra. }
  induction p as [p IH|p IH|]; intros mrs x Hm H; cbn [iter_pos].
  - destruct (shr_1_ok mrs x Hm H) as [H1 E1].
    assert (Hm1 : 0 <= shr_m (shr_1 mrs)) by (rewrite E1; apply Z.div_pos; lia).
    destruct (IH _ _ Hm1 H1) as [H2 E2].
    assert (Hm2 : 0 <= shr_m (iter_pos shr_1 p (shr_1 mrs)))
      by (rewrite E2; apply Z.div_pos; lia).
    destruct (IH _ _ Hm2 H2) as [H3 E3].
    split.
    + replace (- Zpos p~1) with (- 1 + (- Zpos p + - Zpos p)) by lia.
      rewrite !bpow_add, Hhalf.
      replace (x * (/ 2 * (bpow (- Zpos p) * bpow (- Zpos p))))%R
        with (x * / 2 * bpow (- Zpos p) * bpow (- Zpos p))%R by ring.
      exact H3.
    + rewrite E3, E2, E1.
      rewrite !Z.div_div by lia.
      f_equal. replace (Zpos p~1) with (1 + (Zpos p + Zpos p)) by lia.
      rewrite !Z.pow_add_r by lia. reflexivity.
  - destruct (IH _ _ Hm H) as [H2 E2].
    assert (Hm2 : 0 <= shr_m (iter_pos shr_1 p mrs))
      by (rewrite E2; apply Z.div_pos; lia).
    destruct (IH _ _ Hm2 H2) as [H3 E3].
    split.
    + replace (- Zpos p~0) with (- Zpos p + - Zpos p) by lia.
      rewrite bpow_add.
      replace (x * (bpow (- Zpos p) * bpow (- Zpos p)))%R
        with (x * bpow (- Zpos p) * bpow (- Zpos p))%R by ring.
      exact H3.
    + rewrite E3, E2.
      rewrite Z.div_div by lia.
      f_equal. replace (Zpos p~0) with (Zpos p + Zpos p) by lia.
      rewrite Z.pow_add_r by lia. reflexivity.
  - destruct (shr_1_ok mrs x Hm H) as [H1 E1]. split.
    + change (- Zpos 1) with (- 1). rewrite Hhalf. exact H1.
    + rewrite E1. reflexivity.
Qed.

Lemma shr_ok mrs e n x :
  0 <= shr_m mrs -> rec_ok mrs x ->
  snd (shr mrs e n) = e + Z.max n 0
  /\ rec_ok (fst (shr mrs e n)) (x * bpow (- Z.max n 0))
  /\ shr_m (fst (shr mrs e n)) = shr_m mrs / 2 ^ Z.max n 0.
Proof.
  intros Hm H. destruct n as [|p|p]; cbn [shr fst snd].
  - rewrite Z.max_id, Z.add_0_r. simpl Z.opp. rewrite bpow_0, Rmult_1_r.
    repeat split; auto. rewrite Z.div_1_r. reflexivity.
  - replace (Z.max (Zpos p) 0) with (Zpos p) by lia.
    destruct (shr_iter_ok p mrs x Hm H) as [H1 E1]. auto.
  - replace (Z.max (Zneg p) 0) with 0 by lia.
    rewrite Z.add_0_r. simpl Z.opp. rewrite bpow_0, Rmult_1_r.
    repeat split; auto. rewrite Z.div_1_r. reflexivity.
Qed.

Lemma shr_record_of_loc_ok m l x :
  loc_ok m l x -> rec_ok (shr_record_of_loc m l) x.
Proof. unfold rec_ok. destruct l as [|[]]; cbn; auto. Qed.

Lemma shr_m_of_loc m l : shr_m (shr_record_of_loc m l) = m.
Proof. destruct l as [|[]]; reflexivity. Qed.

Lemma fexp64_eq e : fexp64 e = Z.max (e - 53) (- 1074).
Proof. reflexivity. Qed.

Lemma F2R_change_exp m e e0 :
  e0 <= e -> F2R m e = F2R (m * 2 ^ (e - e0)) e0.
Proof.
  intros H. unfold F2R. rewrite mult_IZR, <- bpow_IZR by lia.
  rewrite Rmult_assoc, <- bpow_add. do 2 f_equal. lia.
Qed.

Lemma F2R_le m1 m2 e : m1 <= m2 -> (F2R m1 e <= F2R m2 e)%R.
Proof.
  intros H. unfold F2R. apply Rmult_le_compat_r.
  - apply Rlt_le, bpow_pos.
  - apply IZR_le, H.
Qed.

Lemma F2R_le_inv m1 m2 e : (F2R m1 e <= F2R m2 e)%R -> m1 <= m2.
Proof.
  unfold F2R. intros H. apply le_IZR.
  apply Rmult_le_reg_r with (bpow e); [apply bpow_pos | exact H].
Qed.

Lemma F2R_lt_bpow m e p : 0 <= p -> m < 2 ^ p -> (F2R m e < bpow (p + e))%R.
Proof.
  intros Hp H. unfold F2R. rewrite bpow_add, (bpow_IZR p) by assumption.
  apply Rmult_lt_compat_r; [apply bpow_pos | apply IZR_lt, H].
Qed.

Lemma F2R_ge_bpow m e p : 0 <= p -> 2 ^ p <= m -> (bpow (p + e) <= F2R m e)%R.
Proof.
  intros Hp H. unfold F2R. rewrite bpow_add, (bpow_IZR p) by assumption.
  apply Rmult_le_compat_r; [apply Rlt_le, bpow_pos | apply IZR_le, H].
Qed.

Lemma rne_ok m l x :
  loc_ok m l x ->
  m <= round_nearest_even m l <= m + 1
  /\ (forall k, (IZR k <= x)%R -> k <= round_nearest_even m l)
  /\ (forall k, (x <= IZR k)%R -> round_nearest_even m l <= k).
Proof.
  intros H.
  assert (Hlo : forall k, (IZR k <= x)%R -> k <= m).
  { intros k Hk. apply loc_ok_range in H.
    assert (IZR k < IZR (m + 1))%R by (rewrite plus_IZR; lra).
    apply lt_IZR in H0. lia. }
  assert (Hhi : forall k, (x <= IZR k)%R -> (IZR m < x)%R -> m + 1 <= k).
  { intros k Hk Hm. assert (IZR m < IZR k)%R by lra. apply lt_IZR in H0. lia. }
  assert (Hex : forall k, (x <= IZR k)%R -> x = IZR m -> m <= k).
  { intros k Hk Hm. rewrite Hm in Hk. apply le_IZR, Hk. }
  destruct l as [|[]]; cbn [round_nearest_even loc_ok] in *.
  - repeat split; try lia; intros k Hk; auto.
  - destruct (Z.even m); repeat split; try lia; intros k Hk.
    + apply Hlo in Hk; lia.
    + apply Hhi in Hk; lra || lia.
    + apply Hlo in Hk; lia.
    + apply Hhi in Hk; lra || lia.
  - repeat split; try lia; intros k Hk.
    + apply Hlo in Hk; lia.
    + apply Hhi in Hk; lra || lia.
  - repeat split; try lia; intros k Hk.
    + apply Hlo in Hk; lia.
    + apply Hhi in Hk; lra || lia.
Qed.

Lemma fits_canonical m e :
  fits (Zpos m) e -> canonical_mantissa Num.prec Num.emax m e = true.
Proof.
  intros (Hm & He & Hn). unfold canonical_mantissa.
  apply Z.eqb_eq. change (fexp Num.prec Num.emax) with fexp64.
  rewrite fexp64_eq.
  destruct (digits2_pos_bounds m) as [B1 B2].
  assert (Hd : Zpos (digits2_pos m) <= 53).
  { destruct (Z.le_gt_cases (Zpos (digits2_pos m)) 53) as [|Hgt]; [assumption|].
    assert (2 ^ 53 <= 2 ^ (Zpos (digits2_pos m) - 1))
      by (apply Z.pow_le_mono_r; lia). lia. }
  destruct Hn as [->|Hn]; [lia|].
  assert (Zpos (digits2_pos m) = 53).
  { destruct (Z.eq_dec (Zpos (digits2_pos m)) 53) as [|Hne]; [assumption|].
    assert (2 ^ Zpos (digits2_pos m) <= 2 ^ 52)
      by (apply Z.pow_le_mono_r; lia). lia. }
  lia.
Qed.

Lemma canonical_fits m e :
  canonical_mantissa Num.prec Num.emax m e = true -> fits (Zpos m) e.
Proof.
  unfold canonical_mantissa. intros H. apply Z.eqb_eq in H.
  change (fexp Num.prec Num.emax) with fexp64 in H. rewrite fexp64_eq in H.
  destruct (digits2_pos_bounds m) as [B1 B2].
  set (d := Zpos (digits2_pos m)) in *.
  assert (Hd : 0 < d) by (unfold d; lia).
  assert (Hd53 : d <= 53) by lia.
  assert (2 ^ d <= 2 ^ 53) by (apply Z.pow_le_mono_r; lia).
  repeat split; try lia.
  destruct (Z.eq_dec e (- 1074)) as [|Hne]; [left; assumption|right].
  assert (d = 53) by lia.
  replace 52 with (d - 1) by lia. exact B1.
Qed.

(** Division by a power of two keeps the leading [2^52]. *)
Lemma div_pow2_ge m d :
  53 <= d -> 2 ^ (d - 1) <= m -> 2 ^ 52 <= m / 2 ^ (d - 53).
Proof.
  intros Hd Hm.
  apply Z.div_le_lower_bound; [apply Z.pow_pos_nonneg; lia|].
  rewrite <- Z.pow_add_r by lia.
  replace (d - 53 + 52) with (d - 1) by lia. exact Hm.
Qed.

Lemma div_pow2_lt m d :
  53 <= d -> m < 2 ^ d -> m / 2 ^ (d - 53) < 2 ^ 53.
Proof.
  intros Hd Hm.
  apply Z.div_lt_upper_bound; [apply Z.pow_pos_nonneg; lia|].
  rewrite <- Z.pow_add_r by lia.
  replace (d - 53 + 53) with d by lia. exact Hm.
Qed.

Lemma binary_round_aux_eq s mx ex lx :
  binary_round_aux Num.prec Num.emax s mx ex lx =
  let p1 := shr_fexp Num.prec Num.emax mx ex lx in
  let p2 := shr_fexp Num.prec Num.emax
              (round_nearest_even (shr_m (fst p1)) (loc_of_shr_record (fst p1)))
              (snd p1) loc_Exact in
  match shr_m (fst p2) with
  | Z0 => S754_zero s
  | Zpos m => if snd p2 <=? 971 then S754_finite s m (snd p2)
              else S754_infinity s
  | Zneg _ => S754_nan
  end.
Proof.
  unfold binary_round_aux.
  destruct (shr_fexp Num.prec Num.emax mx ex lx) as [mrs1 e1].
  cbn [fst snd].
  destruct (shr_fexp Num.prec Num.emax _ e1 loc_Exact) as [mrs2 e2].
  reflexivity.
Qed.

Section RoundAux.

Variables (s : bool) (mx ex : Z) (lx : location) (xm : R).
Hypothesis Hmx : 0 <= mx.
Hypothesis Hloc : loc_ok mx lx xm.
Hypothesis Hlong : ex <= fexp64 (Zdigits2 mx + ex).

Let e1 := fexp64 (Zdigits2 mx + ex).
Let m1' := mx / 2 ^ (e1 - ex).
Let x1 := (xm * bpow (- (e1 - ex)))%R.
Let l1 := loc_of_shr_record (fst (shr_fexp Num.prec Num.emax mx ex lx)).
Let mr := round_nearest_even m1' l1.
Let n2 := Z.max (fexp64 (Zdigits2 mr + e1) - e1) 0.
Let e2 := e1 + n2.
Let m2 := mr / 2 ^ n2.

Lemma stage1 :
  snd (shr_fexp Num.prec Num.emax mx ex lx) = e1
  /\ shr_m (fst (shr_fexp Num.prec Num.emax mx ex lx)) = m1'
  /\ loc_ok m1' l1 x1.
Proof.
  unfold shr_fexp.
  destruct (shr_ok (shr_record_of_loc mx lx) ex
              (fexp Num.prec Num.emax (Zdigits2 mx + ex) - ex) xm)
    as (A & B & C).
  - rewrite shr_m_of_loc. exact Hmx.
  - apply shr_record_of_loc_ok, Hloc.
  - change (fexp Num.prec Num.emax (Zdigits2 mx + ex)) with e1 in *.
    assert (Hn : Z.max (e1 - ex) 0 = e1 - ex) by (unfold e1; lia).
    rewrite Hn in *. rewrite shr_m_of_loc in C.
    split; [rewrite A; lia|]. split; [exact C|].
    unfold l1, shr_fexp, rec_ok in *.
    change (fexp Num.prec Num.emax (Zdigits2 mx + ex)) with e1.
    rewrite C in B. exact B.
Qed.

Lemma mr_nonneg : 0 <= m1' /\ m1' <= mr <= m1' + 1.
Proof.
  destruct stage1 as (_ & _ & L).
  destruct (rne_ok _ _ _ L) as (R1 & _ & _). fold mr in R1.
  split; [|exact R1].
  unfold m1'. apply Z.div_pos; [exact Hmx|].
  apply Z.pow_pos_nonneg; unfold e1; lia.
Qed.

Lemma stage2 :
  binary_round_aux Num.prec Num.emax s mx ex lx =
  match m2 with
  | Z0 => S754_zero s
  | Zpos m => if e2 <=? 971 then S754_finite s m e2 else S754_infinity s
  | Zneg _ => S754_nan
  end.
Proof.
  rewrite binary_round_aux_eq. cbv zeta.
  destruct stage1 as (A & B & _).
  rewrite A, B. fold l1. fold mr.
  unfold shr_fexp.
  destruct (shr_ok (shr_record_of_loc mr loc_Exact) e1
              (fexp Num.prec Num.emax (Zdigits2 mr + e1) - e1) (IZR mr))
    as (A2 & _ & C2).
  - cbn. destruct mr_nonneg. lia.
  - cbn. reflexivity.
  - change (fexp Num.prec Num.emax (Zdigits2 mr + e1))
      with (fexp64 (Zdigits2 mr + e1)) in *.
    fold n2 in A2, C2. rewrite !A2, C2. cbn [shr_m shr_record_of_loc].
    reflexivity.
Qed.

Lemma e1_cases :
  - 1074 <= e1 /\ (e1 = - 1074 \/ (0 < mx /\ e1 = Zdigits2 mx + ex - 53
                                  /\ 53 <= Zdigits2 mx)).
Proof.
  unfold e1 in *. rewrite fexp64_eq in *.
  split; [lia|].
  destruct (Z.eq_dec (Z.max (Zdigits2 mx + ex - 53) (- 1074)) (- 1074))
    as [|Hne]; [left; assumption|right].
  assert (Hd := Zdigits2_nonneg mx).
  destruct (Z.eq_dec mx 0) as [->|]; [cbn in *; lia|].
  lia.
Qed.

Lemma value_x1 : (x1 * bpow e1 = xm * bpow ex)%R.
Proof.
  unfold x1. rewrite Rmult_assoc, <- bpow_add. do 2 f_equal. lia.
Qed.

Lemma mr_below k : (F2R k e1 <= xm * bpow ex)%R -> k <= mr.
Proof.
  intros H. destruct stage1 as (_ & _ & L).
  destruct (rne_ok _ _ _ L) as (_ & R2 & _). apply R2.
  rewrite <- value_x1 in H. unfold F2R in H.
  apply Rmult_le_reg_r with (bpow e1); [apply bpow_pos | exact H].
Qed.

Lemma mr_above k : (xm * bpow ex <= F2R k e1)%R -> mr <= k.
Proof.
  intros H. destruct stage1 as (_ & _ & L).
  destruct (rne_ok _ _ _ L) as (_ & _ & R3). apply R3.
  rewrite <- value_x1 in H. unfold F2R in H.
  apply Rmult_le_reg_r with (bpow e1); [apply bpow_pos | exact H].
Qed.

Lemma n2_cases :
  0 <= n2 /\ (n2 = 0 \/ (0 < mr /\ n2 = Zdigits2 mr - 53 /\ 53 < Zdigits2 mr)).
Proof.
  destruct e1_cases as (He1 & _).
  unfold n2. rewrite fexp64_eq. split; [lia|].
  destruct (Z.eq_dec (Z.max (Z.max (Zdigits2 mr + e1 - 53) (- 1074) - e1) 0) 0)
    as [|Hne]; [left; assumption|right].
  assert (Hd := Zdigits2_nonneg mr).
  destruct mr_nonneg as (H0 & H1 & _).
  destruct (Z.eq_dec mr 0) as [E|]; [rewrite E in *; cbn in *; lia|].
  lia.
Qed.

Lemma m2_mul : 0 <= m2 /\ m2 * 2 ^ n2 <= mr.
Proof.
  destruct n2_cases as (Hn & _). destruct mr_nonneg as (H0 & H1 & _).
  assert (Hp : 0 < 2 ^ n2) by (apply Z.pow_pos_nonneg; lia).
  unfold m2. split.
  - apply Z.div_pos; lia.
  - rewrite Z.mul_comm. apply Z.mul_div_le. exact Hp.
Qed.

Lemma normal_big : - 1074 < e2 -> 2 ^ 52 <= m2.
Proof.
  intros He2.
  destruct n2_cases as (Hn & [Hz | (Hmr & Hn2 & Hd)]).
  - unfold m2. rewrite Hz, Z.pow_0_r, Z.div_1_r.
    unfold e2 in He2. rewrite Hz, Z.add_0_r in He2.
    destruct e1_cases as (_ & [E | (Hpos & E & Hd)]); [lia|].
    destruct mr_nonneg as (_ & H1 & _).
    assert (2 ^ 52 <= m1'); [|lia].
    unfold m1'. replace (e1 - ex) with (Zdigits2 mx - 53) by lia.
    apply div_pow2_ge; [assumption|].
    apply Zdigits2_bounds; assumption.
  - unfold m2. rewrite Hn2. apply div_pow2_ge; [lia|].
    apply Zdigits2_bounds; assumption.
Qed.

Lemma m2_small : m2 < 2 ^ 53.
Proof.
  destruct n2_cases as (Hn & [Hz | (Hmr & Hn2 & Hd)]).
  - unfold m2. rewrite Hz, Z.pow_0_r, Z.div_1_r.
    fold n2 in Hz.
    destruct mr_nonneg as (H0 & H1 & _).
    destruct (Z.eq_dec mr 0) as [->|Hne]; [reflexivity|].
    assert (Hb := Zdigits2_bounds mr ltac:(lia)).
    assert (He := proj1 e1_cases).
    assert (Zdigits2 mr <= 53).
    { unfold n2 in Hz. rewrite fexp64_eq in Hz. lia. }
    assert (2 ^ Zdigits2 mr <= 2 ^ 53) by (apply Z.pow_le_mono_r; lia).
    lia.
  - unfold m2. rewrite Hn2. apply div_pow2_lt; [lia|].
    apply Zdigits2_bounds; assumption.
Qed.

Lemma m2_lower mlo elo :
  0 < mlo < 2 ^ 53 -> - 1074 <= elo ->
  (F2R mlo elo <= xm * bpow ex)%R ->
  (F2R mlo elo <= F2R m2 e2)%R /\ 0 < m2.
Proof.
  intros Hmlo Helo Hlo.
  destruct e1_cases as (He1 & He1c).
  destruct n2_cases as (Hn2 & _).
  assert (Hdown : (F2R mlo elo <= F2R m2 e2)%R).
  { destruct (Z.le_gt_cases e2 elo) as [Hle|Hgt].
    - rewrite (F2R_change_exp mlo elo e2 Hle). apply F2R_le.
      unfold m2. apply Z.div_le_lower_bound; [apply Z.pow_pos_nonneg; lia|].
      rewrite Z.mul_comm. apply mr_below.
      replace n2 with (e2 - e1) by (unfold e2; lia).
      rewrite <- F2R_change_exp by (unfold e2; lia).
      rewrite <- F2R_change_exp by assumption. exact Hlo.
    - assert (B := normal_big ltac:(lia)).
      assert (B1 : (bpow (52 + e2) <= F2R m2 e2)%R)
        by (apply F2R_ge_bpow; lia).
      assert (B2 : (F2R mlo elo < bpow (53 + elo))%R)
        by (apply F2R_lt_bpow; lia).
      assert (B3 : (bpow (53 + elo) <= bpow (52 + e2))%R)
        by (apply bpow_le; lia).
      lra. }
  split; [exact Hdown|].
  assert (Hlo0 : (0 < F2R mlo elo)%R).
  { unfold F2R. apply Rmult_lt_0_compat; [apply IZR_lt; lia|apply bpow_pos]. }
  destruct m2_mul as (Hm2 & _).
  destruct (Z.eq_dec m2 0) as [E|]; [|lia].
  rewrite E in Hdown. unfold F2R at 2 in Hdown. lra.
Qed.

Lemma m2_fits : 0 < m2 -> fits m2 e2.
Proof.
  intros Hpos.
  destruct e1_cases as (He1 & _). destruct n2_cases as (Hn2 & _).
  repeat split; try lia.
  - apply m2_small.
  - destruct (Z.eq_dec e2 (- 1074)) as [|Hne]; [left; assumption|right].
    apply normal_big. unfold e2 in *. lia.
Qed.

(** Rounding a value that is at least a representable number gives a
    finite number that is at least that number, or overflows. *)
Theorem round_aux_lower mlo elo :
  0 < mlo < 2 ^ 53 -> - 1074 <= elo ->
  (F2R mlo elo <= xm * bpow ex)%R ->
  binary_round_aux Num.prec Num.emax s mx ex lx = S754_infinity s
  \/ exists m e,
       binary_round_aux Num.prec Num.emax s mx ex lx = S754_finite s m e
       /\ bounded Num.prec Num.emax m e = true
       /\ (F2R mlo elo <= F2R (Zpos m) e)%R.
Proof.
  intros Hmlo Helo Hlo.
  destruct (m2_lower mlo elo Hmlo Helo Hlo) as [Hdown Hpos].
  assert (Hf := m2_fits Hpos).
  rewrite stage2.
  destruct m2 as [|p|p] eqn:Em2; try lia.
  destruct (Z.leb_spec e2 971) as [He2|He2]; [right|left; reflexivity].
  exists p, e2. split; [reflexivity|]. split; [|exact Hdown].
  unfold bounded. apply andb_true_iff. split.
  - apply fits_canonical. exact Hf.
  - apply Z.leb_le. exact He2.
Qed.

(** Rounding a value that lies between two representable numbers gives a
    finite number between them. *)
Theorem round_aux_interval mlo elo mhi ehi :
  0 < mlo < 2 ^ 53 -> - 1074 <= elo ->
  0 < mhi < 2 ^ 53 -> - 1074 <= ehi <= 971 ->
  (F2R mlo elo <= xm * bpow ex <= F2R mhi ehi)%R ->
  exists m e,
    binary_round_aux Num.prec Num.emax s mx ex lx = S754_finite s m e
    /\ bounded Num.prec Num.emax m e = true
    /\ (F2R mlo elo <= F2R (Zpos m) e <= F2R mhi ehi)%R.
Proof.
  intros Hmlo Helo Hmhi Hehi [Hlo Hhi].
  destruct e1_cases as (He1 & He1c).
  destruct n2_cases as (Hn2 & _).
  destruct m2_mul as (Hm2 & Hm2mul).
  assert (Hxm : (IZR mx <= xm)%R) by (apply loc_ok_range in Hloc; lra).
  (* upper bound on the rounded mantissa *)
  assert (Hup : (F2R mr e1 <= F2R mhi ehi)%R).
  { destruct (Z.le_gt_cases e1 ehi) as [Hle|Hgt].
    - rewrite (F2R_change_exp mhi ehi e1 Hle). apply F2R_le, mr_above.
      rewrite <- F2R_change_exp by assumption. exact Hhi.
    - exfalso.
      destruct He1c as [E | (Hpos & E & Hd)]; [lia|].
      assert (B : (bpow (Zdigits2 mx - 1 + ex) <= F2R mx ex)%R).
      { apply F2R_ge_bpow; [lia|]. apply Zdigits2_bounds; assumption. }
      assert (B2 : (F2R mhi ehi < bpow (53 + ehi))%R)
        by (apply F2R_lt_bpow; lia).
      assert (B3 : (bpow (53 + ehi) <= bpow (Zdigits2 mx - 1 + ex))%R)
        by (apply bpow_le; lia).
      assert (B4 : (F2R mx ex <= xm * bpow ex)%R).
      { unfold F2R. apply Rmult_le_compat_r; [apply Rlt_le, bpow_pos|exact Hxm]. }
      lra. }
  assert (Hval : (F2R m2 e2 <= F2R mr e1)%R).
  { unfold e2. rewrite (F2R_change_exp m2 (e1 + n2) e1) by lia.
    replace (e1 + n2 - e1) with n2 by lia. apply F2R_le, Hm2mul. }
  destruct (round_aux_lower mlo elo Hmlo Helo Hlo)
    as [Einf | (m & e & E & B & V)].
  - (* overflow is excluded by the upper bound *)
    exfalso. rewrite stage2 in Einf.
    destruct (m2_lower mlo elo Hmlo Helo Hlo) as [_ Hpos].
    destruct m2 as [|p|p] eqn:Em2; try lia.
    destruct (Z.leb_spec e2 971) as [He2|He2]; [discriminate|].
    assert (Bn := normal_big ltac:(lia)).
    assert (B1 : (bpow (52 + e2) <= F2R (Zpos p) e2)%R)
      by (apply F2R_ge_bpow; lia).
    assert (B2 : (F2R mhi ehi < bpow (53 + ehi))%R)
      by (apply F2R_lt_bpow; lia).
    assert (B3 : (bpow (53 + ehi) <= bpow (52 + e2))%R)
      by (apply bpow_le; lia).
    lra.
  - exists m, e. split; [exact E|]. split; [exact B|]. split; [exact V|].
    rewrite stage2 in E.
    destruct m2 as [|p|p] eqn:Em2; try discriminate.
    destruct (e2 <=? 971); [|discriminate].
    injection E as <- <-. lra.
Qed.

End RoundAux.

(** ** Representable values and well-formed positive numbers *)

Lemma bounded_fits m e :
  bounded Num.prec Num.emax m e = true -> fits (Zpos m) e /\ e <= 971.
Proof.
  unfold bounded. intros H. apply andb_true_iff in H. destruct H as [H1 H2].
  split; [apply canonical_fits, H1|]. apply Z.leb_le in H2. exact H2.
Qed.

Lemma good_repr x : good x -> repr (SF2R x).
Proof.
  destruct x as [?|?| |[|] m e]; cbn; try tauto.
  intros H. apply bounded_fits in H. destruct H as ((Hm & He & _) & He2).
  exists (Zpos m), e. repeat split; try lia.
Qed.

Lemma good_pos x : good x -> (0 < SF2R x)%R.
Proof.
  destruct x as [?|?| |[|] m e]; cbn; try tauto.
  intros _. unfold F2R. apply Rmult_lt_0_compat; [apply IZR_lt; lia|apply bpow_pos].
Qed.

Lemma repr_IZR z : 0 < z < 2 ^ 53 -> repr (IZR z).
Proof.
  intros H. exists z, 0. repeat split; try lia.
  unfold F2R. rewrite bpow_0. ring.
Qed.

(** The interval theorem, for a result of positive sign. *)
Lemma round_aux_good mx ex lx xm lo hi :
  0 <= mx -> loc_ok mx lx xm -> ex <= fexp64 (Zdigits2 mx + ex) ->
  repr lo -> repr hi -> (lo <= xm * bpow ex <= hi)%R ->
  good (binary_round_aux Num.prec Num.emax false mx ex lx)
  /\ (lo <= SF2R (binary_round_aux Num.prec Num.emax false mx ex lx) <= hi)%R.
Proof.
  intros Hmx Hloc Hlong (mlo & elo & Hmlo & Helo & ->) (mhi & ehi & Hmhi & Hehi & ->) Hv.
  destruct (round_aux_interval false mx ex lx xm Hmx Hloc Hlong mlo elo mhi ehi)
    as (m & e & E & B & V); try assumption; try lia.
  rewrite E. cbn. split; assumption.
Qed.

(** ** [binary_round] and [binary_normalize] *)

Lemma iter_xO m d : Zpos (Pos.iter xO m d) = Zpos m * 2 ^ Zpos d.
Proof.
  induction d as [|d IH] using Pos.peano_ind.
  - cbn. lia.
  - rewrite Pos.iter_succ, Pos2Z.inj_succ, Z.pow_succ_r by lia.
    change (Zpos (Pos.iter xO m d)~0) with (2 * Zpos (Pos.iter xO m d)).
    rewrite IH. ring.
Qed.

Lemma shl_align_spec mx ex ex' :
  let p := shl_align mx ex ex' in
  snd p = Z.min ex ex' /\ Zpos (fst p) = Zpos mx * 2 ^ (ex - snd p).
Proof.
  unfold shl_align. destruct (ex' - ex) as [|d|d] eqn:E; cbn [fst snd].
  - split; [lia|]. rewrite Z.sub_diag. cbn. lia.
  - split; [lia|]. rewrite Z.sub_diag. cbn. lia.
  - split; [lia|]. rewrite iter_xO. f_equal. f_equal. lia.
Qed.

Lemma Zdigits2_shift m k :
  0 < m -> 0 <= k -> Zdigits2 (m * 2 ^ k) = Zdigits2 m + k.
Proof.
  intros Hm Hk.
  assert (Hp : 0 < 2 ^ k) by (apply Z.pow_pos_nonneg; lia).
  destruct (Zdigits2_bounds m Hm) as [B1 B2].
  assert (Hd : 0 < Zdigits2 m) by (destruct m; cbn in *; lia).
  apply Zdigits2_unique; [nia|].
  replace (Zdigits2 m + k - 1) with (Zdigits2 m - 1 + k) by lia.
  rewrite !Z.pow_add_r by lia. nia.
Qed.

Lemma binary_round_good m e lo hi :
  repr lo -> repr hi -> (lo <= F2R (Zpos m) e <= hi)%R ->
  good (binary_round Num.prec Num.emax false m e)
  /\ (lo <= SF2R (binary_round Num.prec Num.emax false m e) <= hi)%R.
Proof.
  intros Hlo Hhi Hv. unfold binary_round.
  destruct (shl_align_spec m e (fexp Num.prec Num.emax (Zpos (digits2_pos m) + e)))
    as [A B].
  destruct (shl_align m e _) as [mz ez]. cbn [fst snd] in A, B.
  change (fexp Num.prec Num.emax (Zpos (digits2_pos m) + e))
    with (fexp64 (Zdigits2 (Zpos m) + e)) in A.
  apply round_aux_good with (xm := IZR (Zpos mz)); try assumption.
  - lia.
  - reflexivity.
  - rewrite B, Zdigits2_shift by lia.
    replace (Zdigits2 (Zpos m) + (e - ez) + ez) with (Zdigits2 (Zpos m) + e) by lia.
    lia.
  - change (IZR (Zpos mz) * bpow ez)%R with (F2R (Zpos mz) ez).
    rewrite B, <- F2R_change_exp by lia. exact Hv.
Qed.

Lemma binary_normalize_good z e sz lo hi :
  0 < z -> repr lo -> repr hi -> (lo <= F2R z e <= hi)%R ->
  good (binary_normalize Num.prec Num.emax z e sz)
  /\ (lo <= SF2R (binary_normalize Num.prec Num.emax z e sz) <= hi)%R.
Proof.
  intros Hz. destruct z as [|p|p]; try lia. cbn [binary_normalize].
  apply binary_round_good.
Qed.

Lemma of_Z_good z lo hi :
  0 < z -> repr lo -> repr hi -> (lo <= IZR z <= hi)%R ->
  good (Num.of_Z z) /\ (lo <= SF2R (Num.of_Z z) <= hi)%R.
Proof.
  intros Hz Hlo Hhi Hv. apply binary_normalize_good; try assumption.
  unfold F2R. rewrite bpow_0, Rmult_1_r. exact Hv.
Qed.

Lemma of_Z_exact z :
  0 < z < 2 ^ 53 -> good (Num.of_Z z) /\ SF2R (Num.of_Z z) = IZR z.
Proof.
  intros Hz.
  destruct (of_Z_good z (IZR z) (IZR z)) as [G V];
    try (apply repr_IZR; assumption); try lia; try lra.
  split; [assumption|lra].
Qed.

(** ** Multiplication *)

Lemma good_inv x :
  good x -> exists m e, x = S754_finite false m e /\ fits (Zpos m) e /\ e <= 971.
Proof.
  destruct x as [?|?| |[|] m e]; cbn; try tauto.
  intros H. exists m, e. split; [reflexivity|]. apply bounded_fits, H.
Qed.

Lemma Zdigits2_ge m p : 0 <= p -> 2 ^ p <= m -> p < Zdigits2 m.
Proof.
  intros Hp H.
  assert (Hm : 0 < m) by (assert (0 < 2 ^ p) by (apply Z.pow_pos_nonneg; lia); lia).
  destruct (Zdigits2_bounds m Hm) as [_ B].
  destruct (Z.lt_ge_cases p (Zdigits2 m)) as [|Hge]; [assumption|exfalso].
  assert (2 ^ Zdigits2 m <= 2 ^ p)
    by (apply Z.pow_le_mono_r; [lia|assumption]).
  lia.
Qed.

Theorem mul_good x y lo hi :
  good x -> good y -> repr lo -> repr hi ->
  (lo <= SF2R x * SF2R y <= hi)%R ->
  good (Num.mul x y) /\ (lo <= SF2R (Num.mul x y) <= hi)%R.
Proof.
  intros Gx Gy Hlo Hhi Hv.
  destruct (good_inv x Gx) as (mx & ex & -> & (Hmx & Hex & Hnx) & _).
  destruct (good_inv y Gy) as (my & ey & -> & (Hmy & Hey & Hny) & _).
  cbn [Num.mul SFmul xorb]. unfold Num.mul. cbn [SFmul xorb].
  apply round_aux_good with (xm := IZR (Zpos (mx * my))); try assumption.
  - lia.
  - reflexivity.
  - rewrite fexp64_eq.
    assert (Hd := Zdigits2_nonneg (Zpos (mx * my))).
    destruct Hnx as [Ex|Bx].
    + destruct Hny as [Ey|By]; [lia|].
      assert (52 < Zdigits2 (Zpos (mx * my))); [|lia].
      apply Zdigits2_ge; [lia|]. rewrite Pos2Z.inj_mul. nia.
    + assert (52 < Zdigits2 (Zpos (mx * my))); [|lia].
      apply Zdigits2_ge; [lia|]. rewrite Pos2Z.inj_mul. nia.
  - cbn [SF2R cond_Zopp] in Hv. unfold F2R in *.
    rewrite Pos2Z.inj_mul, mult_IZR, bpow_add.
    replace (IZR (Zpos mx) * IZR (Zpos my) * (bpow ex * bpow ey))%R
      with (IZR (Zpos mx) * bpow ex * (IZR (Zpos my) * bpow ey))%R by ring.
    exact Hv.
Qed.

(** ** Division *)

Lemma new_location_ok nb k q :
  0 < nb -> 0 <= k < nb ->
  loc_ok q (new_location nb k) (IZR q + IZR k / IZR nb).
Proof.
  intros Hnb Hk.
  assert (Rnb : (0 < IZR nb)%R) by (apply IZR_lt; lia).
  set (y := (IZR k / IZR nb)%R).
  assert (Hy : (y * IZR nb = IZR k)%R) by (unfold y; field; lra).
  assert (Hk0 : (0 <= IZR k)%R) by (apply IZR_le; lia).
  assert (Hk1 : (IZR k < IZR nb)%R) by (apply IZR_lt; lia).
  unfold new_location.
  destruct (Z.even nb) eqn:Ev.
  - unfold new_location_even.
    destruct (Z.eqb_spec k 0) as [->|Hne].
    + cbn. assert (y = 0)%R by nra. lra.
    + assert (0 < IZR k)%R by (apply IZR_lt; lia).
      destruct (Z.compare_spec (2 * k) nb) as [E|L|G]; cbn.
      * assert (2 * IZR k = IZR nb)%R
          by (rewrite <- E, mult_IZR; reflexivity). nra.
      * assert (2 * IZR k < IZR nb)%R
          by (apply IZR_lt in L; rewrite mult_IZR in L; exact L). nra.
      * assert (IZR nb < 2 * IZR k)%R
          by (apply IZR_lt in G; rewrite mult_IZR in G; exact G). nra.
  - unfold new_location_odd.
    destruct (Z.eqb_spec k 0) as [->|Hne].
    + cbn. assert (y = 0)%R by nra. lra.
    + assert (0 < IZR k)%R by (apply IZR_lt; lia).
      assert (Hodd : nb <> 2 * k).
      { intros E. rewrite E, Z.even_mul in Ev. cbn in Ev. discriminate. }
      destruct (Z.compare_spec (2 * k + 1) nb) as [E|L|G]; cbn.
      * assert (2 * k < nb) by lia.
        assert (2 * IZR k < IZR nb)%R
          by (apply IZR_lt in H0; rewrite mult_IZR in H0; exact H0). nra.
      * assert (2 * k < nb) by lia.
        assert (2 * IZR k < IZR nb)%R
          by (apply IZR_lt in H0; rewrite mult_IZR in H0; exact H0). nra.
      * assert (nb < 2 * k) by lia.
        assert (IZR nb < 2 * IZR k)%R
          by (apply IZR_lt in H0; rewrite mult_IZR in H0; exact H0). nra.
Qed.

Lemma shift_match m s :
  0 <= s ->
  match s with
  | Zpos _ => Z.shiftl m s
  | Z0 => m
  | Zneg _ => 0
  end = m * 2 ^ s.
Proof.
  intros Hs. destruct s as [|p|p]; try lia.
  rewrite Z.shiftl_mul_pow2 by lia. reflexivity.
Qed.

Section DivCore.

Variables (m1 m2 : positive) (e1 e2 : Z).

Let d1 := Zdigits2 (Zpos m1).
Let d2 := Zdigits2 (Zpos m2).
Let e' := Z.min (fexp64 (d1 + e1 - (d2 + e2))) (e1 - e2).
Let sh := e1 - e2 - e'.
Let q := (Zpos m1 * 2 ^ sh) / Zpos m2.
Let r := (Zpos m1 * 2 ^ sh) mod Zpos m2.

Lemma div_core_eq :
  SFdiv_core_binary Num.prec Num.emax (Zpos m1) e1 (Zpos m2) e2
  = (q, e', new_location (Zpos m2) r).
Proof.
  unfold SFdiv_core_binary.
  change (fexp Num.prec Num.emax) with fexp64.
  fold d1 d2. fold e'. fold sh.
  assert (Hs : 0 <= sh) by (unfold sh, e'; lia).
  rewrite (shift_match (Zpos m1) sh Hs). unfold q, r, Z.div, Z.modulo.
  destruct (Z.div_eucl (Zpos m1 * 2 ^ sh) (Zpos m2)) as [q0 r0].
  reflexivity.
Qed.

Lemma div_core_ok :
  0 <= q
  /\ loc_ok q (new_location (Zpos m2) r) (IZR q + IZR r / IZR (Zpos m2))
  /\ ((IZR q + IZR r / IZR (Zpos m2)) * bpow e'
      = F2R (Zpos m1) e1 / F2R (Zpos m2) e2)%R
  /\ e' <= fexp64 (Zdigits2 q + e').
Proof.
  assert (Hs : 0 <= sh) by (unfold sh, e'; lia).
  assert (Hp : 0 < 2 ^ sh) by (apply Z.pow_pos_nonneg; lia).
  assert (Hr : 0 <= r < Zpos m2) by (unfold r; apply Z.mod_pos_bound; lia).
  assert (Hq : 0 <= q) by (unfold q; apply Z.div_pos; lia).
  assert (Hdm : Zpos m1 * 2 ^ sh = Zpos m2 * q + r)
    by (unfold q, r; apply Z.div_mod; lia).
  split; [exact Hq|]. split; [apply new_location_ok; lia|]. split.
  - assert (R2 : (0 < IZR (Zpos m2))%R) by (apply IZR_lt; lia).
    assert (Hb1 := bpow_pos e'). assert (Hb2 := bpow_pos e2).
    assert (E : (IZR q + IZR r / IZR (Zpos m2)
                 = IZR (Zpos m1) * bpow sh / IZR (Zpos m2))%R).
    { rewrite (bpow_IZR sh Hs), <- mult_IZR, Hdm, plus_IZR, mult_IZR.
      field. lra. }
    assert (Hb : bpow e1 = (bpow sh * bpow e' * bpow e2)%R).
    { rewrite <- !bpow_add. f_equal. unfold sh. lia. }
    rewrite E. unfold F2R. rewrite Hb. field. lra.
  - assert (Hdq : d1 - d2 + sh <= Zdigits2 q).
    { assert (Hz := Zdigits2_nonneg q).
      destruct (Z.le_gt_cases (d1 - d2 + sh) 0) as [|Hgt]; [lia|].
      assert (d1 - d2 + sh - 1 < Zdigits2 q); [|lia].
      apply Zdigits2_ge; [lia|].
      unfold q. apply Z.div_le_lower_bound; [lia|].
      destruct (Zdigits2_bounds (Zpos m1) ltac:(lia)) as [B1 _].
      destruct (Zdigits2_bounds (Zpos m2) ltac:(lia)) as [_ B2].
      fold d1 in B1. fold d2 in B2.
      assert (Hd2 : 0 < d2) by (unfold d2; cbn; lia).
      assert (Hd1 : 0 < d1) by (unfold d1; cbn; lia).
      assert (E : 2 ^ (d1 - 1) * 2 ^ sh = 2 ^ d2 * 2 ^ (d1 - d2 + sh - 1)).
      { rewrite <- !Z.pow_add_r by lia. f_equal. lia. }
      assert (0 < 2 ^ (d1 - d2 + sh - 1)) by (apply Z.pow_pos_nonneg; lia).
      nia. }
    unfold e' at 1. rewrite !fexp64_eq.
    unfold sh in Hdq. lia.
Qed.

End DivCore.

Lemma div_finite_eq sx mx ex sy my ey :
  Num.div (S754_finite sx mx ex) (S754_finite sy my ey)
  = let '(mz, ez, lz) :=
      SFdiv_core_binary Num.prec Num.emax (Zpos mx) ex (Zpos my) ey in
    binary_round_aux Num.prec Num.emax (xorb sx sy) mz ez lz.
Proof. reflexivity. Qed.

(** Division of two positive mantissas of any length. *)
Theorem div_pos_good mx ex my ey lo hi :
  repr lo -> repr hi ->
  (lo <= F2R (Zpos mx) ex / F2R (Zpos my) ey <= hi)%R ->
  good (Num.div (S754_finite false mx ex) (S754_finite false my ey))
  /\ (lo <= SF2R (Num.div (S754_finite false mx ex) (S754_finite false my ey))
      <= hi)%R.
Proof.
  intros Hlo Hhi Hv.
  rewrite div_finite_eq, div_core_eq. cbn [xorb].
  destruct (div_core_ok mx my ex ey) as (Hq & L & V & Hlong).
  eapply round_aux_good; try eassumption.
  rewrite V. exact Hv.
Qed.

Theorem div_good x y lo hi :
  good x -> good y -> repr lo -> repr hi ->
  (lo <= SF2R x / SF2R y <= hi)%R ->
  good (Num.div x y) /\ (lo <= SF2R (Num.div x y) <= hi)%R.
Proof.
  intros Gx Gy Hlo Hhi Hv.
  destruct (good_inv x Gx) as (mx & ex & -> & _).
  destruct (good_inv y Gy) as (my & ey & -> & _).
  apply div_pos_good; assumption.
Qed.

Theorem of_ratio_good n d lo hi :
  repr lo -> repr hi -> (lo <= IZR (Zpos n) / IZR (Zpos d) <= hi)%R ->
  good (Num.of_ratio n d) /\ (lo <= SF2R (Num.of_ratio n d) <= hi)%R.
Proof.
  intros Hlo Hhi Hv. unfold Num.of_ratio. apply div_pos_good; try assumption.
  unfold F2R. rewrite bpow_0, !Rmult_1_r. exact Hv.
Qed.

(** ** Conversion of large integers: finite or overflow *)

Lemma of_Z_lower z lo :
  0 < z -> repr lo -> (lo <= IZR z)%R ->
  Num.of_Z z = S754_infinity false
  \/ (good (Num.of_Z z) /\ (lo <= SF2R (Num.of_Z z))%R).
Proof.
  intros Hz (mlo & elo & Hmlo & Helo & ->) Hv.
  destruct z as [|m|m]; try lia.
  unfold Num.of_Z. cbn [binary_normalize]. unfold binary_round.
  destruct (shl_align_spec m 0 (fexp Num.prec Num.emax (Zpos (digits2_pos m) + 0)))
    as [A B].
  destruct (shl_align m 0 _) as [mz ez]. cbn [fst snd] in A, B.
  change (fexp Num.prec Num.emax (Zpos (digits2_pos m) + 0))
    with (fexp64 (Zdigits2 (Zpos m) + 0)) in A.
  destruct (round_aux_lower false (Zpos mz) ez loc_Exact (IZR (Zpos mz)))
    with (mlo := mlo) (elo := elo) as [E | (m' & e' & E & Bd & V)];
    try lia; try reflexivity.
  - rewrite B, Zdigits2_shift by lia.
    replace (Zdigits2 (Zpos m) + (0 - ez) + ez) with (Zdigits2 (Zpos m) + 0) by lia.
    lia.
  - change (IZR (Zpos mz) * bpow ez)%R with (F2R (Zpos mz) ez).
    rewrite B, <- F2R_change_exp by lia.
    unfold F2R at 2. rewrite bpow_0, Rmult_1_r. exact Hv.
  - left. exact E.
  - right. rewrite E. cbn. split; assumption.
Qed.

(** ** Order and equality of well-formed numbers *)

Lemma repr_pos v : repr v -> (0 < v)%R.
Proof.
  intros (m & e & Hm & _ & ->). unfold F2R.
  apply Rmult_lt_0_compat; [apply IZR_lt; lia|apply bpow_pos].
Qed.

Lemma fits_exp_lt m1 e1 m2 e2 :
  fits m1 e1 -> fits m2 e2 -> e1 < e2 -> (F2R m1 e1 < F2R m2 e2)%R.
Proof.
  intros (Hm1 & He1 & _) (Hm2 & He2 & Hn2) Hlt.
  destruct Hn2 as [E|B]; [lia|].
  assert (B1 : (bpow (52 + e2) <= F2R m2 e2)%R) by (apply F2R_ge_bpow; lia).
  assert (B2 : (F2R m1 e1 < bpow (53 + e1))%R) by (apply F2R_lt_bpow; lia).
  assert (B3 : (bpow (53 + e1) <= bpow (52 + e2))%R) by (apply bpow_le; lia).
  lra.
Qed.

Lemma F2R_lt m1 m2 e : m1 < m2 -> (F2R m1 e < F2R m2 e)%R.
Proof.
  intros H. unfold F2R. apply Rmult_lt_compat_r; [apply bpow_pos|apply IZR_lt, H].
Qed.

Lemma good_compare x y :
  good x -> good y ->
  (SFcompare x y = Some Lt /\ (SF2R x < SF2R y)%R)
  \/ (SFcompare x y = Some Eq /\ SF2R x = SF2R y)
  \/ (SFcompare x y = Some Gt /\ (SF2R y < SF2R x)%R).
Proof.
  intros Gx Gy.
  destruct (good_inv x Gx) as (mx & ex & -> & Fx & _).
  destruct (good_inv y Gy) as (my & ey & -> & Fy & _).
  cbn [SFcompare SF2R cond_Zopp].
  destruct (Z.compare_spec ex ey) as [E|L|G].
  - subst ey. change (Pos.compare_cont Eq mx my) with (Pos.compare mx my).
    destruct (Pos.compare_spec mx my) as [E|L|G].
    + right; left. rewrite E. split; reflexivity.
    + left. split; [reflexivity|apply F2R_lt; lia].
    + right; right. split; [reflexivity|apply F2R_lt; lia].
  - left. split; [reflexivity|apply fits_exp_lt; assumption].
  - right; right. split; [reflexivity|apply fits_exp_lt; assumption].
Qed.

Lemma good_ltb x y :
  good x -> good y -> (SFltb x y = true <-> (SF2R x < SF2R y)%R).
Proof.
  intros Gx Gy. unfold SFltb.
  destruct (good_compare x y Gx Gy) as [[-> H]|[[-> H]|[-> H]]];
    split; intros; try lra; try discriminate; reflexivity.
Qed.

Lemma good_leb x y :
  good x -> good y -> (SFleb x y = true <-> (SF2R x <= SF2R y)%R).
Proof.
  intros Gx Gy. unfold SFleb.
  destruct (good_compare x y Gx Gy) as [[-> H]|[[-> H]|[-> H]]];
    split; intros; try lra; try discriminate; reflexivity.
Qed.

Lemma good_unique x y : good x -> good y -> SF2R x = SF2R y -> x = y.
Proof.
  intros Gx Gy E.
  destruct (good_inv x Gx) as (mx & ex & -> & Fx & _).
  destruct (good_inv y Gy) as (my & ey & -> & Fy & _).
  cbn [SF2R cond_Zopp] in E.
  destruct (Z.lt_trichotomy ex ey) as [L|[Ee|G]].
  - assert (H := fits_exp_lt _ _ _ _ Fx Fy L). lra.
  - subst ey. f_equal.
    assert (Zpos mx <= Zpos my) by (apply F2R_le_inv with ex; lra).
    assert (Zpos my <= Zpos mx) by (apply F2R_le_inv with ex; lra).
    lia.
  - assert (H := fits_exp_lt _ _ _ _ Fy Fx G). lra.
Qed.

(** ** Subtraction with a positive result *)

Theorem sub_good x y lo hi :
  good x -> good y -> repr lo -> repr hi ->
  (lo <= SF2R x - SF2R y <= hi)%R ->
  good (Num.sub x y) /\ (lo <= SF2R (Num.sub x y) <= hi)%R.
Proof.
  intros Gx Gy Hlo Hhi Hv.
  destruct (good_inv x Gx) as (mx & ex & -> & _).
  destruct (good_inv y Gy) as (my & ey & -> & _).
  unfold Num.sub. cbn [SFsub cond_Zopp SF2R] in *.
  set (ez := Z.min ex ey).
  destruct (shl_align_spec mx ex ez) as [A1 B1].
  destruct (shl_align_spec my ey ez) as [A2 B2].
  cbv zeta in A1, B1, A2, B2.
  rewrite B1, B2, A1, A2.
  replace (Z.min ex ez) with ez by (unfold ez; lia).
  replace (Z.min ey ez) with ez by (unfold ez; lia).
  assert (E : F2R (Zpos mx * 2 ^ (ex - ez) - Zpos my * 2 ^ (ey - ez)) ez
              = (F2R (Zpos mx) ex - F2R (Zpos my) ey)%R).
  { rewrite (F2R_change_exp (Zpos mx) ex ez) by (unfold ez; lia).
    rewrite (F2R_change_exp (Zpos my) ey ez) by (unfold ez; lia).
    unfold F2R. rewrite minus_IZR. ring. }
  apply binary_normalize_good; try assumption.
  - assert (P := repr_pos lo Hlo).
    assert (0 < F2R (Zpos mx * 2 ^ (ex - ez) - Zpos my * 2 ^ (ey - ez)) ez)%R
      by (rewrite E; lra).
    unfold F2R in H. assert (Hb := bpow_pos ez).
    apply lt_IZR. nra.
  - rewrite E. exact Hv.
Qed.

(** ** [Math.min], [Math.floor] and [Math.round] *)

Lemma min_good a b :
  good a -> good b ->
  good (Num.min a b) /\ SF2R (Num.min a b) = Rmin (SF2R a) (SF2R b).
Proof.
  intros Ga Gb.
  assert (E : Num.min a b = if SFltb b a then b else a).
  { destruct (good_inv a Ga) as (ma & ea & -> & _).
    destruct (good_inv b Gb) as (mb & eb & -> & _). reflexivity. }
  rewrite E.
  destruct (SFltb b a) eqn:L.
  - apply (good_ltb b a Gb Ga) in L. split; [assumption|].
    rewrite Rmin_right; lra.
  - split; [assumption|].
    destruct (Rle_or_lt (SF2R a) (SF2R b)) as [H|H].
    + rewrite Rmin_left; lra.
    + apply (good_ltb b a Gb Ga) in H. congruence.
Qed.

Lemma IZR_as_F2R a e : e <= 0 -> IZR a = F2R (a * 2 ^ (- e)) e.
Proof.
  intros He. replace (- e) with (0 - e) by lia.
  rewrite <- (F2R_change_exp a 0 e) by lia.
  unfold F2R. rewrite bpow_0. ring.
Qed.

Lemma int_le_F2R a m e :
  e <= 0 -> (IZR a <= F2R m e)%R -> a * 2 ^ (- e) <= m.
Proof.
  intros He H. rewrite (IZR_as_F2R a e He) in H. eapply F2R_le_inv, H.
Qed.

Lemma F2R_le_int b m e :
  e <= 0 -> (F2R m e <= IZR b)%R -> m <= b * 2 ^ (- e).
Proof.
  intros He H. rewrite (IZR_as_F2R b e He) in H. eapply F2R_le_inv, H.
Qed.

Lemma floor_good x a b :
  good x -> 0 < a -> b < 2 ^ 53 ->
  (IZR a <= SF2R x <= IZR b)%R ->
  good (Num.floor x) /\ (IZR a <= SF2R (Num.floor x) <= IZR b)%R.
Proof.
  intros Gx Ha Hb Hv.
  destruct (good_inv x Gx) as (m & e & -> & _).
  cbn [Num.floor SF2R cond_Zopp] in *.
  destruct (Z.leb_spec 0 e) as [He|He].
  - split; [exact Gx|exact Hv].
  - assert (Hab : a <= b) by (apply le_IZR; lra).
    assert (Hp : 0 < 2 ^ (- e)) by (apply Z.pow_pos_nonneg; lia).
    rewrite Z.shiftr_div_pow2 by lia.
    assert (H1 : a * 2 ^ (- e) <= Zpos m) by (apply int_le_F2R; [lia|lra]).
    assert (H2 : Zpos m <= b * 2 ^ (- e)) by (apply F2R_le_int; [lia|lra]).
    assert (L : a <= Zpos m / 2 ^ (- e))
      by (apply Z.div_le_lower_bound; lia).
    assert (U : Zpos m / 2 ^ (- e) <= b)
      by (apply Z.div_le_upper_bound; lia).
    apply of_Z_good; try (apply repr_IZR); try lia.
    split; apply IZR_le; assumption.
Qed.

Lemma round_good x a b :
  good x -> 0 < a -> b < 2 ^ 53 ->
  (IZR a <= SF2R x <= IZR b)%R ->
  good (Num.round x) /\ (IZR a <= SF2R (Num.round x) <= IZR b)%R.
Proof.
  intros Gx Ha Hb Hv.
  destruct (good_inv x Gx) as (m & e & -> & _).
  cbn [Num.round SF2R cond_Zopp] in *.
  destruct (Z.leb_spec 0 e) as [He|He].
  - split; [exact Gx|exact Hv].
  - assert (Hab : a <= b) by (apply le_IZR; lra).
    assert (Hp : 0 < 2 ^ (- e)) by (apply Z.pow_pos_nonneg; lia).
    rewrite Z.shiftr_div_pow2 by lia.
    replace (- e + 1) with (Z.succ (- e)) by lia.
    rewrite Z.pow_succ_r by lia.
    assert (H1 : a * 2 ^ (- e) <= Zpos m) by (apply int_le_F2R; [lia|lra]).
    assert (H2 : Zpos m <= b * 2 ^ (- e)) by (apply F2R_le_int; [lia|lra]).
    assert (L : a <= (2 * Zpos m + 2 ^ (- e)) / (2 * 2 ^ (- e)))
      by (apply Z.div_le_lower_bound; lia).
    assert (U : (2 * Zpos m + 2 ^ (- e)) / (2 * 2 ^ (- e)) < b + 1)
      by (apply Z.div_lt_upper_bound; lia).
    apply of_Z_good; try (apply repr_IZR); try lia.
    split; apply IZR_le; lia.
Qed.

(** ** The remainder of two integers *)

Lemma fits_int_exp m e x :
  fits m e -> F2R m e = IZR x -> x < 2 ^ 53 -> e <= 0.
Proof.
  intros (Hm & He & Hn) E Hx.
  destruct (Z.le_gt_cases e 0) as [|Hgt]; [assumption|exfalso].
  destruct Hn as [->|Hn]; [lia|].
  rewrite (F2R_change_exp m e 0) in E by lia.
  unfold F2R in E. rewrite bpow_0, Rmult_1_r in E. apply eq_IZR in E.
  rewrite Z.sub_0_r in E.
  assert (2 ^ 1 <= 2 ^ e) by (apply Z.pow_le_mono_r; lia).
  change (2 ^ 1) with 2 in H. nia.
Qed.

Lemma F2R_int_scaled m e x :
  e <= 0 -> F2R m e = IZR x -> m = x * 2 ^ (- e).
Proof.
  intros He E. rewrite (IZR_as_F2R x e He) in E.
  assert (m <= x * 2 ^ (- e)) by (apply F2R_le_inv with e; lra).
  assert (x * 2 ^ (- e) <= m) by (apply F2R_le_inv with e; lra).
  lia.
Qed.

Lemma of_Z_0 : Num.of_Z 0 = S754_zero false.
Proof. reflexivity. Qed.

Lemma rem_of_Z x d :
  0 <= x < 2 ^ 53 -> 0 < d < 2 ^ 53 ->
  Num.rem (Num.of_Z x) (Num.of_Z d) = Num.of_Z (x mod d).
Proof.
  intros Hx Hd.
  destruct (of_Z_exact d Hd) as [Gd Vd].
  destruct (good_inv _ Gd) as (md & ed & Ed & Fd & _).
  destruct (Z.eq_dec x 0) as [->|Hx0].
  - rewrite Z.mod_0_l by lia. rewrite of_Z_0, Ed. reflexivity.
  - destruct (of_Z_exact x ltac:(lia)) as [Gx Vx].
    destruct (good_inv _ Gx) as (mx & ex & Ex & Fx & _).
    rewrite Ex in Vx. rewrite Ed in Vd. rewrite Ex, Ed.
    cbn [Num.rem cond_Zopp SF2R] in *.
    assert (Hex : ex <= 0) by (eapply fits_int_exp; [exact Fx|exact Vx|lia]).
    assert (Hed : ed <= 0) by (eapply fits_int_exp; [exact Fd|exact Vd|lia]).
    set (e := Z.min ex ed).
    assert (He : e <= 0) by (unfold e; lia).
    assert (Sx : Zpos mx * 2 ^ (ex - e) = x * 2 ^ (- e)).
    { apply F2R_int_scaled; [exact He|].
      rewrite <- F2R_change_exp by (unfold e; lia). exact Vx. }
    assert (Sd : Zpos md * 2 ^ (ed - e) = d * 2 ^ (- e)).
    { apply F2R_int_scaled; [exact He|].
      rewrite <- F2R_change_exp by (unfold e; lia). exact Vd. }
    rewrite Sx, Sd.
    assert (Hp : 0 < 2 ^ (- e)) by (apply Z.pow_pos_nonneg; lia).
    rewrite Z.rem_mod_nonneg by nia.
    rewrite Z.mul_mod_distr_r by lia.
    assert (Hr : 0 <= x mod d < d) by (apply Z.mod_pos_bound; lia).
    destruct (Z.eq_dec (x mod d) 0) as [E0|Hne].
    + rewrite E0. reflexivity.
    + destruct (binary_normalize_good (x mod d * 2 ^ (- e)) e false
                  (IZR (x mod d)) (IZR (x mod d))) as [G1 V1];
        try (apply repr_IZR; lia); try nia.
      { rewrite <- IZR_as_F2R by exact He. lra. }
      destruct (of_Z_exact (x mod d) ltac:(lia)) as [G2 V2].
      apply good_unique; try assumption. lra.
Qed.

Lemma F2R_neg m k : 0 <= k -> F2R m (- k) = (IZR m / IZR (2 ^ k))%R.
Proof.
  intros Hk. unfold F2R. rewrite bpow_opp, bpow_IZR by assumption.
  reflexivity.
Qed.

(** [Math.round] of a number within one half of an integer range. *)
Lemma round_near x a b :
  good x -> 0 < a -> b < 2 ^ 53 ->
  (IZR a - / 2 <= SF2R x < IZR b + / 2)%R ->
  good (Num.round x) /\ (IZR a <= SF2R (Num.round x) <= IZR b)%R.
Proof.
  intros Gx Ha Hb [Hv1 Hv2].
  destruct (good_inv x Gx) as (m & e & -> & _).
  cbn [Num.round SF2R cond_Zopp] in *.
  destruct (Z.leb_spec 0 e) as [He|He].
  - (* an integer already *)
    assert (E : F2R (Zpos m) e = IZR (Zpos m * 2 ^ e)).
    { rewrite (F2R_change_exp (Zpos m) e 0) by lia.
      unfold F2R. rewrite bpow_0, Rmult_1_r, Z.sub_0_r. reflexivity. }
    split; [exact Gx|]. cbn [SF2R cond_Zopp]. rewrite E in *.
    set (N := Zpos m * 2 ^ e) in *.
    assert (L : (IZR (2 * a - 1) <= IZR (2 * N))%R)
      by (rewrite !mult_IZR, minus_IZR, mult_IZR; lra).
    assert (U : (IZR (2 * N) < IZR (2 * b + 1))%R)
      by (rewrite plus_IZR, !mult_IZR; lra).
    apply le_IZR in L. apply lt_IZR in U.
    split; apply IZR_le; lia.
  - assert (Hp : 0 < 2 ^ (- e)) by (apply Z.pow_pos_nonneg; lia).
    assert (Rp : (0 < IZR (2 ^ (- e)))%R) by (apply IZR_lt, Hp).
    assert (E : F2R (Zpos m) e = (IZR (Zpos m) / IZR (2 ^ (- e)))%R).
    { replace e with (- (- e)) at 1 by lia. apply F2R_neg. lia. }
    rewrite E in *.
    assert (Ey : (IZR (Zpos m) / IZR (2 ^ (- e)) * IZR (2 ^ (- e))
                  = IZR (Zpos m))%R) by (field; lra).
    set (y := (IZR (Zpos m) / IZR (2 ^ (- e)))%R) in *.
    assert (L : (IZR ((2 * a - 1) * 2 ^ (- e)) <= IZR (2 * Zpos m))%R).
    { rewrite !mult_IZR, minus_IZR, mult_IZR. nra. }
    assert (U : (IZR (2 * Zpos m) < IZR ((2 * b + 1) * 2 ^ (- e)))%R).
    { rewrite !mult_IZR, plus_IZR, mult_IZR. nra. }
    apply le_IZR in L. apply lt_IZR in U.
    rewrite Z.shiftr_div_pow2 by lia.
    replace (- e + 1) with (Z.succ (- e)) by lia.
    rewrite Z.pow_succ_r by lia.
    assert (Lz : a <= (2 * Zpos m + 2 ^ (- e)) / (2 * 2 ^ (- e)))
      by (apply Z.div_le_lower_bound; lia).
    assert (Uz : (2 * Zpos m + 2 ^ (- e)) / (2 * 2 ^ (- e)) < b + 1)
      by (apply Z.div_lt_upper_bound; lia).
    apply of_Z_good; try (apply repr_IZR); try lia.
    split; apply IZR_le; lia.
Qed.

Lemma SF2R_of_Z z : 0 < z < 2 ^ 53 -> SF2R (Num.of_Z z) = IZR z.
Proof. intros H. apply of_Z_exact, H. Qed.

Lemma good_of_Z z : 0 < z < 2 ^ 53 -> good (Num.of_Z z).
Proof. intros H. apply of_Z_exact, H. Qed.

Lemma leb_zero_good x : good x -> Num.leb (Num.of_Z 0) x = true.
Proof.
  intros G. destruct (good_inv x G) as (m & e & -> & _). reflexivity.
Qed.

(** * Shape of the digest and parsing of its prefixes *)

Lemma hex_digit_lower n : is_hex_lower (Sha256.hex_digit n) = true.
Proof.
  unfold Sha256.hex_digit.
  assert (H : 0 <= n mod 16 < 16) by (apply Z.mod_pos_bound; lia).
  destruct (n mod 16) as [|p|p]; try lia; try reflexivity.
  do 5 (destruct p as [p|p|]; try reflexivity; try lia).
Qed.

Lemma hex_fixed_length k x : List.length (Sha256.hex_fixed k x) = k.
Proof. induction k; cbn; congruence. Qed.

Lemma hex_fixed_lower k x :
  Forall (fun c => is_hex_lower c = true) (Sha256.hex_fixed k x).
Proof.
  induction k; cbn; constructor; auto using hex_digit_lower.
Qed.

Lemma all_hex_of_list l :
  Forall (fun c => is_hex_lower c = true) l ->
  all_hex (string_of_list_ascii l) = true.
Proof.
  induction 1 as [|c l Hc _ IH]; cbn; [reflexivity|].
  rewrite Hc, IH. reflexivity.
Qed.

Lemma length_of_list l :
  String.length (string_of_list_ascii l) = List.length l.
Proof. induction l; cbn; congruence. Qed.

Theorem sha256_length input : String.length (sha256 input) = 64%nat.
Proof.
  unfold sha256, Sha256.hexdigest, Sha256.hex_of_state.
  rewrite length_of_list. cbn [flat_map].
  rewrite !length_app, !hex_fixed_length. reflexivity.
Qed.

Theorem sha256_all_hex input : all_hex (sha256 input) = true.
Proof.
  unfold sha256, Sha256.hexdigest, Sha256.hex_of_state.
  apply all_hex_of_list. cbn [flat_map].
  repeat (apply Forall_app; split); try apply hex_fixed_lower.
  constructor.
Qed.

Lemma slice0_all_hex n : forall s, all_hex s = true -> all_hex (Str.slice0 n s) = true.
Proof.
  induction n as [|n IH]; intros [|c s] H; cbn in *; try reflexivity.
  apply andb_true_iff in H. destruct H as [Hc Hs].
  rewrite Hc, IH by assumption. reflexivity.
Qed.

Lemma slice0_length n : forall s,
  String.length (Str.slice0 n s) = Nat.min n (String.length s).
Proof.
  induction n as [|n IH]; intros [|c s]; cbn; try reflexivity.
  rewrite IH. reflexivity.
Qed.

Lemma hex_char_facts c :
  is_hex_lower c = true ->
  Str.digit_value c = Some (hex_char_value c)
  /\ 0 <= hex_char_value c < 16
  /\ Str.is_space c = false /\ c <> "-"%char /\ c <> "+"%char
  /\ c <> "x"%char /\ c <> "X"%char
  /\ Str.lower_char c = c.
Proof.
  destruct c as [[] [] [] [] [] [] [] []]; intros H; try discriminate H;
    (repeat split; try reflexivity; try discriminate; try (cbn; lia)).
Qed.

Lemma parse_digits_hex s : forall acc,
  all_hex s = true ->
  Str.parse_digits 16 s (Some acc) = Some (hex_value_acc s acc).
Proof.
  induction s as [|c s IH]; intros acc H; cbn in *; [reflexivity|].
  apply andb_true_iff in H. destruct H as [Hc Hs].
  destruct (hex_char_facts c Hc) as (Hd & Hv & _).
  rewrite Hd.
  destruct (Z.ltb_spec (hex_char_value c) 16); [|lia].
  apply IH, Hs.
Qed.

Lemma hex_value_acc_bound s : forall acc,
  all_hex s = true -> 0 <= acc ->
  acc * 16 ^ Z.of_nat (String.length s) <= hex_value_acc s acc
  < (acc + 1) * 16 ^ Z.of_nat (String.length s).
Proof.
  induction s as [|c s IH]; intros acc H Hacc.
  - cbn. lia.
  - cbn [all_hex] in H. apply andb_true_iff in H. destruct H as [Hc Hs].
    destruct (hex_char_facts c Hc) as (_ & Hv & _).
    cbn [hex_value_acc String.length].
    rewrite Nat2Z.inj_succ, Z.pow_succ_r by lia.
    specialize (IH (acc * 16 + hex_char_value c) Hs ltac:(lia)).
    assert (0 < 16 ^ Z.of_nat (String.length s)) by (apply Z.pow_pos_nonneg; lia).
    nia.
Qed.

Theorem hex_value_bound s :
  all_hex s = true -> 0 <= hex_value s < 16 ^ Z.of_nat (String.length s).
Proof.
  intros H. unfold hex_value.
  destruct (hex_value_acc_bound s 0 H ltac:(lia)). lia.
Qed.

(** [parseInt] of a non-empty string of hex digits is its value. *)
Theorem parseInt_hex s :
  all_hex s = true -> s <> EmptyString ->
  Str.parseInt s 16 = Num.of_Z (hex_value s).
Proof.
  intros H Hne. destruct s as [|c s]; [congruence|].
  cbn [all_hex] in H. apply andb_true_iff in H. destruct H as [Hc Hs].
  destruct (hex_char_facts c Hc) as (Hd & Hv & Hsp & Hm & Hp & _).
  unfold Str.parseInt. cbn [Str.trim_start]. rewrite Hsp.
  assert (E1 : match String c s with
               | String "-"%char s' => (true, s')
               | String "+"%char s' => (false, s')
               | _ => (false, String c s)
               end = (false, String c s)).
  { destruct c as [[] [] [] [] [] [] [] []]; try reflexivity; congruence. }
  rewrite E1. cbn [orb Z.ltb Z.compare Z.eqb Pos.compare Pos.compare_cont Pos.eqb].
  assert (E2 : Str.strip_0x (String c s) = String c s).
  { destruct s as [|c2 s]; [destruct c as [[] [] [] [] [] [] [] []]; reflexivity|].
    cbn [all_hex] in Hs. apply andb_true_iff in Hs. destruct Hs as [Hc2 _].
    destruct (hex_char_facts c2 Hc2) as (_ & _ & _ & _ & _ & Hx & HX & _).
    unfold Str.strip_0x.
    destruct c as [[] [] [] [] [] [] [] []]; try reflexivity;
    destruct c2 as [[] [] [] [] [] [] [] []]; try reflexivity; congruence. }
  rewrite E2. cbn [Str.parse_digits]. rewrite Hd.
  destruct (Z.ltb_spec (hex_char_value c) 16); [|lia].
  rewrite parse_digits_hex by assumption.
  unfold hex_value. cbn [hex_value_acc cond_Zopp]. reflexivity.
Qed.

Lemma toLowerCase_hex s : all_hex s = true -> Str.toLowerCase s = s.
Proof.
  induction s as [|c s IH]; cbn; intros H; [reflexivity|].
  apply andb_true_iff in H. destruct H as [Hc Hs].
  destruct (hex_char_facts c Hc) as (_ & _ & _ & _ & _ & _ & _ & Hl).
  rewrite Hl, IH by assumption. reflexivity.
Qed.

(** * Properties of the engine *)

(** ** The arithmetic of the dice derivation *)

Lemma F2R_30 k s :
  F2R (k * 2 ^ 30 + s) (- 30) = (IZR k + IZR s * / IZR (2 ^ 30))%R.
Proof.
  change (- 30) with (- (30)). rewrite F2R_neg by lia.
  rewrite plus_IZR, mult_IZR.
  assert (0 < IZR (2 ^ 30))%R by (apply IZR_lt; lia).
  field. lra.
Qed.

Lemma F2R_40_scale a : (IZR 100 * F2R a (- 40) = F2R (100 * a) (- 40))%R.
Proof. unfold F2R. rewrite mult_IZR. ring. Qed.

(** Dividing a remainder [k] by 100 and rounding to two decimals leaves the
    quotient as it is, and within the range of the game. *)
Lemma dice_step k :
  0 <= k < 10000 ->
  round2 (div (of_Z k) (of_Z 100)) = div (of_Z k) (of_Z 100)
  /\ leb (of_Z 0) (div (of_Z k) (of_Z 100)) = true
  /\ leb (div (of_Z k) (of_Z 100)) (of_ratio 9999 100) = true.
Proof.
  intros Hk.
  destruct (Z.eq_dec k 0) as [->|Hk0].
  { vm_compute. repeat split; reflexivity. }
  assert (P40 : 2 ^ 40 = 1099511627776) by reflexivity.
  assert (P30 : 2 ^ 30 = 1073741824) by reflexivity.
  assert (P53 : 2 ^ 53 = 9007199254740992) by reflexivity.
  set (a := k * 2 ^ 40 / 100).
  assert (Ha1 : 100 * a <= k * 2 ^ 40) by (apply Z.mul_div_le; lia).
  assert (Ha2 : k * 2 ^ 40 < 100 * Z.succ a)
    by (apply Z.mul_succ_div_gt; lia).
  assert (Ha : 0 < a < 2 ^ 53 - 1) by lia.
  (* the quotient, between two neighbours on the grid of 2^-40 *)
  destruct (div_good (of_Z k) (of_Z 100) (F2R a (- 40)) (F2R (a + 1) (- 40)))
    as [Gq Vq].
  { apply good_of_Z; lia. }
  { apply good_of_Z; lia. }
  { exists a, (- 40). repeat split; lia. }
  { exists (a + 1), (- 40). repeat split; lia. }
  { rewrite !SF2R_of_Z by lia.
    assert (E : (IZR k / IZR 100 = F2R (k * 2 ^ 40) (- 40) / IZR 100)%R).
    { change (- 40) with (- (40)). rewrite F2R_neg by lia.
      rewrite mult_IZR. assert (0 < IZR (2 ^ 40))%R by (apply IZR_lt; lia).
      field. lra. }
    rewrite E.
    assert (L := F2R_le (100 * a) (k * 2 ^ 40) (- 40) Ha1).
    assert (U := F2R_le (k * 2 ^ 40) (100 * (a + 1)) (- 40) ltac:(lia)).
    rewrite <- !F2R_40_scale in L, U. lra. }
  set (q := div (of_Z k) (of_Z 100)) in *.
  (* times 100: within 2^-30 of k *)
  destruct (mul_good q (of_Z 100) (F2R (k * 2 ^ 30 + - 1) (- 30))
              (F2R (k * 2 ^ 30 + 1) (- 30))) as [Gt Vt].
  { exact Gq. }
  { apply good_of_Z; lia. }
  { exists (k * 2 ^ 30 + - 1), (- 30). repeat split; lia. }
  { exists (k * 2 ^ 30 + 1), (- 30). repeat split; lia. }
  { rewrite SF2R_of_Z by lia.
    rewrite (F2R_change_exp (k * 2 ^ 30 + - 1) (- 30) (- 40)) by lia.
    rewrite (F2R_change_exp (k * 2 ^ 30 + 1) (- 30) (- 40)) by lia.
    assert (L := F2R_le ((k * 2 ^ 30 + - 1) * 2 ^ (- 30 - - 40)) (100 * a)
                   (- 40) ltac:(change (- 30 - - 40) with 10; lia)).
    assert (U := F2R_le (100 * (a + 1)) ((k * 2 ^ 30 + 1) * 2 ^ (- 30 - - 40))
                   (- 40) ltac:(change (- 30 - - 40) with 10; lia)).
    rewrite <- !F2R_40_scale in L, U. lra. }
  set (t := mul q (of_Z 100)) in *.
  rewrite !F2R_30 in Vt.
  assert (H30 : (0 < / IZR (2 ^ 30) < / 2)%R).
  { rewrite P30. lra. }
  (* the nearest integer is k *)
  destruct (round_near t k k Gt) as [Gr Vr]; try lia.
  { lra. }
  assert (Er : round t = of_Z k).
  { apply good_unique; [exact Gr|apply good_of_Z; lia|].
    rewrite SF2R_of_Z by lia. lra. }
  split; [unfold round2; fold q; fold t; rewrite Er; reflexivity|].
  split; [apply leb_zero_good, Gq|].
  destruct (Z.eq_dec k 9999) as [E|Hne].
  { unfold q. rewrite E. vm_compute. reflexivity. }
  assert (C : 9998 * 2 ^ 40 / 100 + 1 <= 9999 * 2 ^ 40 / 100)
    by (apply Z.leb_le; reflexivity).
  assert (Hak : a <= 9998 * 2 ^ 40 / 100)
    by (apply Z.div_le_mono; lia).
  destruct (of_ratio_good 9999 100 (F2R (9999 * 2 ^ 40 / 100) (- 40))
              (F2R (9999 * 2 ^ 40 / 100 + 1) (- 40))) as [GH VH].
  { exists (9999 * 2 ^ 40 / 100), (- 40). repeat split; try lia;
      apply Z.ltb_lt; reflexivity. }
  { exists (9999 * 2 ^ 40 / 100 + 1), (- 40). repeat split; try lia;
      apply Z.ltb_lt; reflexivity. }
  { assert (E : (IZR 9999 / IZR 100
                 = F2R (9999 * 2 ^ 40) (- 40) / IZR 100)%R).
    { change (- 40) with (- (40)). rewrite F2R_neg by lia.
      rewrite mult_IZR. assert (0 < IZR (2 ^ 40))%R by (apply IZR_lt; lia).
      field. lra. }
    rewrite E.
    assert (L := F2R_le (100 * (9999 * 2 ^ 40 / 100)) (9999 * 2 ^ 40) (- 40)
                   ltac:(apply Z.mul_div_le; lia)).
    assert (U := F2R_le (9999 * 2 ^ 40) (100 * (9999 * 2 ^ 40 / 100 + 1))
                   (- 40)
                   ltac:(apply Z.lt_le_incl, (Z.mul_succ_div_gt (9999 * 2 ^ 40) 100);
                         lia)).
    rewrite <- !F2R_40_scale in L, U. lra. }
  apply good_leb; [exact Gq|exact GH|].
  assert (M := F2R_le (a + 1) (9999 * 2 ^ 40 / 100) (- 40) ltac:(lia)).
  lra.
Qed.

Lemma sha256_is_digest input : is_digest (sha256 input).
Proof. split; [apply sha256_all_hex|apply sha256_length]. Qed.

Lemma prefix_parse n hash :
  is_digest hash -> (0 < n <= 64)%nat ->
  Str.parseInt (Str.slice0 n hash) 16 = of_Z (prefix_value n hash)
  /\ 0 <= prefix_value n hash < 16 ^ Z.of_nat n.
Proof.
  intros [Hhex Hlen] Hn.
  assert (Hh := slice0_all_hex n _ Hhex).
  assert (Hl := slice0_length n hash).
  rewrite Hlen in Hl.
  replace (Nat.min n 64) with n in Hl by lia.
  split.
  - apply parseInt_hex; [exact Hh|].
    intros E. rewrite E in Hl. cbn in Hl. lia.
  - unfold prefix_value. assert (H := hex_value_bound _ Hh).
    rewrite Hl in H. exact H.
Qed.

(** The arithmetic of the dice derivation on a digest. *)
Lemma dice_of_digest hash :
  is_digest hash ->
  div (round (mul (div (rem (Str.parseInt (Str.slice0 8 hash) 16)
                            (of_Z 10000)) (of_Z 100)) (of_Z 100)))
      (of_Z 100)
  = div (of_Z (prefix_value 8 hash mod 10000)) (of_Z 100).
Proof.
  intros Hd.
  destruct (prefix_parse 8 hash Hd ltac:(lia)) as [P B].
  rewrite P.
  assert (B' : 0 <= prefix_value 8 hash < 2 ^ 53).
  { assert (16 ^ Z.of_nat 8 < 2 ^ 53) by reflexivity. lia. }
  rewrite rem_of_Z by (exact B' || lia).
  assert (Hk : 0 <= prefix_value 8 hash mod 10000 < 10000)
    by (apply Z.mod_pos_bound; lia).
  destruct (dice_step _ Hk) as (R & _).
  exact R.
Qed.

(** The dice derivation on an arbitrary hash input. *)
Lemma verifyDice_value serverSeed clientSeed nonce :
  verifyDice serverSeed clientSeed nonce
  = {| computedResult :=
         div (of_Z (prefix_value 8
                      (sha256 (computeHashInput serverSeed clientSeed nonce))
                    mod 10000)) (of_Z 100);
       computationHex := sha256 (computeHashInput serverSeed clientSeed nonce);
       serverSeedHash := sha256 serverSeed |}.
Proof.
  unfold verifyDice.
  rewrite (dice_of_digest _ (sha256_is_digest _)). reflexivity.
Qed.

(** ** The crash derivation, step by step as the specification words it *)

Lemma verifyCrash_value serverSeed clientSeed nonce maxMult :
  verifyCrash serverSeed clientSeed nonce (Some maxMult)
  = {| computedResult :=
         crash_result
           (prefix_value 13
              (sha256 (computeHashInput serverSeed clientSeed nonce)))
           maxMult;
       computationHex := sha256 (computeHashInput serverSeed clientSeed nonce);
       serverSeedHash := sha256 serverSeed |}.
Proof.
  unfold verifyCrash, crash_result, crash_multiplier, round2.
  destruct (prefix_parse 13 _ (sha256_is_digest
              (computeHashInput serverSeed clientSeed nonce)) ltac:(lia))
    as [P _].
  cbv zeta. cbn [or_default]. rewrite P. reflexivity.
Qed.

(** *** Constants *)

Lemma clamp_facts : good clamp /\ (SF2R clamp <= 1 - / IZR (2 ^ 40))%R.
Proof.
  assert (G : good clamp) by (vm_compute; reflexivity).
  split; [exact G|].
  set (b := S754_finite false (2 ^ 53 - 2 ^ 13) (- 53)).
  assert (Gb : good b) by (vm_compute; reflexivity).
  assert (L : SFleb clamp b = true) by (vm_compute; reflexivity).
  apply (good_leb clamp b G Gb) in L.
  assert (Vb : SF2R b = (1 - / IZR (2 ^ 40))%R).
  { unfold b. cbn [SF2R cond_Zopp].
    change (- 53) with (- (53)). rewrite F2R_neg by lia.
    change (Zpos (2 ^ 53 - 2 ^ 13)) with 9007199254732800.
    change (2 ^ 53) with 9007199254740992.
    change (2 ^ 40) with 1099511627776.
    lra. }
  lra.
Qed.

Lemma inv_bounds (t B : R) :
  (0 < B)%R -> (/ B <= t <= 1)%R -> (1 <= 1 / t <= B)%R.
Proof.
  intros HB [H1 H2].
  assert (HiB : (0 < / B)%R) by (apply Rinv_0_lt_compat, HB).
  assert (Ht : (0 < t)%R) by lra.
  assert (Hw : (0 < / t)%R) by (apply Rinv_0_lt_compat, Ht).
  assert (E : (t * / t = 1)%R) by (field; lra).
  assert (EB : (B * / B = 1)%R) by (field; lra).
  unfold Rdiv. rewrite Rmult_1_l. split.
  - nra.
  - assert (1 <= B * t)%R by nra. nra.
Qed.

(** *** Range of the multiplier before the cap *)

Theorem crash_multiplier_range x :
  0 <= x < 2 ^ 52 ->
  good (crash_multiplier x)
  /\ (1 <= SF2R (crash_multiplier x) <= IZR (2 ^ 40))%R.
Proof.
  intros Hx.
  destruct (Z.eq_dec x 0) as [->|Hx0].
  { assert (E : crash_multiplier 0 = of_Z 1) by (vm_compute; reflexivity).
    rewrite E. split; [apply good_of_Z; lia|].
    rewrite SF2R_of_Z by lia. split; [lra|]. apply IZR_le. lia. }
  unfold crash_multiplier. fold clamp.
  change 4503599627370496 with (2 ^ 52).
  destruct clamp_facts as [Gc Vc].
  assert (P40 : (0 < IZR (2 ^ 40))%R) by (apply IZR_lt; lia).
  assert (P52 : (0 < IZR (2 ^ 52))%R) by (apply IZR_lt; lia).
  (* r = x / 2^52 *)
  destruct (div_good (of_Z x) (of_Z (2 ^ 52)) (F2R 1 (- 52)) (F2R (2 ^ 52 - 1) (- 52)))
    as [G0 V0].
  { apply good_of_Z; lia. }
  { apply good_of_Z; lia. }
  { exists 1, (- 52). repeat split; lia. }
  { exists (2 ^ 52 - 1), (- 52). repeat split; lia. }
  { rewrite !SF2R_of_Z by lia. change (- 52) with (- (52)).
    rewrite !F2R_neg by lia.
    assert (IZR 1 <= IZR x <= IZR (2 ^ 52 - 1))%R by (split; apply IZR_le; lia).
    assert (0 < / IZR (2 ^ 52))%R by (apply Rinv_0_lt_compat, P52).
    unfold Rdiv. nra. }
  set (r0 := div (of_Z x) (of_Z (2 ^ 52))) in *.
  assert (P0 : (0 < SF2R r0)%R) by (apply good_pos, G0).
  (* the clamp *)
  destruct (min_good r0 clamp G0 Gc) as [Gr Vr].
  set (r := min r0 clamp) in *.
  assert (Pc : (0 < SF2R clamp)%R) by (apply good_pos, Gc).
  assert (Br : (0 < SF2R r <= 1 - / IZR (2 ^ 40))%R).
  { rewrite Vr. split.
    - apply Rmin_glb_lt; assumption.
    - eapply Rle_trans; [apply Rmin_r|exact Vc]. }
  (* 1 - r *)
  destruct (sub_good (of_Z 1) r (F2R 1 (- 40)) (IZR 1)) as [Gt Vt].
  { apply good_of_Z; lia. }
  { exact Gr. }
  { exists 1, (- 40). repeat split; lia. }
  { apply repr_IZR. lia. }
  { rewrite SF2R_of_Z by lia. change (- 40) with (- (40)).
    rewrite F2R_neg by lia. unfold Rdiv. rewrite Rmult_1_l. lra. }
  set (t := sub (of_Z 1) r) in *.
  change (- 40) with (- (40)) in Vt. rewrite F2R_neg in Vt by lia.
  unfold Rdiv in Vt. rewrite Rmult_1_l in Vt.
  (* 1 / (1 - r) *)
  destruct (div_good (of_Z 1) t (IZR 1) (IZR (2 ^ 40))) as [Gq Vq].
  { apply good_of_Z; lia. }
  { exact Gt. }
  { apply repr_IZR; lia. }
  { apply repr_IZR; lia. }
  { rewrite SF2R_of_Z by lia. apply inv_bounds; assumption. }
  set (q := div (of_Z 1) t) in *.
  (* times 100 *)
  destruct (mul_good q (of_Z 100) (IZR 100) (IZR (100 * 2 ^ 40))) as [Gu Vu].
  { exact Gq. }
  { apply good_of_Z; lia. }
  { apply repr_IZR; lia. }
  { apply repr_IZR; lia. }
  { rewrite SF2R_of_Z by lia. rewrite mult_IZR. lra. }
  set (u := mul q (of_Z 100)) in *.
  (* floor *)
  destruct (floor_good u 100 (100 * 2 ^ 40) Gu) as [Gf Vf]; try lia.
  { exact Vu. }
  set (fl := floor u) in *.
  (* divided by 100 *)
  apply div_good.
  - exact Gf.
  - apply good_of_Z; lia.
  - apply repr_IZR; lia.
  - apply repr_IZR; lia.
  - rewrite SF2R_of_Z by lia. rewrite mult_IZR in Vf.
    unfold Rdiv. lra.
Qed.

(** *** The cap and the final rounding *)

Lemma round2_range v B :
  good v -> 1 <= B <= 2 ^ 46 -> (1 <= SF2R v <= IZR B)%R ->
  good (round2 v) /\ (1 <= SF2R (round2 v) <= IZR B)%R.
Proof.
  intros Gv HB Hv. unfold round2.
  assert (H46 : 100 * 2 ^ 46 < 2 ^ 53) by reflexivity.
  destruct (mul_good v (of_Z 100) (IZR 100) (IZR (100 * B))) as [Gu Vu].
  { exact Gv. }
  { apply good_of_Z; lia. }
  { apply repr_IZR; lia. }
  { apply repr_IZR; lia. }
  { rewrite SF2R_of_Z by lia. rewrite mult_IZR. lra. }
  destruct (round_good (mul v (of_Z 100)) 100 (100 * B) Gu) as [Gr Vr];
    try lia.
  { exact Vu. }
  apply div_good.
  - exact Gr.
  - apply good_of_Z; lia.
  - apply repr_IZR; lia.
  - apply repr_IZR; lia.
  - rewrite SF2R_of_Z by lia. rewrite mult_IZR in Vr. unfold Rdiv. lra.
Qed.

Lemma min_infinity a : good a -> min a (S754_infinity false) = a.
Proof.
  intros G. destruct (good_inv a G) as (m & e & -> & _). reflexivity.
Qed.

Lemma leb_infinity a : good a -> leb a (S754_infinity false) = true.
Proof.
  intros G. destruct (good_inv a G) as (m & e & -> & _). reflexivity.
Qed.

Lemma capped_range mult z :
  good mult -> (1 <= SF2R mult <= IZR (2 ^ 40))%R -> 1 <= z ->
  leb (of_Z 1) (round2 (min mult (of_Z z))) = true
  /\ leb (round2 (min mult (of_Z z))) (of_Z z) = true.
Proof.
  intros Gm Vm Hz.
  assert (G1 : good (of_Z 1)) by (apply good_of_Z; lia).
  assert (V1 : SF2R (of_Z 1) = 1%R) by (apply SF2R_of_Z; lia).
  assert (L46 : (IZR (2 ^ 40) <= IZR (2 ^ 46))%R) by (apply IZR_le; lia).
  destruct (Z.le_gt_cases z (2 ^ 46)) as [Hle|Hgt].
  - (* the cap is exact *)
    assert (H46 : 2 ^ 46 < 2 ^ 53) by reflexivity.
    destruct (of_Z_exact z ltac:(lia)) as [GM VM].
    destruct (min_good mult (of_Z z) Gm GM) as [Gv Vv].
    assert (Z1 : (1 <= IZR z)%R) by (apply IZR_le; lia).
    destruct (round2_range (min mult (of_Z z)) z Gv ltac:(lia)) as [Gr Vr].
    { rewrite Vv, VM. split.
      - apply Rmin_glb; lra.
      - apply Rmin_r. }
    split; apply good_leb; try assumption; lra.
  - (* the cap is above every multiplier *)
    assert (Hm40 : 1 <= 2 ^ 40 <= 2 ^ 46) by (split; [lia|apply Z.pow_le_mono_r; lia]).
    destruct (of_Z_lower z (IZR (2 ^ 46))) as [Einf|[GM VM]].
    { lia. }
    { exists (2 ^ 46), 0. repeat split; try lia.
      unfold F2R. rewrite bpow_0. ring. }
    { apply IZR_le. lia. }
    + rewrite Einf, min_infinity by assumption.
      destruct (round2_range mult (2 ^ 40) Gm Hm40 Vm) as [Gr Vr].
      split; [apply good_leb; try assumption; lra|].
      apply leb_infinity, Gr.
    + destruct (min_good mult (of_Z z) Gm GM) as [Gv Vv].
      destruct (round2_range (min mult (of_Z z)) (2 ^ 40) Gv Hm40)
        as [Gr Vr].
      { rewrite Vv. split.
        - apply Rmin_glb; lra.
        - eapply Rle_trans; [apply Rmin_l|lra]. }
      split; apply good_leb; try assumption; lra.
Qed.

(** * The decimal form of an integer Number *)

Lemma app_assoc_s (a b c : string) : (a ++ b) ++ c = a ++ (b ++ c).
Proof. induction a as [|x a IH]; cbn; [reflexivity|]. rewrite IH. reflexivity. Qed.

Lemma app_nil_s (a : string) : a ++ EmptyString = a.
Proof. induction a as [|x a IH]; cbn; [reflexivity|]. rewrite IH. reflexivity. Qed.

Lemma app_length_s (a b : string) :
  String.length (a ++ b) = (String.length a + String.length b)%nat.
Proof. induction a as [|x a IH]; cbn; [reflexivity|]. rewrite IH. reflexivity. Qed.

Lemma zeros_snoc n : Str.zeros n ++ "0" = Str.zeros (S n).
Proof. induction n as [|n IH]; cbn; [reflexivity|]. cbn in IH. rewrite IH. reflexivity. Qed.

Lemma digits_acc_app f : forall z acc,
  Str.digits_acc f z acc = Str.digits_acc f z EmptyString ++ acc.
Proof.
  induction f as [|f IH]; intros z acc; cbn [Str.digits_acc].
  - reflexivity.
  - destruct (z <? 10); [reflexivity|].
    rewrite (IH _ (String _ acc)), (IH _ (String _ EmptyString)).
    rewrite app_assoc_s. reflexivity.
Qed.

Lemma digits_acc_fuel f1 : forall f2 z acc,
  0 <= z -> z < 10 ^ Z.of_nat f1 -> z < 10 ^ Z.of_nat f2 ->
  (0 < f1)%nat -> (0 < f2)%nat ->
  Str.digits_acc f1 z acc = Str.digits_acc f2 z acc.
Proof.
  induction f1 as [|a IH]; intros f2 z acc Hz H1 H2 P1 P2; [lia|].
  destruct f2 as [|b]; [lia|].
  cbn [Str.digits_acc].
  destruct (Z.ltb_spec z 10) as [|Hge]; [reflexivity|].
  rewrite Nat2Z.inj_succ, Z.pow_succ_r in H1, H2 by lia.
  assert (Ha : (0 < a)%nat).
  { destruct a; [cbn in H1; lia|lia]. }
  assert (Hb : (0 < b)%nat).
  { destruct b; [cbn in H2; lia|lia]. }
  apply IH; try assumption.
  - apply Z.div_pos; lia.
  - apply Z.div_lt_upper_bound; lia.
  - apply Z.div_lt_upper_bound; lia.
Qed.

Lemma digits_fuel_ok z : 0 <= z -> z < 10 ^ Z.of_nat (S (Z.to_nat (Z.log2 z))).
Proof.
  intros Hz. rewrite Nat2Z.inj_succ, Z2Nat.id by apply Z.log2_nonneg.
  destruct (Z.eq_dec z 0) as [->|Hne]; [cbn; lia|].
  assert (H := Z.log2_spec z ltac:(lia)).
  assert (2 ^ Z.succ (Z.log2 z) <= 10 ^ Z.succ (Z.log2 z)).
  { apply Z.pow_le_mono_l. lia. }
  lia.
Qed.

Lemma digits_small z : 0 <= z < 10 ->
  Str.digits z = String (Str.digit_char z) EmptyString.
Proof.
  intros Hz. unfold Str.digits. cbn [Str.digits_acc].
  destruct (Z.ltb_spec z 10); [reflexivity|lia].
Qed.

Lemma digits_step z : 10 <= z ->
  Str.digits z = Str.digits (z / 10) ++ String (Str.digit_char z) EmptyString.
Proof.
  intros Hz. unfold Str.digits at 1. cbn [Str.digits_acc].
  destruct (Z.ltb_spec z 10) as [|_]; [lia|].
  rewrite digits_acc_app. f_equal.
  assert (H0 : 0 <= z / 10) by (apply Z.div_pos; lia).
  assert (Hf := digits_fuel_ok z ltac:(lia)).
  rewrite Nat2Z.inj_succ, Z.pow_succ_r in Hf by lia.
  assert (Hlog : 0 < Z.log2 z) by (apply Z.log2_pos; lia).
  apply digits_acc_fuel; try lia.
  - apply Z.div_lt_upper_bound; lia.
  - apply digits_fuel_ok, H0.
Qed.

Lemma digits_mul10 s : 0 < s -> Str.digits (s * 10) = Str.digits s ++ "0".
Proof.
  intros Hs. rewrite digits_step by lia.
  rewrite Z.div_mul by lia. f_equal.
  unfold Str.digit_char. rewrite Z.mod_mul by lia. reflexivity.
Qed.

Lemma digits_pow10 s j : 0 < s -> 0 <= j ->
  Str.digits (s * 10 ^ j) = Str.digits s ++ Str.zeros (Z.to_nat j).
Proof.
  intros Hs Hj. revert j Hj. apply natlike_ind.
  - cbn [Z.to_nat Str.zeros]. rewrite Z.pow_0_r, Z.mul_1_r, app_nil_s.
    reflexivity.
  - intros j Hj IH. rewrite Z.pow_succ_r by lia.
    replace (s * (10 * 10 ^ j)) with (s * 10 ^ j * 10) by ring.
    assert (0 < 10 ^ j) by (apply Z.pow_pos_nonneg; lia).
    rewrite digits_mul10 by nia. rewrite IH, app_assoc_s, zeros_snoc.
    rewrite Z2Nat.inj_succ by lia. reflexivity.
Qed.

Lemma digits_length z : 0 < z ->
  10 ^ (Z.of_nat (String.length (Str.digits z)) - 1) <= z
  < 10 ^ Z.of_nat (String.length (Str.digits z)).
Proof.
  assert (H : forall k z, 0 < z < Z.of_nat k ->
            10 ^ (Z.of_nat (String.length (Str.digits z)) - 1) <= z
            < 10 ^ Z.of_nat (String.length (Str.digits z))).
  { induction k as [|k IH]; intros y Hy; [lia|].
    destruct (Z.lt_ge_cases y 10) as [Hlt|Hge].
    - rewrite digits_small by lia. cbn. lia.
    - rewrite digits_step by lia. rewrite app_length_s. cbn [String.length].
      assert (Hq : 0 < y / 10 < Z.of_nat k).
      { split; [apply Z.div_str_pos; lia|].
        apply Z.div_lt_upper_bound; lia. }
      specialize (IH _ Hq).
      set (L := String.length (Str.digits (y / 10))) in *.
      replace (Z.of_nat (L + 1)) with (Z.succ (Z.of_nat L)) by lia.
      assert (HL : 0 < Z.of_nat L).
      { destruct L; [cbn in IH; lia|lia]. }
      replace (Z.succ (Z.of_nat L) - 1) with (Z.succ (Z.of_nat L - 1)) by lia.
      rewrite !Z.pow_succ_r by lia.
      assert (Hd := Z.div_mod y 10 ltac:(lia)).
      assert (Hm := Z.mod_pos_bound y 10 ltac:(lia)).
      lia. }
  intros Hz. apply (H (Z.to_nat z + 1)%nat). lia.
Qed.

(** ** Equality of the Numbers of two integers *)

Lemma repr_IZR_le z : 0 < z <= 2 ^ 53 -> repr (IZR z).
Proof.
  intros Hz. destruct (Z.eq_dec z (2 ^ 53)) as [->|Hne].
  - exists (2 ^ 52), 1. repeat split; try lia.
    unfold F2R. rewrite (bpow_IZR 1) by lia. rewrite <- mult_IZR.
    reflexivity.
  - apply repr_IZR. lia.
Qed.

Lemma good_eqb_refl x : good x -> SFeqb x x = true.
Proof.
  intros G. unfold SFeqb.
  destruct (good_compare x x G G) as [[-> H]|[[-> H]|[-> H]]];
    try reflexivity; lra.
Qed.

Lemma good_eqb_neq x y :
  good x -> good y -> SF2R x <> SF2R y -> SFeqb x y = false.
Proof.
  intros Gx Gy Hne. unfold SFeqb.
  destruct (good_compare x y Gx Gy) as [[-> H]|[[-> H]|[-> H]]];
    try reflexivity. contradiction.
Qed.

Lemma eqb_of_Z a n :
  0 <= a -> 0 < n < 2 ^ 53 -> SFeqb (of_Z a) (of_Z n) = (a =? n).
Proof.
  intros Ha Hn.
  destruct (of_Z_exact n Hn) as [Gn Vn].
  destruct (Z.eqb_spec a n) as [->|Hne].
  - apply good_eqb_refl, Gn.
  - destruct (Z.eq_dec a 0) as [->|Ha0].
    + destruct (good_inv _ Gn) as (m & e & -> & _). reflexivity.
    + destruct (Z.lt_ge_cases a n) as [Hlt|Hge].
      * destruct (of_Z_exact a ltac:(lia)) as [Ga Va].
        apply good_eqb_neq; try assumption.
        rewrite Va, Vn. intros E. apply eq_IZR in E. lia.
      * destruct (of_Z_lower a (IZR (n + 1))) as [Einf|[Ga Va]].
        { lia. }
        { apply repr_IZR_le. lia. }
        { apply IZR_le. lia. }
        -- rewrite Einf. destruct (good_inv _ Gn) as (m & e & -> & _).
           reflexivity.
        -- apply good_eqb_neq; try assumption.
           rewrite Vn. rewrite plus_IZR in Va. lra.
Qed.

(** ** The shortest digit string of a safe integer *)

Lemma shortest_eq fuel x num den n k :
  Str.shortest fuel x num den n k =
  let p := n - k in
  let sn := if 0 <=? p then num else num * 10 ^ (- p) in
  let sd := if 0 <=? p then den * 10 ^ p else den in
  let lo := sn / sd in
  let hi := lo + 1 in
  let ok s := SFeqb (Str.read_decimal s p) x in
  let pick s :=
    if s =? 10 ^ k then (10 ^ (k - 1), k, n + 1) else (s, k, n) in
  match fuel with
  | O => pick lo
  | S f =>
      match ok lo, ok hi with
      | true, false => pick lo
      | false, true => pick hi
      | true, true =>
          match 2 * sn ?= (2 * lo + 1) * sd with
          | Lt => pick lo
          | Gt => pick hi
          | Eq => if Z.even lo then pick lo else pick hi
          end
      | false, false => Str.shortest f x num den n (k + 1)
      end
  end.
Proof. destruct fuel; reflexivity. Qed.

Section ShortestInteger.

Variables (n den : Z).
Hypothesis Hn : 0 < n < 2 ^ 53.
Hypothesis Hden : 0 < den.

Let L := Z.of_nat (String.length (Str.digits n)).

Lemma L_bounds : 10 ^ (L - 1) <= n < 10 ^ L /\ 1 <= L <= 16.
Proof.
  assert (H := digits_length n ltac:(lia)). fold L in H.
  split; [exact H|].
  assert (HL : 0 <= L) by (unfold L; lia).
  split.
  - destruct (Z.eq_dec L 0) as [E|]; [|lia]. rewrite E in H. cbn in H. lia.
  - destruct (Z.le_gt_cases L 16) as [|Hgt]; [assumption|exfalso].
    assert (10 ^ 16 <= 10 ^ (L - 1)) by (apply Z.pow_le_mono_r; lia).
    assert (2 ^ 53 < 10 ^ 16) by reflexivity. lia.
Qed.

Lemma shortest_integer d : forall fuel k,
  k = L - Z.of_nat d -> 1 <= k -> (d <= fuel)%nat ->
  Str.format_digits (Str.shortest fuel (of_Z n) (n * den) den L k)
  = Str.digits n.
Proof.
  destruct L_bounds as [[HL1 HL2] [HL3 HL4]].
  induction d as [|d IH]; intros fuel k Hk Hk1 Hf;
    rewrite shortest_eq; cbv zeta.
  - (* no trailing position left: the integer itself *)
    replace (L - k) with 0 by lia. cbn [Z.leb Z.compare].
    rewrite Z.pow_0_r, Z.mul_1_r, Z.div_mul by lia.
    unfold Str.read_decimal. cbn [Z.leb Z.compare].
    rewrite Z.pow_0_r, !Z.mul_1_r.
    rewrite !eqb_of_Z by lia.
    rewrite Z.eqb_refl.
    destruct (Z.eqb_spec (n + 1) n) as [|_]; [lia|].
    assert (E : (if n =? 10 ^ k then (10 ^ (k - 1), k, L + 1) else (n, k, L))
                = (n, k, L)).
    { destruct (Z.eqb_spec n (10 ^ k)) as [E|]; [|reflexivity].
      replace k with L in E by lia. lia. }
    destruct fuel; rewrite E; unfold Str.format_digits;
      replace k with L by lia;
      rewrite Z.leb_refl;
      (destruct (Z.leb_spec L 21); [|lia]);
      cbn [andb]; rewrite Z.sub_diag; cbn [Z.to_nat Str.zeros];
      apply app_nil_s.
  - set (p := L - k).
    assert (Hp : p = Z.of_nat (S d)) by (unfold p; lia).
    assert (Hp0 : 0 < p) by lia.
    destruct (Z.leb_spec 0 p) as [_|]; [|lia].
    assert (P10 : 0 < 10 ^ p) by (apply Z.pow_pos_nonneg; lia).
    rewrite (Z.mul_comm den (10 ^ p)), Z.div_mul_cancel_r by lia.
    set (lo := n / 10 ^ p).
    assert (Hdm := Z.div_mod n (10 ^ p) ltac:(lia)).
    assert (Hmod := Z.mod_pos_bound n (10 ^ p) ltac:(lia)).
    fold lo in Hdm.
    assert (Hlo : 1 <= lo).
    { apply Z.div_le_lower_bound; [lia|].
      assert (10 ^ p <= 10 ^ (L - 1)) by (apply Z.pow_le_mono_r; lia). lia. }
    assert (Hlok : lo < 10 ^ k).
    { apply Z.div_lt_upper_bound; [lia|].
      rewrite <- Z.pow_add_r by lia. replace (p + k) with L by (unfold p; lia).
      exact HL2. }
    unfold Str.read_decimal.
    destruct (Z.leb_spec 0 p) as [_|]; [|lia].
    rewrite !eqb_of_Z by nia.
    destruct (Z.eqb_spec ((lo + 1) * 10 ^ p) n) as [|_]; [nia|].
    assert (E : (if lo =? 10 ^ k then (10 ^ (k - 1), k, L + 1) else (lo, k, L))
                = (lo, k, L)).
    { destruct (Z.eqb_spec lo (10 ^ k)); [lia|reflexivity]. }
    destruct (Z.eqb_spec (lo * 10 ^ p) n) as [Ediv|Hnd].
    + (* the remaining positions are zeros *)
      destruct fuel; rewrite E; unfold Str.format_digits;
        (destruct (Z.leb_spec k L); [|lia]);
        (destruct (Z.leb_spec L 21); [|lia]);
        cbn [andb]; fold p;
        rewrite <- digits_pow10 by lia; rewrite Ediv; reflexivity.
    + destruct fuel as [|fuel]; [lia|].
      apply IH; lia.
Qed.

End ShortestInteger.

(** For an integer from 1 to [2^53 - 1] (the safe integers of JavaScript),
    the conversion to a string gives the decimal digits of the integer. *)
Theorem numberToString_integer n :
  1 <= n < 2 ^ 53 -> Str.numberToString (of_Z n) = Str.decimal n.
Proof.
  intros Hn.
  assert (Ed : Str.decimal n = Str.digits n).
  { unfold Str.decimal. destruct (Z.ltb_spec n 0); [lia|reflexivity]. }
  rewrite Ed.
  destruct (of_Z_exact n ltac:(lia)) as [G V].
  destruct (good_inv _ G) as (m & e & E & F & _).
  rewrite E in V. cbn [SF2R cond_Zopp] in V.
  assert (He : e <= 0) by (eapply fits_int_exp; [exact F|exact V|lia]).
  assert (Hm := F2R_int_scaled _ _ _ He V).
  assert (Hp : 0 < 2 ^ (- e)) by (apply Z.pow_pos_nonneg; lia).
  rewrite E. unfold Str.numberToString. rewrite <- E.
  assert (Enum : (if 0 <=? e then Zpos m * 2 ^ e else Zpos m) = n * 2 ^ (- e)).
  { destruct (Z.leb_spec 0 e).
    - replace e with 0 in * by lia. cbn [Z.opp] in *. lia.
    - exact Hm. }
  assert (Eden : (if 0 <=? e then 1 else 2 ^ (- e)) = 2 ^ (- e)).
  { destruct (Z.leb_spec 0 e); [|reflexivity].
    replace e with 0 by lia. reflexivity. }
  rewrite Enum, Eden.
  unfold Str.decimal_exponent.
  destruct (Z.leb_spec (2 ^ (- e)) (n * 2 ^ (- e))) as [_|]; [|nia].
  rewrite Z.div_mul by lia.
  cbn [append].
  apply (shortest_integer n (2 ^ (- e)) ltac:(lia) Hp
           (String.length (Str.digits n) - 1)).
  - destruct (L_bounds n ltac:(lia)) as [_ [H1 _]]. lia.
  - lia.
  - destruct (L_bounds n ltac:(lia)) as [_ [_ H2]]. lia.
Qed.

Lemma verifyGame_eq g serverSeed claimed clientSeed nonce maxMult :
  verifyGame (game_name g) serverSeed claimed clientSeed nonce maxMult
  = Return
      {| result := derive g serverSeed clientSeed nonce
                     (or_default (of_Z 10000) maxMult);
         hashVerified :=
           if truthy_opt claimed
           then verifyServerSeedHash serverSeed (or_default EmptyString claimed)
           else false;
         hashMismatch :=
           if truthy_opt claimed
           then negb (if truthy_opt claimed
                      then verifyServerSeedHash serverSeed
                             (or_default EmptyString claimed)
                      else false)
           else false |}.
Proof. destruct g; reflexivity. Qed.

(** ** C8 *)

(** C8. For every server seed, client seed and nonce, the computed result
    of the dice derivation lies between 0.00 and 99.99. *)
Theorem dice_range (serverSeed clientSeed : string) (nonce : number) :
  leb (of_Z 0) (computedResult (verifyDice serverSeed clientSeed nonce)) = true
  /\ leb (computedResult (verifyDice serverSeed clientSeed nonce))
         (of_ratio 9999 100) = true.
Proof.
  rewrite verifyDice_value. cbn [computedResult].
  set (k := prefix_value 8 _ mod 10000).
  assert (Hk : 0 <= k < 10000) by (apply Z.mod_pos_bound; lia).
  destruct (dice_step k Hk) as (_ & L & U). auto.
Qed.

(** ** C2 *)


(** ** C5 *)

(** C5 as stated fails: with max_multiplier = 0 the result is 0, below
    1.00; and with max_multiplier = 1.006, which is not a multiple of 0.01,
    the rounding to two decimals lifts the capped value to 1.01, above
    max_multiplier. *)
Lemma crash_range_zero_cap_counterexample :
  computedResult (verifyCrash "test" "test" (of_Z 1) (Some (of_Z 0)))
  = S754_zero false
  /\ leb (of_Z 1)
         (computedResult (verifyCrash "test" "test" (of_Z 1) (Some (of_Z 0))))
     = false
  /\ Str.numberToString
       (computedResult
          (verifyCrash "test" "test" (of_Z 1) (Some (of_ratio 1006 1000))))
     = "1.01"
  /\ leb (computedResult
            (verifyCrash "test" "test" (of_Z 1) (Some (of_ratio 1006 1000))))
         (of_ratio 1006 1000)
     = false.
Proof. vm_compute. repeat split; reflexivity. Qed.

(** C5, amended. For every server seed, client seed and nonce, and every
    integer max_multiplier of at least 1, the computed result of the crash
    derivation is at least 1.00 and at most max_multiplier. *)
Theorem crash_range_integer_cap (serverSeed clientSeed : string)
    (nonce : number) (maxMult : Z) :
  1 <= maxMult ->
  leb (of_Z 1)
      (computedResult
         (verifyCrash serverSeed clientSeed nonce (Some (of_Z maxMult))))
  = true
  /\ leb (computedResult
            (verifyCrash serverSeed clientSeed nonce (Some (of_Z maxMult))))
         (of_Z maxMult)
     = true.
Proof.
  intros HM. rewrite verifyCrash_value. cbn [computedResult].
  unfold crash_result.
  set (x := prefix_value 13 _).
  assert (Hx : 0 <= x < 2 ^ 52).
  { destruct (prefix_parse 13 _ (sha256_is_digest
                (computeHashInput serverSeed clientSeed nonce)) ltac:(lia))
      as [_ B].
    exact B. }
  destruct (crash_multiplier_range x Hx) as [G V].
  apply capped_range; assumption.
Qed.

Lemma crash_range_integer_cap_witness :
  1 <= 10000
  /\ (leb (of_Z 1)
        (computedResult
           (verifyCrash "test" "test" (of_Z 1) (Some (of_Z 10000)))) = true
      /\ leb (computedResult
                (verifyCrash "test" "test" (of_Z 1) (Some (of_Z 10000))))
             (of_Z 10000) = true).
Proof.
  split; [lia|]. apply (crash_range_integer_cap "test" "test" (of_Z 1) 10000).
  lia.
Defined.

(** ** C3 *)



(** ** C6 *)


(** ** C7 *)


(** ** C10 *)

(** C10. An empty string given as the claimed server seed hash is treated
    exactly like a hash left out: both flags are false, nothing is compared
    with the computed hash, and the handler answers as it does without a
    claimed hash. *)
Theorem empty_claimed_hash_is_omitted :
  (forall game serverSeed clientSeed nonce maxMult,
     verifyGame game serverSeed (Some EmptyString) clientSeed nonce maxMult
     = verifyGame game serverSeed None clientSeed nonce maxMult)
  /\ (forall g serverSeed clientSeed nonce maxMult,
        verifyGame (game_name g) serverSeed (Some EmptyString) clientSeed
          nonce maxMult
        = Return {| result := derive g serverSeed clientSeed nonce
                                (or_default (of_Z 10000) maxMult);
                    hashVerified := false;
                    hashMismatch := false |})
  /\ (forall env body,
        postVerify env (with_claimed_hash body (Some EmptyString))
        = postVerify env (with_claimed_hash body None)).
Proof.
  split; [intros; reflexivity|].
  split; [intros; rewrite verifyGame_eq; reflexivity|].
  intros env body. reflexivity.
Qed.

(** ** C4 *)


Lemma validate_game body :
  validateRequest body = None -> exists g, game body = game_name g.
Proof.
  unfold validateRequest.
  destruct (String.eqb_spec (game body) "dice") as [E|_].
  - intros _. exists dice. exact E.
  - destruct (String.eqb_spec (game body) "crash") as [E|_].
    + intros _. exists crash. exact E.
    + rewrite andb_true_r, orb_true_r. discriminate.
Qed.



(** ** C9 *)

(** C9. Outcome derivation is deterministic: two invocations of verify on
    identical (server_seed, client_seed, nonce, game, max_multiplier) yield
    the same Outcome (computed result, digest, server-seed hash) whatever
    the claimed hashes, and with identical claimed hashes also the same
    flags. *)
Theorem verify_deterministic
    (game1 game2 serverSeed1 serverSeed2 clientSeed1 clientSeed2 : string)
    (nonce1 nonce2 : number) (maxMult1 maxMult2 : option number)
    (claimed1 claimed2 : option string) :
  game1 = game2 -> serverSeed1 = serverSeed2 -> clientSeed1 = clientSeed2 ->
  nonce1 = nonce2 -> maxMult1 = maxMult2 ->
  outcome_of (verifyGame game1 serverSeed1 claimed1 clientSeed1 nonce1 maxMult1)
  = outcome_of (verifyGame game2 serverSeed2 claimed2 clientSeed2 nonce2 maxMult2)
  /\ (claimed1 = claimed2 ->
      verifyGame game1 serverSeed1 claimed1 clientSeed1 nonce1 maxMult1
      = verifyGame game2 serverSeed2 claimed2 clientSeed2 nonce2 maxMult2).
Proof.
  intros -> -> -> -> ->. split.
  - unfold verifyGame. cbv zeta.
    destruct (String.eqb game2 "dice"); [reflexivity|].
    destruct (String.eqb game2 "crash"); reflexivity.
  - intros ->. reflexivity.
Qed.

Lemma verify_deterministic_witness :
  outcome_of (verifyGame "crash" "test" (Some "abc") "test" (of_Z 1)
                (Some (of_Z 10000)))
  = outcome_of (verifyGame "crash" "test" None "test" (of_Z 1)
                  (Some (of_Z 10000))).
Proof.
  apply (verify_deterministic "crash" "crash" "test" "test" "test" "test"
           (of_Z 1) (of_Z 1) (Some (of_Z 10000)) (Some (of_Z 10000))
           (Some "abc") None); reflexivity.
Defined.

(** ** C1 *)

(** C1 as stated fails: the nonce 10^21 is a positive integer that the
    request validation accepts, and the hash input carries it as "1e+21",
    not in decimal (likewise 2^60 is carried as 1152921504606847000). *)
Lemma dice_large_nonce_counterexample :
  isInteger (of_Z (10 ^ 21)) = true
  /\ ltb (of_Z (10 ^ 21)) (of_Z 1) = false
  /\ computeHashInput "seed123" "client456" (of_Z (10 ^ 21))
     = "seed123:client456:1e+21"
  /\ Str.decimal (10 ^ 21) = "1000000000000000000000"
  /\ computationHex (verifyDice "seed123" "client456" (of_Z (10 ^ 21)))
     <> sha256 ("seed123" ++ ":" ++ "client456" ++ ":" ++ Str.decimal (10 ^ 21))
  /\ Str.numberToString (of_Z (2 ^ 60)) = "1152921504606847000"
  /\ Str.decimal (2 ^ 60) = "1152921504606846976".
Proof.
  repeat split; try (vm_compute; reflexivity).
  intros H. vm_compute in H. discriminate H.
Qed.

(** C1, amended. For every server seed, client seed and integer nonce from
    1 to 2^53 - 1, the dice derivation computes the SHA-256 digest of the
    string server_seed + ":" + client_seed + ":" + nonce (nonce in decimal),
    parses the first 8 hex characters of the digest as an unsigned base-16
    integer x, and returns (x mod 10000) / 100 rounded to 2 decimal places
    (which leaves that quotient unchanged) as the computed result, together
    with the full digest. *)
Theorem dice_derivation_spec (serverSeed clientSeed : string) (nonce : Z) :
  1 <= nonce < 2 ^ 53 ->
  let hash :=
    sha256 (serverSeed ++ ":" ++ clientSeed ++ ":" ++ Str.decimal nonce) in
  let x := prefix_value 8 hash in
  0 <= x < 2 ^ 32
  /\ Str.parseInt (Str.slice0 8 hash) 16 = of_Z x
  /\ rem (of_Z x) (of_Z 10000) = of_Z (x mod 10000)
  /\ verifyDice serverSeed clientSeed (of_Z nonce)
     = {| computedResult := round2 (div (of_Z (x mod 10000)) (of_Z 100));
          computationHex := hash;
          serverSeedHash := sha256 serverSeed |}
  /\ round2 (div (of_Z (x mod 10000)) (of_Z 100))
     = div (of_Z (x mod 10000)) (of_Z 100).
Proof.
  intros Hn hash x.
  destruct (prefix_parse 8 hash (sha256_is_digest _) ltac:(lia)) as [P B].
  change (16 ^ Z.of_nat 8) with (2 ^ 32) in B. fold x in P, B.
  assert (H53 : 2 ^ 32 < 2 ^ 53) by reflexivity.
  assert (Hk : 0 <= x mod 10000 < 10000) by (apply Z.mod_pos_bound; lia).
  destruct (dice_step _ Hk) as (R & _).
  split; [exact B|]. split; [exact P|].
  split; [apply rem_of_Z; lia|].
  split; [|exact R].
  rewrite R, verifyDice_value. unfold computeHashInput.
  rewrite numberToString_integer by exact Hn.
  reflexivity.
Qed.

Lemma dice_derivation_spec_witness :
  1 <= 1 < 2 ^ 53
  /\ verifyDice "seed123" "client456" (of_Z 1)
     = {| computedResult :=
            round2 (div (of_Z (prefix_value 8 (sha256 "seed123:client456:1")
                               mod 10000)) (of_Z 100));
          computationHex := sha256 "seed123:client456:1";
          serverSeedHash := sha256 "seed123" |}.
Proof.
  split; [lia|].
  apply (dice_derivation_spec "seed123" "client456" 1). lia.
Defined.

(* ------------------------------------------------------------------ *)
(** * Further properties of the code *)

(** ** [compareResults] *)

(** Rounding a magnitude gives the same magnitude whatever the sign. *)
Lemma abs_binary_round s m e :
  SFabs (binary_round prec emax s m e)
  = SFabs (binary_round prec emax false m e).
Proof.
  unfold binary_round. destruct (shl_align m e _) as [mz ez].
  unfold binary_round_aux.
  destruct (shr_fexp prec emax (Zpos mz) ez loc_Exact) as [mrs' e'].
  destruct (shr_fexp prec emax _ e' loc_Exact) as [mrs'' e''].
  destruct (shr_m mrs''); try reflexivity.
  destruct (Z.leb e'' _); reflexivity.
Qed.

Lemma abs_binary_normalize_opp z e :
  SFabs (binary_normalize prec emax (- z) e false)
  = SFabs (binary_normalize prec emax z e false).
Proof.
  destruct z as [|p|p]; cbn [Z.opp binary_normalize]; try reflexivity.
  - apply abs_binary_round.
  - symmetry. apply abs_binary_round.
Qed.

(** [|a - b|] and [|b - a|] are the same number. *)
Lemma abs_sub_sym a b : abs (sub a b) = abs (sub b a).
Proof.
  destruct a as [sa|sa| |sa ma ea], b as [sb|sb| |sb mb eb];
    try reflexivity; try (destruct sa, sb; reflexivity).
  unfold sub, abs. cbn [SFsub]. rewrite (Z.min_comm eb ea).
  rewrite <- abs_binary_normalize_opp. f_equal. f_equal. lia.
Qed.

(** The comparison does not depend on the order of its two numbers. *)
Theorem compareResults_symmetric (computed expected : number)
    (strict : option bool) :
  compareResults computed expected strict
  = compareResults expected computed strict.
Proof. unfold compareResults. rewrite abs_sub_sym. reflexivity. Qed.

(** The two thresholds, as numbers. *)
Lemma strict_threshold :
  mul EPSILON (of_Z 10) = S754_finite false 5629499534213120 (- 101).
Proof. vm_compute. reflexivity. Qed.

Lemma tolerant_threshold :
  lit_0_01 = S754_finite false 5764607523034235 (- 59).
Proof. vm_compute. reflexivity. Qed.

(** A strict match is a tolerant match: whatever passes the strict mode
    passes the tolerant mode, given explicitly or by default. *)
Theorem strict_match_is_tolerant_match (computed expected : number) :
  compareResults computed expected (Some true) = true ->
  compareResults computed expected (Some false) = true
  /\ compareResults computed expected None = true.
Proof.
  unfold compareResults. cbn [or_default].
  rewrite strict_threshold, tolerant_threshold.
  unfold abs. destruct (sub computed expected) as [s|s| |s m e];
    cbn [SFabs]; unfold ltb, SFltb; cbn [SFcompare]; try discriminate; auto.
  destruct (Z.compare_spec e (- 101)) as [->|H|H]; try discriminate.
  - intros _. split; reflexivity.
  - intros _. destruct (Z.compare_spec e (- 59)); [lia| |lia].
    split; reflexivity.
Qed.

Lemma strict_match_is_tolerant_match_witness :
  compareResults (of_ratio 4237 100) (of_ratio 4237 100) (Some false) = true
  /\ compareResults (of_ratio 4237 100) (of_ratio 4237 100) None = true.
Proof.
  apply (strict_match_is_tolerant_match (of_ratio 4237 100) (of_ratio 4237 100)).
  vm_compute. reflexivity.
Defined.

Lemma sub_self x :
  sub x x = match x with
            | S754_nan | S754_infinity _ => S754_nan
            | _ => S754_zero false
            end.
Proof.
  destruct x as [s|s| |s m e]; try (destruct s; reflexivity); try reflexivity.
  unfold sub. cbn [SFsub]. rewrite Z.sub_diag. reflexivity.
Qed.

Lemma compare_self x strict :
  compareResults x x strict
  = match x with
    | S754_nan | S754_infinity _ => false
    | S754_zero _ | S754_finite _ _ _ => true
    end.
Proof.
  unfold compareResults. rewrite sub_self, strict_threshold, tolerant_threshold.
  destruct x, strict as [[]|]; reflexivity.
Qed.

Lemma compare_nan_l y strict : compareResults NaN y strict = false.
Proof. unfold compareResults. destruct strict as [[]|]; reflexivity. Qed.

Lemma compare_nan_r y strict : compareResults y NaN strict = false.
Proof.
  unfold compareResults.
  assert (E : sub y NaN = NaN) by (destruct y; reflexivity).
  rewrite E. destruct strict as [[]|]; reflexivity.
Qed.

(** A number matches itself, in either mode, exactly when it is finite:
    NaN and the infinities do not match themselves. A NaN on either side
    never matches. *)
Theorem compareResults_reflexive_iff_finite (x y : number)
    (strict : option bool) :
  compareResults x x strict
  = match x with
    | S754_nan | S754_infinity _ => false
    | S754_zero _ | S754_finite _ _ _ => true
    end
  /\ compareResults NaN y strict = false
  /\ compareResults y NaN strict = false.
Proof.
  split; [apply compare_self|].
  split; [apply compare_nan_l|apply compare_nan_r].
Qed.

(** ** [verifyGame]: the unknown game *)

(** [verifyGame] throws exactly when the game is neither "dice" nor
    "crash", whatever the claimed hash, and the message of the error names
    the game. *)
Theorem verifyGame_throws_iff_unknown
    (game serverSeed : string) (claimed : option string) (clientSeed : string)
    (nonce : number) (maxMult : option number) (msg : string) :
  verifyGame game serverSeed claimed clientSeed nonce maxMult = Throw msg
  <-> game <> "dice" /\ game <> "crash"
      /\ msg = "Unknown game type: " ++ game.
Proof.
  unfold verifyGame. cbv zeta.
  destruct (String.eqb_spec game "dice") as [E|N1].
  { split; [discriminate|]. intros (H & _). contradiction. }
  destruct (String.eqb_spec game "crash") as [E|N2].
  { split; [discriminate|]. intros (_ & H & _). contradiction. }
  split.
  - intros [= <-]. auto.
  - intros (_ & _ & ->). reflexivity.
Qed.

(** ** [validateRequest] *)

Lemma truthy_length s : Str.truthy s = true <-> (1 <= String.length s)%nat.
Proof. destruct s; cbn; split; intros; try lia; try discriminate; reflexivity. Qed.

Lemma validate_sound (body : VerifyRequest) :
  validateRequest body = None ->
  (game body = "dice" \/ game body = "crash")
  /\ (1 <= String.length (server_seed body) <= 1000)%nat
  /\ (1 <= String.length (client_seed body) <= 1000)%nat
  /\ ltb (nonce body) (of_Z 1) = false
  /\ isInteger (nonce body) = true
  /\ (forall e, expected_result body = Some e -> ltb e (of_Z 0) = false).
Proof.
  unfold validateRequest.
  intros H.
  destruct (Str.truthy (game body)) eqn:T0; cbn [negb orb] in H;
    [|discriminate].
  destruct (String.eqb_spec (game body) "dice") as [Ed|Nd];
    destruct (String.eqb_spec (game body) "crash") as [Ec|Nc];
    cbn [negb andb] in H; try discriminate.
  all: destruct (Str.truthy (server_seed body)) eqn:T1; cbn [negb] in H;
    [|discriminate].
  all: destruct (Nat.ltb_spec 1000 (String.length (server_seed body)));
    [discriminate|].
  all: destruct (Str.truthy (client_seed body)) eqn:T2; cbn [negb] in H;
    [|discriminate].
  all: destruct (Nat.ltb_spec 1000 (String.length (client_seed body)));
    [discriminate|].
  all: destruct (ltb (nonce body) (of_Z 1)) eqn:L; cbn [orb] in H;
    [discriminate|].
  all: destruct (isInteger (nonce body)) eqn:I; cbn [negb] in H;
    [|discriminate].
  all: apply truthy_length in T1, T2.
  all: repeat split; auto; try lia.
  all: intros e E; rewrite E in H;
    destruct (ltb e (of_Z 0)); [discriminate|reflexivity].
Qed.

Lemma validate_complete (body : VerifyRequest) :
  (game body = "dice" \/ game body = "crash")
  /\ (1 <= String.length (server_seed body) <= 1000)%nat
  /\ (1 <= String.length (client_seed body) <= 1000)%nat
  /\ ltb (nonce body) (of_Z 1) = false
  /\ isInteger (nonce body) = true
  /\ (forall e, expected_result body = Some e -> ltb e (of_Z 0) = false) ->
  validateRequest body = None.
Proof.
  unfold validateRequest.
  intros (Hg & [S1 S2] & [C1 C2] & L & I & Ex).
  assert (G : negb (Str.truthy (game body))
              || negb (String.eqb (game body) "dice")
                 && negb (String.eqb (game body) "crash") = false)
    by (destruct Hg as [-> | ->]; reflexivity).
  rewrite G.
  apply truthy_length in S1, C1. rewrite S1, C1. cbn [negb].
  destruct (Nat.ltb_spec 1000 (String.length (server_seed body))); [lia|].
  destruct (Nat.ltb_spec 1000 (String.length (client_seed body))); [lia|].
  rewrite L, I. cbn [negb orb].
  destruct (expected_result body) as [e|];
    [rewrite (Ex e eq_refl)|]; reflexivity.
Qed.


Lemma of_Z_1 : of_Z 1 = S754_finite false 4503599627370496 (- 52).
Proof. vm_compute. reflexivity. Qed.

(** The nonce of a request that passes validation is a finite number whose
    value is an integer of at least 1: zero, negative numbers, fractions,
    NaN and the infinities are all rejected. *)
Theorem validated_nonce_is_positive_integer (body : VerifyRequest) :
  validateRequest body = None ->
  exists m e n,
    nonce body = S754_finite false m e /\ 1 <= n
    /\ SF2R (nonce body) = IZR n.
Proof.
  intros V. apply validate_sound in V.
  destruct V as (_ & _ & _ & L & I & _).
  destruct (nonce body) as [s|s| |s m e]; try discriminate.
  destruct s;
    [rewrite of_Z_1 in L; unfold ltb, SFltb in L; cbn [SFcompare] in L;
     discriminate|].
  cbn [isInteger] in I. cbn [SF2R cond_Zopp].
  destruct (Z.leb_spec 0 e) as [He|He].
  - exists m, e, (Zpos m * 2 ^ e). split; [reflexivity|].
    assert (0 < 2 ^ e) by (apply Z.pow_pos_nonneg; lia).
    split; [nia|].
    rewrite (F2R_change_exp (Zpos m) e 0) by lia.
    unfold F2R. rewrite bpow_0, Rmult_1_r, Z.sub_0_r. reflexivity.
  - cbn [orb] in I. apply Z.eqb_eq in I.
    assert (P : 0 < 2 ^ (- e)) by (apply Z.pow_pos_nonneg; lia).
    exists m, e, (Zpos m / 2 ^ (- e)). split; [reflexivity|].
    assert (E : Zpos m = 2 ^ (- e) * (Zpos m / 2 ^ (- e)))
      by (apply Z.div_exact; lia).
    split; [nia|].
    rewrite (IZR_as_F2R (Zpos m / 2 ^ (- e)) e) by lia.
    f_equal. lia.
Qed.

Lemma validated_nonce_is_positive_integer_witness :
  exists m e n,
    nonce sample_request = S754_finite false m e /\ 1 <= n
    /\ SF2R (nonce sample_request) = IZR n.
Proof.
  apply (validated_nonce_is_positive_integer sample_request).
  vm_compute. reflexivity.
Defined.

(** ** [postVerify] *)

Lemma postVerify_accepts env body :
  validateRequest body = None -> exists resp, postVerify env body = Success resp.
Proof.
  intros V. destruct (validate_game body V) as [g Hg].
  unfold postVerify. rewrite V, Hg, verifyGame_eq.
  destruct (expected_result body) as [x|];
    [destruct (compareResults _ x _)|]; eexists; reflexivity.
Qed.


Lemma success_notes (env : option string) (body : VerifyRequest)
    (resp : VerifyResponse) :
  postVerify env body = Success resp ->
  notes (details resp)
  = match server_seed_hash body with
    | Some (String c h) =>
        if verifyServerSeedHash (server_seed body) (String c h)
        then "Server seed hash verified successfully"
        else "Server seed hash verification FAILED - hash mismatch"
    | Some EmptyString | None =>
        "No server seed hash provided for verification"
    end
    ++ "; "
    ++ match expected_result body with
       | Some expected =>
           if compareResults (computed_result resp) expected
                (Some (or_default false (expect_strict body)))
           then "Computed result matches expected result ("
                ++ Str.numberToString expected ++ ")"
           else "Computed result ("
                ++ Str.numberToString (computed_result resp)
                ++ ") does not match expected result ("
                ++ Str.numberToString expected ++ ")"
       | None => "No expected result provided - computation only"
       end.
Proof.
  unfold postVerify. destruct (validateRequest body) as [e|] eqn:V;
    [discriminate|].
  destruct (validate_game body V) as [g Hg]. rewrite Hg, verifyGame_eq.
  cbn [hashMismatch hashVerified result].
  set (r := derive g _ _ _ _).
  destruct (server_seed_hash body) as [[|c h]|];
    cbn [truthy_opt Str.truthy or_default];
    try destruct (verifyServerSeedHash (server_seed body) (String c h));
    cbn [negb];
    (destruct (expected_result body) as [x|];
     [destruct (compareResults (computedResult r) x _) eqn:C|]);
    intros [= <-]; cbn [details notes computed_result];
    rewrite ?C; reflexivity.
Qed.

(** ** Reading a decimal integer back with [parseInt] *)

Lemma digit_cases d :
  0 <= d < 10 ->
  d = 0 \/ d = 1 \/ d = 2 \/ d = 3 \/ d = 4 \/ d = 5 \/ d = 6 \/ d = 7
  \/ d = 8 \/ d = 9.
Proof. lia. Qed.

Lemma digit_char_mod z : Str.digit_char z = Str.digit_char (z mod 10).
Proof. unfold Str.digit_char. rewrite Z.mod_mod by lia. reflexivity. Qed.

(** A decimal digit is a digit of its own value, is no white space and no
    sign. *)
Lemma digit_char_facts d :
  0 <= d < 10 ->
  Str.digit_value (Str.digit_char d) = Some d
  /\ Str.is_space (Str.digit_char d) = false
  /\ Str.digit_char d <> "-"%char
  /\ Str.digit_char d <> "+"%char
  /\ Str.digit_char d <> ":"%char.
Proof.
  intros H.
  destruct (digit_cases d H) as [->|[->|[->|[->|[->|[->|[->|[->|[->| ->]]]]]]]]];
    repeat split; try reflexivity; discriminate.
Qed.

Lemma parse_digits_decimal z :
  0 <= z ->
  forall t acc,
    Str.parse_digits 10 (Str.digits z ++ t) acc
    = Str.parse_digits 10 t
        (Some (acc_value acc * 10 ^ Z.of_nat (String.length (Str.digits z))
               + z)).
Proof.
  assert (H : forall k z, 0 <= z < Z.of_nat k -> forall t acc,
            Str.parse_digits 10 (Str.digits z ++ t) acc
            = Str.parse_digits 10 t
                (Some (acc_value acc
                       * 10 ^ Z.of_nat (String.length (Str.digits z)) + z))).
  { induction k as [|k IH]; intros y Hy t acc; [lia|].
    destruct (Z.lt_ge_cases y 10) as [Hlt|Hge].
    - rewrite digits_small by lia.
      cbn [append String.length Str.parse_digits].
      destruct (digit_char_facts y ltac:(lia)) as (-> & _).
      destruct (Z.ltb_spec y 10); [|lia].
      f_equal. destruct acc as [a|]; cbn [acc_value]; f_equal; lia.
    - rewrite digits_step by lia. rewrite app_assoc_s.
      assert (Hq : 0 <= y / 10 < Z.of_nat k).
      { split; [apply Z.div_pos; lia|].
        apply Z.div_lt_upper_bound; lia. }
      rewrite (IH _ Hq). cbn [append Str.parse_digits].
      rewrite digit_char_mod.
      assert (Hm := Z.mod_pos_bound y 10 ltac:(lia)).
      destruct (digit_char_facts (y mod 10) Hm) as (-> & _).
      destruct (Z.ltb_spec (y mod 10) 10); [|lia].
      f_equal. f_equal. rewrite app_length_s. cbn [String.length].
      set (L := String.length (Str.digits (y / 10))).
      replace (Z.of_nat (L + 1)) with (Z.succ (Z.of_nat L)) by lia.
      rewrite Z.pow_succ_r by lia.
      assert (Hd := Z.div_mod y 10 ltac:(lia)). lia. }
  intros Hz. apply (H (Z.to_nat z + 1)%nat). lia.
Qed.

(** The first character of a decimal expansion is a digit. *)
Lemma digits_head z :
  0 <= z -> exists d s, 0 <= d < 10 /\ Str.digits z = String (Str.digit_char d) s.
Proof.
  assert (H : forall k z, 0 <= z < Z.of_nat k ->
            exists d s, 0 <= d < 10
                        /\ Str.digits z = String (Str.digit_char d) s).
  { induction k as [|k IH]; intros y Hy; [lia|].
    destruct (Z.lt_ge_cases y 10) as [Hlt|Hge].
    - exists y, EmptyString. split; [lia|]. apply digits_small. lia.
    - rewrite digits_step by lia.
      assert (Hq : 0 <= y / 10 < Z.of_nat k).
      { split; [apply Z.div_pos; lia|].
        apply Z.div_lt_upper_bound; lia. }
      destruct (IH _ Hq) as (d & s & Hd & ->).
      exists d, (s ++ String (Str.digit_char y) EmptyString).
      split; [exact Hd|reflexivity]. }
  intros Hz. apply (H (Z.to_nat z + 1)%nat). lia.
Qed.

(** [parseInt] in radix 10 reads the decimal expansion of a natural number
    back as that number. *)
Lemma parseInt_digits z :
  0 <= z -> Str.parseInt (Str.digits z) 10 = of_Z z.
Proof.
  intros Hz.
  assert (P := parse_digits_decimal z Hz EmptyString None).
  rewrite app_nil_s in P. cbn [Str.parse_digits acc_value] in P.
  destruct (digits_head z Hz) as (d & s & Hd & E).
  destruct (digit_char_facts d Hd) as (_ & Hsp & Hm & Hp & _).
  unfold Str.parseInt. rewrite E in *. cbn [Str.trim_start]. rewrite Hsp.
  assert (E1 : match String (Str.digit_char d) s with
               | String "-"%char s' => (true, s')
               | String "+"%char s' => (false, s')
               | _ => (false, String (Str.digit_char d) s)
               end = (false, String (Str.digit_char d) s)).
  { destruct (Str.digit_char d) as [[] [] [] [] [] [] [] []];
      try reflexivity; congruence. }
  rewrite E1.
  cbn [orb Z.ltb Z.compare Z.eqb Pos.compare Pos.compare_cont Pos.eqb].
  rewrite P. reflexivity.
Qed.

(** Two natural numbers with the same decimal expansion are equal. *)
Lemma digits_inj a b : 0 <= a -> 0 <= b -> Str.digits a = Str.digits b -> a = b.
Proof.
  intros Ha Hb E.
  assert (Pa := parse_digits_decimal a Ha EmptyString None).
  assert (Pb := parse_digits_decimal b Hb EmptyString None).
  rewrite E in Pa. rewrite Pa in Pb.
  cbn [Str.parse_digits acc_value] in Pb. injection Pb as Pb. lia.
Qed.

(** ** The grid of hundredths *)

Lemma F2R_scale100 a e : (IZR 100 * F2R a e = F2R (100 * a) e)%R.
Proof. unfold F2R. rewrite mult_IZR. ring. Qed.

(** Rounding the quotient [N / 100] to two decimals leaves it as it is. *)
Lemma grid_round2 N :
  1 <= N < 2 ^ 47 ->
  good (div (of_Z N) (of_Z 100))
  /\ round2 (div (of_Z N) (of_Z 100)) = div (of_Z N) (of_Z 100).
Proof.
  intros HN.
  assert (P12 : 2 ^ 12 = 4096) by reflexivity.
  assert (P10 : 2 ^ 10 = 1024) by reflexivity.
  assert (P47 : 2 ^ 47 = 140737488355328) by reflexivity.
  assert (P53 : 2 ^ 53 = 9007199254740992) by reflexivity.
  set (a := N * 2 ^ 12 / 100).
  assert (Ha1 : 100 * a <= N * 2 ^ 12) by (apply Z.mul_div_le; lia).
  assert (Ha2 : N * 2 ^ 12 < 100 * Z.succ a)
    by (apply Z.mul_succ_div_gt; lia).
  assert (Ha : 0 < a < 2 ^ 53 - 1) by lia.
  (* the quotient, between two neighbours on the grid of 2^-12 *)
  destruct (div_good (of_Z N) (of_Z 100) (F2R a (- 12)) (F2R (a + 1) (- 12)))
    as [Gq Vq].
  { apply good_of_Z; lia. }
  { apply good_of_Z; lia. }
  { exists a, (- 12). repeat split; lia. }
  { exists (a + 1), (- 12). repeat split; lia. }
  { rewrite !SF2R_of_Z by lia.
    assert (E : (IZR N / IZR 100 = F2R (N * 2 ^ 12) (- 12) / IZR 100)%R).
    { change (- 12) with (- (12)). rewrite F2R_neg by lia.
      rewrite mult_IZR. assert (0 < IZR (2 ^ 12))%R by (apply IZR_lt; lia).
      field. lra. }
    rewrite E.
    assert (L := F2R_le (100 * a) (N * 2 ^ 12) (- 12) Ha1).
    assert (U := F2R_le (N * 2 ^ 12) (100 * (a + 1)) (- 12) ltac:(lia)).
    rewrite <- !F2R_scale100 in L, U. lra. }
  split; [exact Gq|].
  set (q := div (of_Z N) (of_Z 100)) in *.
  (* times 100: within a quarter of N *)
  destruct (mul_good q (of_Z 100) (F2R (4 * N - 1) (- 2))
              (F2R (4 * N + 1) (- 2))) as [Gt Vt].
  { exact Gq. }
  { apply good_of_Z; lia. }
  { exists (4 * N - 1), (- 2). repeat split; lia. }
  { exists (4 * N + 1), (- 2). repeat split; lia. }
  { rewrite SF2R_of_Z by lia.
    rewrite (F2R_change_exp (4 * N - 1) (- 2) (- 12)) by lia.
    rewrite (F2R_change_exp (4 * N + 1) (- 2) (- 12)) by lia.
    assert (L := F2R_le ((4 * N - 1) * 2 ^ (- 2 - - 12)) (100 * a)
                   (- 12) ltac:(change (- 2 - - 12) with 10; lia)).
    assert (U := F2R_le (100 * (a + 1)) ((4 * N + 1) * 2 ^ (- 2 - - 12))
                   (- 12) ltac:(change (- 2 - - 12) with 10; lia)).
    rewrite <- !F2R_scale100 in L, U. lra. }
  set (t := mul q (of_Z 100)) in *.
  change (- 2) with (- (2)) in Vt. rewrite !F2R_neg in Vt by lia.
  rewrite minus_IZR, plus_IZR, mult_IZR in Vt.
  change (IZR (2 ^ 2)) with 4%R in Vt.
  (* the nearest integer is N *)
  destruct (round_near t N N Gt) as [Gr Vr]; try lia.
  { lra. }
  assert (Er : round t = of_Z N).
  { apply good_unique; [exact Gr|apply good_of_Z; lia|].
    rewrite SF2R_of_Z by lia. lra. }
  unfold round2. fold t. rewrite Er. reflexivity.
Qed.

(** [Math.floor] of a positive number below [2^53] is the Number of an
    integer. *)
Lemma floor_of_Z x a b :
  good x -> 0 < a -> b < 2 ^ 53 -> (IZR a <= SF2R x <= IZR b)%R ->
  exists N, a <= N <= b /\ floor x = of_Z N.
Proof.
  intros Gx Ha Hb Hv.
  destruct (floor_good x a b Gx Ha Hb Hv) as [Gf Vf].
  assert (H : exists N, 0 <= N < 2 ^ 53 /\ floor x = of_Z N).
  { destruct (good_inv x Gx) as (m & e & E & (Hm & _) & _).
    rewrite E in *. cbn [floor SF2R cond_Zopp] in *.
    destruct (Z.leb_spec 0 e) as [He|He].
    - assert (V : F2R (Zpos m) e = IZR (Zpos m * 2 ^ e)).
      { rewrite (F2R_change_exp (Zpos m) e 0) by lia.
        unfold F2R. rewrite bpow_0, Rmult_1_r, Z.sub_0_r. reflexivity. }
      rewrite V in Hv.
      assert (Zpos m * 2 ^ e <= b) by (apply le_IZR; lra).
      assert (0 < 2 ^ e) by (apply Z.pow_pos_nonneg; lia).
      exists (Zpos m * 2 ^ e). split; [nia|].
      apply good_unique; [exact Gx|apply good_of_Z; nia|].
      rewrite SF2R_of_Z by nia. exact V.
    - exists (Z.shiftr (Zpos m) (- e)). split; [|reflexivity].
      rewrite Z.shiftr_div_pow2 by lia.
      assert (0 < 2 ^ (- e)) by (apply Z.pow_pos_nonneg; lia).
      split; [apply Z.div_pos; lia|].
      apply Z.div_lt_upper_bound; nia. }
  destruct H as (N & HN & E). exists N. split; [|exact E].
  rewrite E in Gf, Vf.
  destruct (Z.eq_dec N 0) as [->|Hne].
  { rewrite of_Z_0 in Gf. contradiction. }
  rewrite SF2R_of_Z in Vf by lia. split; apply le_IZR; lra.
Qed.

(** The product that the crash derivation floors lies between 100 and
    [100 * 2^40]. *)
Lemma crash_scaled_range x :
  0 < x < 2 ^ 52 ->
  good (mul (div (of_Z 1)
               (sub (of_Z 1) (min (div (of_Z x) (of_Z 4503599627370496)) clamp)))
          (of_Z 100))
  /\ (IZR 100
      <= SF2R (mul (div (of_Z 1)
                      (sub (of_Z 1)
                         (min (div (of_Z x) (of_Z 4503599627370496)) clamp)))
                 (of_Z 100))
      <= IZR (100 * 2 ^ 40))%R.
Proof.
  intros Hx.
  change 4503599627370496 with (2 ^ 52).
  destruct clamp_facts as [Gc Vc].
  assert (P40 : (0 < IZR (2 ^ 40))%R) by (apply IZR_lt; lia).
  assert (P52 : (0 < IZR (2 ^ 52))%R) by (apply IZR_lt; lia).
  destruct (div_good (of_Z x) (of_Z (2 ^ 52)) (F2R 1 (- 52))
              (F2R (2 ^ 52 - 1) (- 52))) as [G0 V0].
  { apply good_of_Z; lia. }
  { apply good_of_Z; lia. }
  { exists 1, (- 52). repeat split; lia. }
  { exists (2 ^ 52 - 1), (- 52). repeat split; lia. }
  { rewrite !SF2R_of_Z by lia. change (- 52) with (- (52)).
    rewrite !F2R_neg by lia.
    assert (IZR 1 <= IZR x <= IZR (2 ^ 52 - 1))%R by (split; apply IZR_le; lia).
    assert (0 < / IZR (2 ^ 52))%R by (apply Rinv_0_lt_compat, P52).
    unfold Rdiv. nra. }
  set (r0 := div (of_Z x) (of_Z (2 ^ 52))) in *.
  assert (P0 : (0 < SF2R r0)%R) by (apply good_pos, G0).
  destruct (min_good r0 clamp G0 Gc) as [Gr Vr].
  set (r := min r0 clamp) in *.
  assert (Pc : (0 < SF2R clamp)%R) by (apply good_pos, Gc).
  assert (Br : (0 < SF2R r <= 1 - / IZR (2 ^ 40))%R).
  { rewrite Vr. split.
    - apply Rmin_glb_lt; assumption.
    - eapply Rle_trans; [apply Rmin_r|exact Vc]. }
  destruct (sub_good (of_Z 1) r (F2R 1 (- 40)) (IZR 1)) as [Gt Vt].
  { apply good_of_Z; lia. }
  { exact Gr. }
  { exists 1, (- 40). repeat split; lia. }
  { apply repr_IZR. lia. }
  { rewrite SF2R_of_Z by lia. change (- 40) with (- (40)).
    rewrite F2R_neg by lia. unfold Rdiv. rewrite Rmult_1_l. lra. }
  set (t := sub (of_Z 1) r) in *.
  change (- 40) with (- (40)) in Vt. rewrite F2R_neg in Vt by lia.
  unfold Rdiv in Vt. rewrite Rmult_1_l in Vt.
  destruct (div_good (of_Z 1) t (IZR 1) (IZR (2 ^ 40))) as [Gq Vq].
  { apply good_of_Z; lia. }
  { exact Gt. }
  { apply repr_IZR; lia. }
  { apply repr_IZR; lia. }
  { rewrite SF2R_of_Z by lia. apply inv_bounds; assumption. }
  set (q := div (of_Z 1) t) in *.
  apply mul_good.
  - exact Gq.
  - apply good_of_Z; lia.
  - apply repr_IZR; lia.
  - apply repr_IZR; lia.
  - rewrite SF2R_of_Z by lia. rewrite mult_IZR. lra.
Qed.

(** The multiplier before the cap is a number of hundredths. *)
Lemma crash_multiplier_grid x :
  0 <= x < 2 ^ 52 ->
  exists N, 100 <= N <= 100 * 2 ^ 40
            /\ crash_multiplier x = div (of_Z N) (of_Z 100).
Proof.
  intros Hx.
  destruct (Z.eq_dec x 0) as [->|Hx0].
  { exists 100. split; [lia|]. vm_compute. reflexivity. }
  destruct (crash_scaled_range x ltac:(lia)) as [Gu Vu].
  destruct (floor_of_Z _ 100 (100 * 2 ^ 40) Gu ltac:(lia) ltac:(lia) Vu)
    as (N & HN & E).
  exists N. split; [exact HN|].
  unfold crash_multiplier. fold clamp. cbv zeta. rewrite E. reflexivity.
Qed.

(** ** The crash result on the grid of hundredths *)

Lemma capped_on_grid x z :
  0 <= x < 2 ^ 52 -> 1 <= z ->
  crash_result x (of_Z z) = min (crash_multiplier x) (of_Z z)
  /\ exists N, 100 <= N <= 100 * z /\ N < 2 ^ 47
               /\ crash_result x (of_Z z) = div (of_Z N) (of_Z 100)
               /\ good (div (of_Z N) (of_Z 100)).
Proof.
  intros Hx Hz.
  assert (P40 : 2 ^ 40 = 1099511627776) by reflexivity.
  assert (P47 : 2 ^ 47 = 140737488355328) by reflexivity.
  assert (P53 : 2 ^ 53 = 9007199254740992) by reflexivity.
  destruct (crash_multiplier_range x Hx) as [Gm Vm].
  destruct (crash_multiplier_grid x Hx) as (N & HN & EN).
  destruct (grid_round2 N ltac:(lia)) as [GN RN].
  unfold crash_result.
  destruct (Z.le_gt_cases z (2 ^ 40)) as [Hle|Hgt].
  - destruct (of_Z_exact z ltac:(lia)) as [GM VM].
    destruct (min_good (crash_multiplier x) (of_Z z) Gm GM) as [Gv Vv].
    destruct (Rle_lt_dec (SF2R (of_Z z)) (SF2R (crash_multiplier x)))
      as [Hc|Hc].
    + (* the cap applies *)
      assert (E : min (crash_multiplier x) (of_Z z) = of_Z z).
      { apply good_unique; [exact Gv|exact GM|].
        rewrite Vv. apply Rmin_right. exact Hc. }
      assert (Z1 : (1 <= IZR z)%R) by (apply IZR_le; lia).
      assert (D : of_Z z = div (of_Z (100 * z)) (of_Z 100)).
      { destruct (div_good (of_Z (100 * z)) (of_Z 100) (IZR z) (IZR z))
          as [Gd Vd].
        - apply good_of_Z; lia.
        - apply good_of_Z; lia.
        - apply repr_IZR; lia.
        - apply repr_IZR; lia.
        - rewrite !SF2R_of_Z by lia. rewrite mult_IZR.
          unfold Rdiv. lra.
        - apply good_unique; [exact GM|exact Gd|]. rewrite VM. lra. }
      destruct (grid_round2 (100 * z) ltac:(lia)) as [GZ RZ].
      assert (R : round2 (of_Z z) = of_Z z).
      { rewrite D at 1. rewrite RZ. symmetry. exact D. }
      rewrite E, R.
      split; [reflexivity|].
      exists (100 * z). repeat split; try lia; [exact D|exact GZ].
    + (* the multiplier is below the cap *)
      assert (E : min (crash_multiplier x) (of_Z z) = crash_multiplier x).
      { apply good_unique; [exact Gv|exact Gm|].
        rewrite Vv. apply Rmin_left. lra. }
      assert (R : round2 (crash_multiplier x) = crash_multiplier x).
      { rewrite EN. exact RN. }
      rewrite E, R.
      split; [reflexivity|].
      exists N. repeat split; try lia; [|exact EN|exact GN].
      destruct (Z.le_gt_cases N (100 * z)) as [|Hbig]; [assumption|exfalso].
      destruct (div_good (of_Z N) (of_Z 100) (IZR z) (IZR (2 ^ 40)))
        as [_ Vd].
      * apply good_of_Z; lia.
      * apply good_of_Z; lia.
      * apply repr_IZR; lia.
      * apply repr_IZR; lia.
      * rewrite !SF2R_of_Z by lia.
        assert (IZR (100 * z) <= IZR N)%R by (apply IZR_le; lia).
        assert (IZR N <= IZR (100 * 2 ^ 40))%R by (apply IZR_le; lia).
        rewrite mult_IZR in *. unfold Rdiv. lra.
      * rewrite <- EN, VM in *. lra.
  - (* the cap is above every multiplier *)
    assert (E : min (crash_multiplier x) (of_Z z) = crash_multiplier x).
    { destruct (of_Z_lower z (IZR (2 ^ 40))) as [Einf|[GM VM]].
      - lia.
      - apply repr_IZR; lia.
      - apply IZR_le. lia.
      - rewrite Einf. apply min_infinity, Gm.
      - destruct (min_good (crash_multiplier x) (of_Z z) Gm GM) as [Gv Vv].
        apply good_unique; [exact Gv|exact Gm|].
        rewrite Vv. apply Rmin_left. lra. }
    assert (R : round2 (crash_multiplier x) = crash_multiplier x).
    { rewrite EN. exact RN. }
    rewrite E, R.
    split; [reflexivity|].
    exists N. repeat split; try lia; [exact EN|exact GN].
Qed.

(** For an integer cap of at least 1 the final rounding of the crash
    derivation changes nothing: the computed result is the multiplier or the
    cap, whichever is smaller, and it is the number nearest to N / 100 for an
    integer N between 100 and 100 times the cap. *)
Theorem crash_result_on_grid (serverSeed clientSeed : string)
    (nonce : number) (maxMult : Z) :
  1 <= maxMult ->
  computedResult
    (verifyCrash serverSeed clientSeed nonce (Some (of_Z maxMult)))
  = min (crash_multiplier
           (prefix_value 13
              (sha256 (computeHashInput serverSeed clientSeed nonce))))
        (of_Z maxMult)
  /\ exists N,
       100 <= N <= 100 * maxMult
       /\ computedResult
            (verifyCrash serverSeed clientSeed nonce (Some (of_Z maxMult)))
          = div (of_Z N) (of_Z 100).
Proof.
  intros HM. rewrite verifyCrash_value. cbn [computedResult].
  set (x := prefix_value 13 _).
  assert (Hx : 0 <= x < 2 ^ 52).
  { destruct (prefix_parse 13 _ (sha256_is_digest
                (computeHashInput serverSeed clientSeed nonce)) ltac:(lia))
      as [_ B].
    exact B. }
  destruct (capped_on_grid x maxMult Hx HM) as [E (N & HN & _ & EN & _)].
  split; [exact E|]. exists N. split; [exact HN|exact EN].
Qed.

Lemma crash_result_on_grid_witness :
  exists N,
    100 <= N <= 100 * 10000
    /\ computedResult (verifyCrash "test" "test" (of_Z 1) (Some (of_Z 10000)))
       = div (of_Z N) (of_Z 100).
Proof.
  apply (crash_result_on_grid "test" "test" (of_Z 1) 10000). lia.
Defined.

(** ** The response of [postVerify] *)

Lemma derive_hashes g serverSeed clientSeed nonce maxMult :
  serverSeedHash (derive g serverSeed clientSeed nonce maxMult)
  = sha256 serverSeed
  /\ computationHex (derive g serverSeed clientSeed nonce maxMult)
     = sha256 (computeHashInput serverSeed clientSeed nonce).
Proof.
  destruct g; cbn [derive].
  - rewrite verifyDice_value. split; reflexivity.
  - rewrite verifyCrash_value. split; reflexivity.
Qed.

Lemma postVerify_success env body resp :
  postVerify env body = Success resp ->
  exists g,
    validateRequest body = None
    /\ game body = game_name g
    /\ ok resp = true
    /\ resp_game resp = game body
    /\ computed_result resp
       = computedResult (derive g (server_seed body) (client_seed body)
                           (nonce body) (env_max_mult env))
    /\ used_client_seed (details resp) = client_seed body
    /\ used_nonce (details resp) = nonce body
    /\ used_server_seed_hash (details resp) = sha256 (server_seed body)
    /\ computation_hex (details resp)
       = sha256 (computeHashInput (server_seed body) (client_seed body)
                   (nonce body))
    /\ verdict resp
       = if match server_seed_hash body with
            | Some (String c h) =>
                negb (verifyServerSeedHash (server_seed body) (String c h))
            | Some EmptyString | None => false
            end
            || expected_mismatch body (computed_result resp)
         then FAIL else PASS.
Proof.
  unfold postVerify. destruct (validateRequest body) as [e|] eqn:V;
    [discriminate|].
  destruct (validate_game body V) as [g Hg].
  change (Str.parseInt _ 10) with (env_max_mult env).
  rewrite Hg, verifyGame_eq. cbn [or_default hashMismatch hashVerified result].
  destruct (derive_hashes g (server_seed body) (client_seed body) (nonce body)
              (env_max_mult env)) as [H1 H2].
  set (r := derive g _ _ _ _) in *.
  unfold expected_mismatch.
  intros E. exists g. split; [reflexivity|]. split; [reflexivity|].
  revert E.
  destruct (server_seed_hash body) as [[|c h]|];
    cbn [truthy_opt Str.truthy or_default];
    try destruct (verifyServerSeedHash (server_seed body) (String c h));
    cbn [negb orb];
    (destruct (expected_result body) as [x|];
     [destruct (compareResults (computedResult r) x _) eqn:C|]);
    intros [= <-];
    cbn [ok resp_game computed_result verdict details used_client_seed
         used_nonce used_server_seed_hash computation_hex];
    rewrite ?C; cbn [negb]; repeat split; assumption.
Qed.

(** The notes of a response are always two sentences joined by "; ": one
    on the claimed hash, one on the expected result. The verdict agrees with
    them: it is FAIL exactly when the first sentence reports a hash mismatch
    or the second a computed result that does not match. *)
Theorem postVerify_notes (env : option string) (body : VerifyRequest)
    (resp : VerifyResponse) :
  postVerify env body = Success resp ->
  exists hash_note result_note,
    notes (details resp) = hash_note ++ "; " ++ result_note
    /\ hash_note
       = match server_seed_hash body with
         | Some (String c h) =>
             if verifyServerSeedHash (server_seed body) (String c h)
             then "Server seed hash verified successfully"
             else "Server seed hash verification FAILED - hash mismatch"
         | Some EmptyString | None =>
             "No server seed hash provided for verification"
         end
    /\ result_note
       = match expected_result body with
         | Some expected =>
             if compareResults (computed_result resp) expected
                  (Some (or_default false (expect_strict body)))
             then "Computed result matches expected result ("
                  ++ Str.numberToString expected ++ ")"
             else "Computed result ("
                  ++ Str.numberToString (computed_result resp)
                  ++ ") does not match expected result ("
                  ++ Str.numberToString expected ++ ")"
         | None => "No expected result provided - computation only"
         end
    /\ (verdict resp = FAIL
        <-> hash_note = "Server seed hash verification FAILED - hash mismatch"
            \/ exists expected,
                 expected_result body = Some expected
                 /\ result_note
                    = "Computed result ("
                      ++ Str.numberToString (computed_result resp)
                      ++ ") does not match expected result ("
                      ++ Str.numberToString expected ++ ")").
Proof.
  intros E. rewrite (success_notes env body resp E).
  do 2 eexists. split; [reflexivity|]. split; [reflexivity|].
  split; [reflexivity|].
  destruct (postVerify_success env body resp E)
    as (g & _ & _ & _ & _ & _ & _ & _ & _ & _ & Hv).
  rewrite Hv. unfold expected_mismatch.
  destruct (server_seed_hash body) as [[|c h]|];
    try destruct (verifyServerSeedHash (server_seed body) (String c h));
    (destruct (expected_result body) as [x|];
     [destruct (compareResults (computed_result resp) x _)|]);
    cbn [negb orb]; split;
    try (intros _; first [left; reflexivity
                         |right; eexists; split; reflexivity]);
    try discriminate;
    try (intros _; reflexivity);
    intros [H|(e & He & H)]; exfalso;
    try discriminate H; try discriminate He;
    cbn [append] in H; discriminate H.
Qed.

Lemma postVerify_notes_witness :
  exists resp,
    postVerify None sample_request = Success resp
    /\ notes (details resp)
       = "Server seed hash verification FAILED - hash mismatch; "
         ++ "Computed result matches expected result (1.74)"
    /\ verdict resp = FAIL.
Proof.
  assert (E : exists resp, postVerify None sample_request = Success resp).
  { vm_compute. eexists. reflexivity. }
  destruct E as [resp E]. exists resp. split; [exact E|].
  destruct (postVerify_notes None sample_request resp E)
    as (hn & rn & Hn & Hh & Hr & Hv).
  assert (C : computed_result resp = of_ratio 174 100).
  { vm_compute in E. injection E as <-. vm_compute. reflexivity. }
  assert (Eh : hn = "Server seed hash verification FAILED - hash mismatch").
  { rewrite Hh. vm_compute. reflexivity. }
  split.
  - rewrite Hn, Eh, Hr, C. vm_compute. reflexivity.
  - apply Hv. left. exact Eh.
Defined.

(** A successful response echoes the game, the client seed and the nonce of
    the request, carries the computed result of the derivation of that game
    under the cap of the environment, the SHA-256 of the server seed and the
    digest of the hash input. *)
Theorem postVerify_response_fields (env : option string)
    (body : VerifyRequest) (resp : VerifyResponse) :
  postVerify env body = Success resp ->
  ok resp = true
  /\ resp_game resp = game body
  /\ (game body = "dice"
      /\ computed_result resp
         = computedResult (verifyDice (server_seed body) (client_seed body)
                             (nonce body))
      \/ game body = "crash"
         /\ computed_result resp
            = computedResult
                (verifyCrash (server_seed body) (client_seed body)
                   (nonce body) (Some (env_max_mult env))))
  /\ used_client_seed (details resp) = client_seed body
  /\ used_nonce (details resp) = nonce body
  /\ used_server_seed_hash (details resp) = sha256 (server_seed body)
  /\ computation_hex (details resp)
     = sha256 (computeHashInput (server_seed body) (client_seed body)
                 (nonce body)).
Proof.
  intros E.
  destruct (postVerify_success env body resp E)
    as (g & _ & Hg & H1 & H2 & H3 & H4 & H5 & H6 & H7 & _).
  repeat split; try assumption.
  destruct g; [left|right]; split; assumption.
Qed.

Lemma postVerify_response_fields_witness :
  exists resp,
    postVerify None sample_request = Success resp
    /\ used_server_seed_hash (details resp) = sha256 "seed123".
Proof.
  assert (E : exists resp, postVerify None sample_request = Success resp).
  { vm_compute. eexists. reflexivity. }
  destruct E as [resp E]. exists resp. split; [exact E|].
  apply (postVerify_response_fields None sample_request resp E).
Defined.

(** ** The cap of the environment *)

(** The dice game never reads the cap: whatever MAX_MULT holds, a dice
    request gets the same answer. *)
Theorem dice_ignores_MAX_MULT (env1 env2 : option string)
    (body : VerifyRequest) :
  game body = "dice" -> postVerify env1 body = postVerify env2 body.
Proof.
  intros Hg. unfold postVerify.
  destruct (validateRequest body); [reflexivity|].
  rewrite Hg. rewrite !(verifyGame_eq dice). cbn [derive]. reflexivity.
Qed.

Lemma dice_ignores_MAX_MULT_witness :
  postVerify (Some "5") sample_request = postVerify None sample_request.
Proof.
  apply (dice_ignores_MAX_MULT (Some "5") None sample_request). reflexivity.
Defined.



Lemma derive_crash_result serverSeed clientSeed nonce maxMult :
  computedResult (derive crash serverSeed clientSeed nonce maxMult)
  = crash_result
      (prefix_value 13 (sha256 (computeHashInput serverSeed clientSeed nonce)))
      maxMult.
Proof. cbn [derive]. rewrite verifyCrash_value. reflexivity. Qed.



Lemma env_max_mult_default :
  env_max_mult None = of_Z 10000
  /\ env_max_mult (Some EmptyString) = of_Z 10000.
Proof. split; vm_compute; reflexivity. Qed.

Lemma env_max_mult_decimal z :
  1 <= z -> env_max_mult (Some (Str.decimal z)) = of_Z z.
Proof.
  intros Hz. unfold Str.decimal. destruct (Z.ltb_spec z 0); [lia|].
  destruct (digits_head z ltac:(lia)) as (d & s & _ & E).
  unfold env_max_mult. cbn [truthy_opt or_default]. rewrite E at 1.
  cbn [Str.truthy]. apply parseInt_digits. lia.
Qed.

(** With MAX_MULT unset or empty the cap is 10000, and with MAX_MULT the
    decimal form of an integer of at least 1 the cap is that integer: the
    computed result of every crash request that passes validation lies
    between 1 and the cap. *)
Theorem crash_response_within_MAX_MULT (env : option string)
    (body : VerifyRequest) (resp : VerifyResponse) (cap : Z) :
  (env = None /\ cap = 10000) \/ (env = Some EmptyString /\ cap = 10000)
  \/ (env = Some (Str.decimal cap) /\ 1 <= cap) ->
  game body = "crash" ->
  postVerify env body = Success resp ->
  leb (of_Z 1) (computed_result resp) = true
  /\ leb (computed_result resp) (of_Z cap) = true.
Proof.
  intros Henv Hg E.
  assert (Hcap : 1 <= cap /\ env_max_mult env = of_Z cap).
  { destruct Henv as [[-> ->]|[[-> ->]|[-> H]]].
    - split; [lia|apply env_max_mult_default].
    - split; [lia|apply env_max_mult_default].
    - split; [exact H|apply env_max_mult_decimal, H]. }
  destruct Hcap as [Hz Hm].
  destruct (postVerify_success env body resp E)
    as (g & _ & Hg' & _ & _ & Hc & _).
  assert (g = crash) as ->.
  { destruct g; [rewrite Hg in Hg'; discriminate|reflexivity]. }
  rewrite derive_crash_result, Hm in Hc. rewrite Hc.
  unfold crash_result.
  set (x := prefix_value 13 _).
  assert (Hx : 0 <= x < 2 ^ 52).
  { destruct (prefix_parse 13 _ (sha256_is_digest
                (computeHashInput (server_seed body) (client_seed body)
                   (nonce body))) ltac:(lia)) as [_ B].
    exact B. }
  destruct (crash_multiplier_range x Hx) as [G V].
  apply capped_range; assumption.
Qed.

Lemma crash_response_within_MAX_MULT_witness :
  exists resp,
    postVerify (Some "250") sample_crash_request = Success resp
    /\ leb (of_Z 1) (computed_result resp) = true
    /\ leb (computed_result resp) (of_Z 250) = true.
Proof.
  assert (E : exists resp,
            postVerify (Some "250") sample_crash_request = Success resp).
  { vm_compute. eexists. reflexivity. }
  destruct E as [resp E]. exists resp. split; [exact E|].
  apply (crash_response_within_MAX_MULT (Some "250") sample_crash_request
           resp 250).
  - right. right. split; [vm_compute; reflexivity|lia].
  - reflexivity.
  - exact E.
Defined.

(** ** Submitting the reported values again *)

Lemma verify_own_hash seed : verifyServerSeedHash seed (sha256 seed) = true.
Proof.
  unfold verifyServerSeedHash. cbv zeta. apply String.eqb_refl.
Qed.

Lemma sha256_nonempty input : exists c h, sha256 input = String c h.
Proof.
  assert (H := sha256_length input).
  destruct (sha256 input) as [|c h]; [discriminate H|].
  exists c, h. reflexivity.
Qed.

(** A computed result that is zero or a positive finite number is accepted
    as an expected result and matches itself. *)
Lemma plain_result c :
  c = S754_zero false \/ good c ->
  ltb c (of_Z 0) = false /\ forall strict, compareResults c c strict = true.
Proof.
  intros [->|G].
  - split; [reflexivity|]. intros strict. rewrite compare_self. reflexivity.
  - destruct (good_inv c G) as (m & e & -> & _).
    split; [reflexivity|]. intros strict. rewrite compare_self. reflexivity.
Qed.

Lemma dice_result_plain serverSeed clientSeed nonce :
  computedResult (verifyDice serverSeed clientSeed nonce) = S754_zero false
  \/ good (computedResult (verifyDice serverSeed clientSeed nonce)).
Proof.
  rewrite verifyDice_value. cbn [computedResult].
  set (k := prefix_value 8 _ mod 10000).
  assert (Hk : 0 <= k < 10000) by (apply Z.mod_pos_bound; lia).
  destruct (Z.eq_dec k 0) as [->|Hne].
  - left. vm_compute. reflexivity.
  - right. apply grid_round2.
    assert (2 ^ 47 = 140737488355328) by reflexivity. lia.
Qed.

Lemma crash_result_plain serverSeed clientSeed nonce cap :
  1 <= cap ->
  good (computedResult
          (derive crash serverSeed clientSeed nonce (of_Z cap))).
Proof.
  intros Hcap. rewrite derive_crash_result.
  set (x := prefix_value 13 _).
  assert (Hx : 0 <= x < 2 ^ 52).
  { destruct (prefix_parse 13 _ (sha256_is_digest
                (computeHashInput serverSeed clientSeed nonce)) ltac:(lia))
      as [_ B].
    exact B. }
  destruct (capped_on_grid x cap Hx Hcap) as [_ (N & _ & _ & -> & G)].
  exact G.
Qed.

(** What a response reports confirms itself: the same request with the
    reported server seed hash as the claimed hash and the reported computed
    result as the expected result passes validation and gets the verdict
    PASS with the same computed result, in the tolerant and in the strict
    mode. This holds for every dice request, and for every crash request
    when the cap of the environment is an integer of at least 1. *)
Theorem reported_values_confirm (env : option string) (body : VerifyRequest)
    (resp : VerifyResponse) (strict : option bool) (cap : Z) :
  postVerify env body = Success resp ->
  game body = "dice" \/ (1 <= cap /\ env_max_mult env = of_Z cap) ->
  exists resp',
    postVerify env (confirming body resp strict) = Success resp'
    /\ verdict resp' = PASS
    /\ computed_result resp' = computed_result resp.
Proof.
  intros E Hcase.
  destruct (postVerify_success env body resp E)
    as (g & V & Hg & _ & _ & Hc & _ & _ & Hh & _).
  (* the computed result is zero or a positive finite number *)
  assert (P : computed_result resp = S754_zero false
              \/ good (computed_result resp)).
  { rewrite Hc. destruct g; cbn [derive].
    - apply dice_result_plain.
    - destruct Hcase as [Hd|[Hcap Hm]].
      + rewrite Hd in Hg. discriminate Hg.
      + right. rewrite Hm.
        apply (crash_result_plain _ _ _ cap Hcap). }
  destruct (plain_result _ P) as [Pl Pc].
  (* the new request passes validation *)
  assert (V' : validateRequest (confirming body resp strict) = None).
  { apply validate_complete. apply validate_sound in V.
    destruct V as (V1 & V2 & V3 & V4 & V5 & _).
    cbn [confirming game server_seed client_seed nonce expected_result].
    repeat split; try assumption; try apply V2; try apply V3.
    intros e [= <-]. exact Pl. }
  destruct (postVerify_accepts env _ V') as [resp' E'].
  exists resp'. split; [exact E'|].
  destruct (postVerify_success env _ resp' E')
    as (g' & _ & Hg' & _ & _ & Hc' & _ & _ & _ & _ & Hv).
  cbn [confirming game server_seed client_seed nonce server_seed_hash]
    in Hg', Hc', Hv.
  assert (g' = g) as ->.
  { rewrite Hg in Hg'. destruct g, g'; try reflexivity; discriminate Hg'. }
  assert (Ec : computed_result resp' = computed_result resp)
    by (rewrite Hc', Hc; reflexivity).
  split; [|exact Ec].
  rewrite Hv, Hh. unfold expected_mismatch.
  cbn [confirming expected_result expect_strict].
  destruct (sha256_nonempty (server_seed body)) as (c & h & Es).
  rewrite Es. rewrite <- Es. rewrite verify_own_hash, Ec, Pc. reflexivity.
Qed.

Lemma reported_values_confirm_witness :
  exists resp resp',
    postVerify None sample_request = Success resp
    /\ postVerify None (confirming sample_request resp (Some true))
       = Success resp'
    /\ verdict resp' = PASS.
Proof.
  assert (E : exists resp, postVerify None sample_request = Success resp).
  { vm_compute. eexists. reflexivity. }
  destruct E as [resp E]. exists resp.
  destruct (reported_values_confirm None sample_request resp (Some true) 1 E)
    as (resp' & E' & Hv & _).
  - left. reflexivity.
  - exists resp'. split; [exact E|]. split; [exact E'|exact Hv].
Defined.

(** ** [createAuditDigest] *)

Lemma slice0_drop n s : Str.slice0 n s ++ Str.drop n s = s.
Proof.
  revert s. induction n as [|n IH]; intros [|c s]; cbn; try reflexivity.
  rewrite IH. reflexivity.
Qed.

Lemma toLowerCase_length s :
  String.length (Str.toLowerCase s) = String.length s.
Proof. induction s as [|c s IH]; cbn; [reflexivity|]. rewrite IH. reflexivity. Qed.

(** The audit digest is the first 12 characters of the SHA-256 of the
    server seed: 12 lower-case hexadecimal digits, which are also the first
    12 characters of the server seed hash that a response reports. Being
    shorter than a hash, it is never accepted as the hash of its seed. *)
Theorem createAuditDigest_shape (serverSeed : string) :
  String.length (createAuditDigest serverSeed) = 12%nat
  /\ all_hex (createAuditDigest serverSeed) = true
  /\ sha256 serverSeed
     = createAuditDigest serverSeed ++ Str.drop 12 (sha256 serverSeed)
  /\ verifyServerSeedHash serverSeed (createAuditDigest serverSeed) = false.
Proof.
  unfold createAuditDigest.
  assert (L : String.length (Str.slice0 12 (sha256 serverSeed)) = 12%nat).
  { rewrite slice0_length, sha256_length. reflexivity. }
  split; [exact L|].
  split; [apply slice0_all_hex, sha256_all_hex|].
  split; [symmetry; apply slice0_drop|].
  unfold verifyServerSeedHash. cbv zeta.
  destruct (String.eqb_spec (Str.toLowerCase (sha256 serverSeed))
              (Str.toLowerCase (Str.slice0 12 (sha256 serverSeed))))
    as [E|_]; [|reflexivity].
  apply (f_equal String.length) in E.
  rewrite !toLowerCase_length, L, sha256_length in E. discriminate E.
Qed.

(** ** [computeHashInput] *)

(** The hash input does not tell where the server seed ends when a seed
    holds a colon: moving a part of the server seed behind a colon over to
    the client seed leaves the hash input unchanged, and with it the digest
    and the computed result of both games. *)
Theorem hash_input_colon_ambiguity (a b c : string) (nonce : number)
    (maxMult : number) :
  computeHashInput (a ++ ":" ++ b) c nonce
  = computeHashInput a (b ++ ":" ++ c) nonce
  /\ computationHex (verifyDice (a ++ ":" ++ b) c nonce)
     = computationHex (verifyDice a (b ++ ":" ++ c) nonce)
  /\ computedResult (verifyDice (a ++ ":" ++ b) c nonce)
     = computedResult (verifyDice a (b ++ ":" ++ c) nonce)
  /\ computationHex (verifyCrash (a ++ ":" ++ b) c nonce (Some maxMult))
     = computationHex (verifyCrash a (b ++ ":" ++ c) nonce (Some maxMult))
  /\ computedResult (verifyCrash (a ++ ":" ++ b) c nonce (Some maxMult))
     = computedResult (verifyCrash a (b ++ ":" ++ c) nonce (Some maxMult)).
Proof.
  assert (E : computeHashInput (a ++ ":" ++ b) c nonce
              = computeHashInput a (b ++ ":" ++ c) nonce).
  { unfold computeHashInput. rewrite !app_assoc_s. reflexivity. }
  split; [exact E|].
  rewrite !verifyDice_value, !verifyCrash_value.
  cbn [computationHex computedResult]. rewrite E.
  repeat split; reflexivity.
Qed.

Lemma no_colon_app a b : no_colon (a ++ b) = no_colon a && no_colon b.
Proof.
  induction a as [|x a IH]; cbn [append no_colon]; [reflexivity|].
  rewrite IH, andb_assoc. reflexivity.
Qed.

Lemma no_colon_digit d : 0 <= d < 10 ->
  no_colon (String (Str.digit_char d) EmptyString) = true.
Proof.
  intros H. destruct (digit_cases d H)
    as [->|[->|[->|[->|[->|[->|[->|[->|[->| ->]]]]]]]]]; reflexivity.
Qed.

Lemma no_colon_digits z : 0 <= z -> no_colon (Str.digits z) = true.
Proof.
  assert (H : forall k z, 0 <= z < Z.of_nat k -> no_colon (Str.digits z) = true).
  { induction k as [|k IH]; intros y Hy; [lia|].
    destruct (Z.lt_ge_cases y 10) as [Hlt|Hge].
    - rewrite digits_small by lia. apply no_colon_digit. lia.
    - rewrite digits_step by lia. rewrite no_colon_app.
      rewrite IH.
      + rewrite digit_char_mod. apply no_colon_digit.
        apply Z.mod_pos_bound. lia.
      + split; [apply Z.div_pos; lia|].
        apply Z.div_lt_upper_bound; lia. }
  intros Hz. apply (H (Z.to_nat z + 1)%nat). lia.
Qed.

(** Two strings that agree up to their first colon. *)
Lemma split_first_colon a : forall b r1 r2,
  no_colon a = true -> no_colon b = true ->
  a ++ ":" ++ r1 = b ++ ":" ++ r2 -> a = b /\ r1 = r2.
Proof.
  induction a as [|x a IH]; intros [|y b] r1 r2 Ha Hb E;
    cbn [append no_colon] in *.
  - injection E as E. auto.
  - injection E as <- _. cbn in Hb. discriminate Hb.
  - injection E as -> _. cbn in Ha. discriminate Ha.
  - injection E as -> E.
    apply andb_true_iff in Ha, Hb. destruct Ha as [_ Ha], Hb as [_ Hb].
    destruct (IH b r1 r2 Ha Hb E) as [-> ->]. auto.
Qed.

(** Two strings that agree from their last colon on. *)
Lemma split_last_colon a : forall b d1 d2,
  no_colon d1 = true -> no_colon d2 = true ->
  a ++ ":" ++ d1 = b ++ ":" ++ d2 -> a = b /\ d1 = d2.
Proof.
  induction a as [|x a IH]; intros [|y b] d1 d2 H1 H2 E;
    cbn [append] in *.
  - injection E as E. auto.
  - injection E as <- E. rewrite E, no_colon_app in H1.
    cbn in H1. rewrite andb_false_r in H1. discriminate H1.
  - injection E as -> E. rewrite <- E, no_colon_app in H2.
    cbn in H2. rewrite andb_false_r in H2. discriminate H2.
  - injection E as -> E.
    destruct (IH b d1 d2 H1 H2 E) as [-> ->]. auto.
Qed.

(** When the server seeds hold no colon, the hash input determines the
    seeds and the nonce: two triples of server seed, client seed and integer
    nonce from 1 to 2^53 - 1 with the same hash input are the same. *)
Theorem hash_input_injective (serverSeed1 clientSeed1 : string) (nonce1 : Z)
    (serverSeed2 clientSeed2 : string) (nonce2 : Z) :
  no_colon serverSeed1 = true -> no_colon serverSeed2 = true ->
  1 <= nonce1 < 2 ^ 53 -> 1 <= nonce2 < 2 ^ 53 ->
  computeHashInput serverSeed1 clientSeed1 (of_Z nonce1)
  = computeHashInput serverSeed2 clientSeed2 (of_Z nonce2) ->
  serverSeed1 = serverSeed2 /\ clientSeed1 = clientSeed2 /\ nonce1 = nonce2.
Proof.
  intros S1 S2 N1 N2 E. unfold computeHashInput in E.
  rewrite !numberToString_integer in E by assumption.
  unfold Str.decimal in E.
  destruct (Z.ltb_spec nonce1 0); [lia|].
  destruct (Z.ltb_spec nonce2 0); [lia|].
  destruct (split_first_colon _ _ _ _ S1 S2 E) as [-> E'].
  split; [reflexivity|].
  destruct (split_last_colon _ _ _ _ (no_colon_digits nonce1 ltac:(lia))
              (no_colon_digits nonce2 ltac:(lia)) E') as [-> Ed].
  split; [reflexivity|]. apply digits_inj; try lia. exact Ed.
Qed.

Lemma hash_input_injective_witness :
  "seed123" = "seed123" /\ "client456" = "client456" /\ 1 = 1.
Proof.
  apply (hash_input_injective "seed123" "client456" 1 "seed123" "client456" 1);
    try reflexivity; lia.
Defined.

(** ** [ExplainTooltip] *)

Lemma explain_dice hash result :
  is_digest hash ->
  ExplainTooltip "dice" hash result
  = ExplainDice (Str.slice0 8 hash) (of_Z (prefix_value 8 hash))
      (of_Z (prefix_value 8 hash mod 10000))
      (div (of_Z (prefix_value 8 hash mod 10000)) (of_Z 100)) result.
Proof.
  intros Hd.
  destruct (prefix_parse 8 hash Hd ltac:(lia)) as [P B].
  assert (B' : 0 <= prefix_value 8 hash < 2 ^ 53).
  { assert (16 ^ Z.of_nat 8 < 2 ^ 53) by reflexivity. lia. }
  unfold ExplainTooltip.
  change (String.eqb "dice" "dice") with true. cbv iota zeta.
  rewrite P, rem_of_Z by (exact B' || lia). reflexivity.
Qed.

Lemma explain_crash hash result :
  is_digest hash ->
  ExplainTooltip "crash" hash result
  = ExplainCrash (Str.slice0 13 hash) (of_Z (prefix_value 13 hash))
      (min (div (of_Z (prefix_value 13 hash)) (of_Z 4503599627370496)) clamp)
      (crash_multiplier (prefix_value 13 hash))
      (min (crash_multiplier (prefix_value 13 hash)) (of_Z 10000)) result.
Proof.
  intros Hd.
  destruct (prefix_parse 13 hash Hd ltac:(lia)) as [P _].
  unfold ExplainTooltip, crash_multiplier, clamp.
  change (String.eqb "crash" "dice") with false. cbv iota zeta.
  rewrite P. reflexivity.
Qed.

(** The explanation that the client shows for a response arrives at the
    computed result of that response: for every dice response, and for every
    crash response of a server whose cap is the default 10000. The
    explanation parses the same prefix of the digest as the server did. *)
Theorem explanation_agrees_with_response (env : option string)
    (body : VerifyRequest) (resp : VerifyResponse) :
  postVerify env body = Success resp ->
  game body = "dice" \/ env_max_mult env = of_Z 10000 ->
  explained_value
    (ExplainTooltip (resp_game resp) (computation_hex (details resp))
       (computed_result resp))
  = computed_result resp.
Proof.
  intros E Hcase.
  destruct (postVerify_success env body resp E)
    as (g & _ & Hg & _ & Hr & Hc & _ & _ & _ & Hx & _).
  rewrite Hr, Hg, Hx.
  set (hash := sha256 _) in *.
  assert (Hd : is_digest hash) by apply sha256_is_digest.
  destruct g; cbn [game_name derive] in *.
  - rewrite explain_dice by exact Hd. cbn [explained_value].
    rewrite Hc, verifyDice_value. reflexivity.
  - destruct Hcase as [Hdice|Hm].
    { rewrite Hdice in Hg. discriminate Hg. }
    rewrite explain_crash by exact Hd. cbn [explained_value].
    rewrite Hc, Hm, verifyCrash_value. cbn [computedResult].
    fold hash.
    assert (Hb : 0 <= prefix_value 13 hash < 2 ^ 52).
    { destruct (prefix_parse 13 hash Hd ltac:(lia)) as [_ B]. exact B. }
    destruct (capped_on_grid (prefix_value 13 hash) 10000 Hb ltac:(lia))
      as [Em _].
    symmetry. exact Em.
Qed.

Lemma explanation_agrees_with_response_witness :
  exists resp,
    postVerify None sample_crash_request = Success resp
    /\ explained_value
         (ExplainTooltip (resp_game resp) (computation_hex (details resp))
            (computed_result resp))
       = computed_result resp.
Proof.
  assert (E : exists resp,
            postVerify None sample_crash_request = Success resp).
  { vm_compute. eexists. reflexivity. }
  destruct E as [resp E]. exists resp. split; [exact E|].
  apply (explanation_agrees_with_response None sample_crash_request resp E).
  right. vm_compute. reflexivity.
Defined.

(** ** [parseInt] on the text of a setting or of an input *)

Lemma parse_digits_stops rest acc :
  stops rest = true -> Str.parse_digits 10 rest acc = acc.
Proof.
  destruct rest as [|c t]; [reflexivity|].
  cbn [stops Str.parse_digits]. unfold decimal_digit.
  destruct (Str.digit_value c) as [d|]; [|reflexivity].
  destruct (d <? 10); [discriminate|reflexivity].
Qed.

(** [parseInt] reads the leading decimal digits and ignores the rest. *)
Lemma parseInt_leading_digits z rest :
  0 <= z -> stops rest = true ->
  Str.parseInt (Str.digits z ++ rest) 10 = of_Z z.
Proof.
  intros Hz Hs.
  assert (P := parse_digits_decimal z Hz rest None).
  rewrite (parse_digits_stops rest) in P by exact Hs. cbn [acc_value] in P.
  destruct (digits_head z Hz) as (d & s & Hd & E).
  destruct (digit_char_facts d Hd) as (_ & Hsp & Hm & Hp & _).
  unfold Str.parseInt. rewrite E in *. cbn [append Str.trim_start] in *.
  rewrite Hsp.
  assert (E1 : match String (Str.digit_char d) (s ++ rest) with
               | String "-"%char s' => (true, s')
               | String "+"%char s' => (false, s')
               | _ => (false, String (Str.digit_char d) (s ++ rest))
               end = (false, String (Str.digit_char d) (s ++ rest))).
  { destruct (Str.digit_char d) as [[] [] [] [] [] [] [] []];
      try reflexivity; congruence. }
  rewrite E1.
  cbn [orb Z.ltb Z.compare Z.eqb Pos.compare Pos.compare_cont Pos.eqb].
  rewrite P. reflexivity.
Qed.

Lemma decimal_digits z : 0 <= z -> Str.decimal z = Str.digits z.
Proof. intros H. unfold Str.decimal. destruct (Z.ltb_spec z 0); [lia|reflexivity]. Qed.

Lemma digits_truthy z rest : 0 <= z -> Str.truthy (Str.digits z ++ rest) = true.
Proof.
  intros Hz. destruct (digits_head z Hz) as (d & s & _ & ->). reflexivity.
Qed.

(** The cap is read off the leading decimal digits of MAX_MULT, whatever
    follows them: "1e6" gives the cap 1 and "10000.5" the cap 10000. Unset
    or empty, MAX_MULT gives 10000. *)
Theorem MAX_MULT_reads_leading_digits (n : Z) (rest : string) :
  0 <= n -> stops rest = true ->
  env_max_mult (Some (Str.decimal n ++ rest)) = of_Z n
  /\ env_max_mult None = of_Z 10000
  /\ env_max_mult (Some EmptyString) = of_Z 10000.
Proof.
  intros Hn Hs. split; [|apply env_max_mult_default].
  rewrite decimal_digits by exact Hn.
  unfold env_max_mult. cbn [truthy_opt or_default].
  rewrite digits_truthy by exact Hn.
  apply parseInt_leading_digits; assumption.
Qed.

Lemma MAX_MULT_reads_leading_digits_witness :
  env_max_mult (Some "1e6") = of_Z 1.
Proof.
  apply (MAX_MULT_reads_leading_digits 1 "e6"); [lia|reflexivity].
Defined.

(** ** [apiRateLimiter] *)

(** The window of the rate limiter is 60000 ms. Its limit is read off the
    leading decimal digits of RATE_LIMIT_PER_MIN, and is 60 when the
    variable is unset or empty. *)
Theorem apiRateLimiter_limit (n : Z) (rest : string) :
  0 <= n -> stops rest = true ->
  RateLimit.max (RateLimit.apiRateLimiter (Some (Str.decimal n ++ rest)))
  = of_Z n
  /\ RateLimit.max (RateLimit.apiRateLimiter None) = of_Z 60
  /\ RateLimit.max (RateLimit.apiRateLimiter (Some EmptyString)) = of_Z 60
  /\ forall env, RateLimit.windowMs (RateLimit.apiRateLimiter env)
                 = of_Z 60000.
Proof.
  intros Hn Hs. split; [|repeat split; try intros env; vm_compute; reflexivity].
  rewrite decimal_digits by exact Hn.
  cbn [RateLimit.apiRateLimiter RateLimit.max truthy_opt or_default].
  rewrite digits_truthy by exact Hn.
  apply parseInt_leading_digits; assumption.
Qed.

Lemma apiRateLimiter_limit_witness :
  RateLimit.max (RateLimit.apiRateLimiter (Some "100")) = of_Z 100.
Proof.
  apply (apiRateLimiter_limit 100 EmptyString); [lia|reflexivity].
Defined.

(** ** The nonce of the form *)

Lemma of_Z_truthy z : 1 <= z -> truthy_num (of_Z z) = true.
Proof.
  intros Hz.
  destruct (of_Z_lower z (IZR 1)) as [->|[G _]].
  - lia.
  - apply repr_IZR. lia.
  - apply IZR_le. lia.
  - reflexivity.
  - destruct (good_inv _ G) as (m & e & -> & _). reflexivity.
Qed.

(** The nonce that the form stores is never NaN and never zero. A text that
    starts with the decimal digits of an integer of at least 1 stores that
    integer; a text that starts with the digit 0 alone, and the empty text,
    store 1. *)
Theorem nonce_onChange_spec :
  (forall value, truthy_num (nonce_onChange value) = true)
  /\ (forall n rest, 1 <= n -> stops rest = true ->
        nonce_onChange (Str.decimal n ++ rest) = of_Z n)
  /\ (forall rest, stops rest = true ->
        nonce_onChange ("0" ++ rest) = of_Z 1)
  /\ nonce_onChange EmptyString = of_Z 1.
Proof.
  split; [|split; [|split]].
  - intros value. unfold nonce_onChange. cbv zeta.
    destruct (truthy_num (Str.parseInt value 10)) eqn:T; [exact T|reflexivity].
  - intros n rest Hn Hs. unfold nonce_onChange. cbv zeta.
    rewrite decimal_digits by lia.
    rewrite parseInt_leading_digits by (lia || assumption).
    rewrite of_Z_truthy by exact Hn. reflexivity.
  - intros rest Hs. unfold nonce_onChange. cbv zeta.
    assert (E : Str.parseInt ("0" ++ rest) 10 = of_Z 0)
      by (apply (parseInt_leading_digits 0 rest); [lia|exact Hs]).
    rewrite E. reflexivity.
  - reflexivity.
Qed.

Lemma of_Z_isInteger n : 1 <= n < 2 ^ 53 -> isInteger (of_Z n) = true.
Proof.
  intros Hn.
  destruct (of_Z_exact n ltac:(lia)) as [G V].
  destruct (good_inv _ G) as (m & e & E & F & _).
  rewrite E in *. cbn [SF2R cond_Zopp isInteger] in *.
  destruct (Z.leb_spec 0 e) as [He|He]; [reflexivity|].
  cbn [orb]. apply Z.eqb_eq.
  rewrite (F2R_int_scaled (Zpos m) e n ltac:(lia) V).
  apply Z.mod_mul. assert (0 < 2 ^ (- e)) by (apply Z.pow_pos_nonneg; lia).
  lia.
Qed.

Lemma of_Z_not_below_1 n : 1 <= n < 2 ^ 53 -> ltb (of_Z n) (of_Z 1) = false.
Proof.
  intros Hn.
  destruct (of_Z_exact n ltac:(lia)) as [G V].
  destruct (of_Z_exact 1 ltac:(lia)) as [G1 V1].
  destruct (ltb (of_Z n) (of_Z 1)) eqn:L; [|reflexivity].
  apply (good_ltb _ _ G G1) in L. rewrite V, V1 in L.
  assert (IZR 1 <= IZR n)%R by (apply IZR_le; lia). lra.
Qed.

(** An integer nonce from 1 to 2^53 - 1 typed in decimal comes through the
    form unchanged: the form stores it, hands it over as it is, and the
    validation of the server accepts it as a nonce. *)
Theorem form_nonce_round_trip (n : Z) :
  1 <= n < 2 ^ 53 ->
  nonce_onChange (Str.decimal n) = of_Z n
  /\ submitted_nonce (nonce_onChange (Str.decimal n)) = of_Z n
  /\ ltb (submitted_nonce (nonce_onChange (Str.decimal n))) (of_Z 1) = false
  /\ isInteger (submitted_nonce (nonce_onChange (Str.decimal n))) = true.
Proof.
  intros Hn.
  assert (E1 : nonce_onChange (Str.decimal n) = of_Z n).
  { unfold nonce_onChange. cbv zeta. rewrite decimal_digits by lia.
    rewrite parseInt_digits by lia.
    rewrite of_Z_truthy by lia. reflexivity. }
  assert (E2 : submitted_nonce (of_Z n) = of_Z n).
  { unfold submitted_nonce. rewrite numberToString_integer by exact Hn.
    rewrite decimal_digits by lia. apply parseInt_digits. lia. }
  rewrite E1, E2.
  split; [reflexivity|]. split; [reflexivity|].
  split; [apply of_Z_not_below_1|apply of_Z_isInteger]; exact Hn.
Qed.

Lemma form_nonce_round_trip_witness :
  submitted_nonce (nonce_onChange (Str.decimal 42)) = of_Z 42.
Proof.
  apply (form_nonce_round_trip 42). lia.
Defined.

(** ** The body of the request *)

(** The client cannot ask for the result 0: an expected result of zero is
    sent as no expected result at all. The server then compares nothing,
    says so in its notes, and its verdict depends on the claimed hash
    alone. *)
Theorem expected_zero_is_not_sent (env : option string) (formData : FormData)
    (s : bool) (resp : VerifyResponse) :
  fd_expected_result formData = Some (S754_zero s) ->
  postVerify env (request_body formData) = Success resp ->
  request_body formData = request_body (without_expected formData)
  /\ (exists hash_note,
        notes (details resp)
        = hash_note ++ "; "
          ++ "No expected result provided - computation only")
  /\ verdict resp
     = match fd_server_seed_hash formData with
       | Some (String c h) =>
           if verifyServerSeedHash (fd_server_seed formData) (String c h)
           then PASS else FAIL
       | Some EmptyString | None => PASS
       end.
Proof.
  intros He E.
  assert (Eb : request_body formData = request_body (without_expected formData)).
  { unfold request_body, without_expected.
    cbn [fd_game fd_server_seed fd_server_seed_hash fd_client_seed fd_nonce
         fd_expected_result fd_expect_strict].
    rewrite He. reflexivity. }
  split; [exact Eb|].
  assert (Ex : expected_result (request_body formData) = None).
  { unfold request_body. cbn [expected_result]. rewrite He. reflexivity. }
  split.
  - rewrite (success_notes env _ resp E), Ex. eexists. reflexivity.
  - destruct (postVerify_success env _ resp E)
      as (g & _ & _ & _ & _ & _ & _ & _ & _ & _ & Hv).
    rewrite Hv. unfold expected_mismatch. rewrite Ex, orb_false_r.
    unfold request_body. cbn [server_seed_hash server_seed].
    destruct (fd_server_seed_hash formData) as [[|c h]|];
      cbn [truthy_opt Str.truthy]; try reflexivity.
    destruct (verifyServerSeedHash (fd_server_seed formData) (String c h));
      reflexivity.
Qed.

Lemma expected_zero_is_not_sent_witness :
  exists resp,
    postVerify None (request_body sample_form) = Success resp
    /\ verdict resp = FAIL
    /\ exists hash_note,
         notes (details resp)
         = hash_note ++ "; "
           ++ "No expected result provided - computation only".
Proof.
  assert (E : exists resp,
            postVerify None (request_body sample_form) = Success resp).
  { vm_compute. eexists. reflexivity. }
  destruct E as [resp E]. exists resp. split; [exact E|].
  destruct (expected_zero_is_not_sent None sample_form false resp)
    as (_ & Hn & Hv).
  - reflexivity.
  - exact E.
  - split; [|exact Hn]. rewrite Hv. vm_compute. reflexivity.
Defined.

(** ** A cap of zero *)

Lemma crash_result_zero x :
  0 <= x < 2 ^ 52 -> crash_result x (of_Z 0) = S754_zero false.
Proof.
  intros Hx. destruct (crash_multiplier_range x Hx) as [G _].
  unfold crash_result. destruct (good_inv _ G) as (m & e & -> & _).
  vm_compute. reflexivity.
Qed.

(** With MAX_MULT set to 0 the cap is 0, and every crash request that
    passes validation gets the computed result 0, below the least
    multiplier 1.00 of the game. *)
Theorem crash_with_zero_MAX_MULT (env : option string)
    (body : VerifyRequest) (resp : VerifyResponse) :
  env_max_mult env = of_Z 0 -> game body = "crash" ->
  postVerify env body = Success resp ->
  computed_result resp = S754_zero false
  /\ leb (of_Z 1) (computed_result resp) = false.
Proof.
  intros Henv Hg E.
  destruct (postVerify_success env body resp E)
    as (g & _ & Hg' & _ & _ & Hc & _).
  assert (g = crash) as ->.
  { destruct g; [rewrite Hg in Hg'; discriminate|reflexivity]. }
  rewrite derive_crash_result, Henv in Hc.
  rewrite crash_result_zero in Hc.
  - rewrite Hc. split; reflexivity.
  - destruct (prefix_parse 13 _ (sha256_is_digest
                (computeHashInput (server_seed body) (client_seed body)
                   (nonce body))) ltac:(lia)) as [_ B].
    exact B.
Qed.

Lemma crash_with_zero_MAX_MULT_witness :
  exists resp,
    postVerify (Some "0") sample_crash_request = Success resp
    /\ computed_result resp = S754_zero false.
Proof.
  assert (E : exists resp,
            postVerify (Some "0") sample_crash_request = Success resp).
  { vm_compute. eexists. reflexivity. }
  destruct E as [resp E]. exists resp. split; [exact E|].
  apply (crash_with_zero_MAX_MULT (Some "0") sample_crash_request resp).
  - vm_compute. reflexivity.
  - reflexivity.
  - exact E.
Defined.

(** ** The digests of a result *)

(** Both hashes of a derivation are digests of 64 lower-case hexadecimal
    digits, which [toLowerCase] leaves as they are; the prefix that a
    derivation parses is therefore never empty and never NaN. *)
Theorem digests_are_lower_case_hex (serverSeed clientSeed : string)
    (nonce : number) (maxMult : option number) :
  let d := verifyDice serverSeed clientSeed nonce in
  let c := verifyCrash serverSeed clientSeed nonce maxMult in
  String.length (computationHex d) = 64%nat
  /\ all_hex (computationHex d) = true
  /\ Str.toLowerCase (computationHex d) = computationHex d
  /\ computationHex c = computationHex d
  /\ serverSeedHash c = serverSeedHash d
  /\ String.length (serverSeedHash d) = 64%nat
  /\ all_hex (serverSeedHash d) = true
  /\ Str.parseInt (Str.slice0 8 (computationHex d)) 16 <> NaN
  /\ Str.parseInt (Str.slice0 13 (computationHex c)) 16 <> NaN.
Proof.
  intros d c.
  assert (Ed : computationHex d
               = sha256 (computeHashInput serverSeed clientSeed nonce)
               /\ serverSeedHash d = sha256 serverSeed).
  { unfold d. rewrite verifyDice_value. split; reflexivity. }
  assert (Ec : computationHex c
               = sha256 (computeHashInput serverSeed clientSeed nonce)
               /\ serverSeedHash c = sha256 serverSeed).
  { unfold c. destruct maxMult as [m|].
    - rewrite verifyCrash_value. split; reflexivity.
    - change (verifyCrash serverSeed clientSeed nonce None)
        with (verifyCrash serverSeed clientSeed nonce (Some (of_Z 10000))).
      rewrite verifyCrash_value. split; reflexivity. }
  destruct Ed as [Ed1 Ed2], Ec as [Ec1 Ec2].
  rewrite Ec1, Ec2, Ed1, Ed2.
  set (h := sha256 (computeHashInput serverSeed clientSeed nonce)).
  assert (Hh : is_digest h) by apply sha256_is_digest.
  destruct Hh as [Hx Hl].
  repeat split; try assumption;
    try apply sha256_length; try apply sha256_all_hex.
  - apply toLowerCase_hex, Hx.
  - destruct (prefix_parse 8 h (conj Hx Hl) ltac:(lia)) as [P B].
    rewrite P. intros N.
    destruct (Z.eq_dec (prefix_value 8 h) 0) as [E0|Hne].
    + rewrite E0 in N. discriminate N.
    + assert (G : good (of_Z (prefix_value 8 h))).
      { apply good_of_Z.
        assert (16 ^ Z.of_nat 8 < 2 ^ 53) by reflexivity. lia. }
      rewrite N in G. exact G.
  - destruct (prefix_parse 13 h (conj Hx Hl) ltac:(lia)) as [P B].
    rewrite P. intros N.
    destruct (Z.eq_dec (prefix_value 13 h) 0) as [E0|Hne].
    + rewrite E0 in N. discriminate N.
    + assert (G : good (of_Z (prefix_value 13 h))).
      { apply good_of_Z.
        assert (16 ^ Z.of_nat 13 < 2 ^ 53) by reflexivity. lia. }
      rewrite N in G. exact G.
Qed.

(** ** Comparing two results on the grid of hundredths *)

Lemma hundredths_0 : hundredths 0 = S754_zero false.
Proof. vm_compute. reflexivity. Qed.

(** A number of hundredths, between two neighbours on the grid of 2^-12. *)
Lemma hundredths_bracket N :
  1 <= N < 2 ^ 47 ->
  good (hundredths N)
  /\ (F2R (N * 2 ^ 12 / 100) (- 12) <= SF2R (hundredths N)
      <= F2R (N * 2 ^ 12 / 100 + 1) (- 12))%R.
Proof.
  intros HN. unfold hundredths.
  assert (P12 : 2 ^ 12 = 4096) by reflexivity.
  assert (P47 : 2 ^ 47 = 140737488355328) by reflexivity.
  assert (P53 : 2 ^ 53 = 9007199254740992) by reflexivity.
  set (a := N * 2 ^ 12 / 100).
  assert (Ha1 : 100 * a <= N * 2 ^ 12) by (apply Z.mul_div_le; lia).
  assert (Ha2 : N * 2 ^ 12 < 100 * Z.succ a)
    by (apply Z.mul_succ_div_gt; lia).
  assert (Ha : 0 < a < 2 ^ 53 - 1) by lia.
  apply div_good.
  - apply good_of_Z; lia.
  - apply good_of_Z; lia.
  - exists a, (- 12). repeat split; lia.
  - exists (a + 1), (- 12). repeat split; lia.
  - rewrite !SF2R_of_Z by lia.
    assert (E : (IZR N / IZR 100 = F2R (N * 2 ^ 12) (- 12) / IZR 100)%R).
    { change (- 12) with (- (12)). rewrite F2R_neg by lia.
      rewrite mult_IZR. assert (0 < IZR (2 ^ 12))%R by (apply IZR_lt; lia).
      field. lra. }
    rewrite E.
    assert (L := F2R_le (100 * a) (N * 2 ^ 12) (- 12) Ha1).
    assert (U := F2R_le (N * 2 ^ 12) (100 * (a + 1)) (- 12) ltac:(lia)).
    rewrite <- !F2R_scale100 in L, U. lra.
Qed.

Lemma F2R_plus a b e : F2R (a + b) e = (F2R a e + F2R b e)%R.
Proof. unfold F2R. rewrite plus_IZR. ring. Qed.

Lemma F2R_minus a b e : F2R (a - b) e = (F2R a e - F2R b e)%R.
Proof. unfold F2R. rewrite minus_IZR. ring. Qed.

Lemma strict_threshold_facts :
  good (mul EPSILON (of_Z 10))
  /\ (SF2R (mul EPSILON (of_Z 10)) < F2R 39 (- 12))%R.
Proof.
  rewrite strict_threshold. split; [vm_compute; reflexivity|].
  cbn [SF2R cond_Zopp].
  rewrite (F2R_change_exp 39 (- 12) (- 101)) by lia.
  apply F2R_lt. apply Z.ltb_lt. vm_compute. reflexivity.
Qed.

Lemma tolerant_threshold_facts :
  good lit_0_01 /\ (SF2R lit_0_01 < F2R 79 (- 12))%R.
Proof.
  destruct (of_ratio_good 1 100 (F2R 40 (- 12)) (F2R 41 (- 12))) as [G V].
  - exists 40, (- 12). repeat split; lia.
  - exists 41, (- 12). repeat split; lia.
  - change (- 12) with (- (12)). rewrite !F2R_neg by lia.
    change (IZR (2 ^ 12)) with 4096%R. lra.
  - split; [exact G|].
    assert (L := F2R_lt 41 79 (- 12) ltac:(lia)).
    unfold lit_0_01. lra.
Qed.

(** The difference of two numbers of hundredths that are [d] or more
    hundredths apart is at least [(40 d - 1) / 4096]. *)
Lemma hundredths_apart j k d :
  0 <= k -> k + d <= j -> j < 2 ^ 47 -> 1 <= d <= 2 ->
  good (abs (sub (hundredths j) (hundredths k)))
  /\ (F2R (40 * d - 1) (- 12)
      <= SF2R (abs (sub (hundredths j) (hundredths k))))%R.
Proof.
  intros Hk Hj Hj47 Hd.
  assert (P12 : 2 ^ 12 = 4096) by reflexivity.
  assert (P47 : 2 ^ 47 = 140737488355328) by reflexivity.
  assert (P53 : 2 ^ 53 = 9007199254740992) by reflexivity.
  destruct (hundredths_bracket j ltac:(lia)) as [Gj Vj].
  set (aj := j * 2 ^ 12 / 100) in *.
  assert (Aj1 : 100 * aj <= j * 2 ^ 12) by (apply Z.mul_div_le; lia).
  assert (Aj2 : j * 2 ^ 12 < 100 * Z.succ aj)
    by (apply Z.mul_succ_div_gt; lia).
  destruct (Z.eq_dec k 0) as [->|Hk0].
  - rewrite hundredths_0.
    assert (E : sub (hundredths j) (S754_zero false) = hundredths j).
    { destruct (good_inv _ Gj) as (m & e & -> & _). reflexivity. }
    rewrite E.
    assert (Ea : abs (hundredths j) = hundredths j).
    { destruct (good_inv _ Gj) as (m & e & -> & _). reflexivity. }
    rewrite Ea. split; [exact Gj|].
    assert (L := F2R_le (40 * d - 1) aj (- 12) ltac:(lia)). lra.
  - destruct (hundredths_bracket k ltac:(lia)) as [Gk Vk].
    set (ak := k * 2 ^ 12 / 100) in *.
    assert (Ak1 : 100 * ak <= k * 2 ^ 12) by (apply Z.mul_div_le; lia).
    assert (Ak2 : k * 2 ^ 12 < 100 * Z.succ ak)
      by (apply Z.mul_succ_div_gt; lia).
    assert (Ak : 0 < ak) by lia.
    destruct (sub_good (hundredths j) (hundredths k)
                (F2R (40 * d - 1) (- 12)) (F2R (aj + 1 - ak) (- 12)))
      as [Gs Vs].
    + exact Gj.
    + exact Gk.
    + exists (40 * d - 1), (- 12). repeat split; lia.
    + exists (aj + 1 - ak), (- 12). repeat split; lia.
    + assert (L := F2R_le (40 * d - 1 + (ak + 1)) aj (- 12) ltac:(lia)).
      rewrite F2R_plus in L. rewrite (F2R_minus (aj + 1) ak). lra.
    + assert (Ea : abs (sub (hundredths j) (hundredths k))
                   = sub (hundredths j) (hundredths k)).
      { destruct (good_inv _ Gs) as (m & e & -> & _). reflexivity. }
      rewrite Ea. split; [exact Gs|lra].
Qed.

Lemma hundredths_differ j k :
  0 <= k -> k < j -> j < 2 ^ 47 ->
  compareResults (hundredths j) (hundredths k) (Some true) = false
  /\ (k + 2 <= j -> compareResults (hundredths j) (hundredths k) None = false).
Proof.
  intros Hk Hjk Hj. unfold compareResults. cbn [or_default]. split.
  - destruct (hundredths_apart j k 1) as [G V]; try lia.
    destruct strict_threshold_facts as [Gt Vt].
    destruct (ltb _ _) eqn:L; [|reflexivity].
    apply (good_ltb _ _ G Gt) in L. change (40 * 1 - 1) with 39 in V. lra.
  - intros H2. destruct (hundredths_apart j k 2) as [G V]; try lia.
    destruct tolerant_threshold_facts as [Gt Vt].
    destruct (ltb _ _) eqn:L; [|reflexivity].
    apply (good_ltb _ _ G Gt) in L. change (40 * 2 - 1) with 79 in V. lra.
Qed.

Lemma hundredths_differ_sym j k :
  0 <= k -> k < j -> j < 2 ^ 47 ->
  compareResults (hundredths k) (hundredths j) (Some true) = false
  /\ (k + 2 <= j -> compareResults (hundredths k) (hundredths j) None = false).
Proof.
  intros Hk Hjk Hj. unfold compareResults.
  rewrite (abs_sub_sym (hundredths k) (hundredths j)).
  apply (hundredths_differ j k Hk Hjk Hj).
Qed.

Lemma hundredths_same k strict :
  0 <= k < 2 ^ 47 -> compareResults (hundredths k) (hundredths k) strict = true.
Proof.
  intros Hk. rewrite compare_self.
  destruct (Z.eq_dec k 0) as [->|Hne].
  - rewrite hundredths_0. reflexivity.
  - destruct (hundredths_bracket k ltac:(lia)) as [G _].
    destruct (good_inv _ G) as (m & e & -> & _). reflexivity.
Qed.

(** On the numbers [j / 100] and [k / 100] that the derivations produce
    (from 0 up to the results under a cap of 2^40), the strict comparison is
    equality: it holds exactly when [j = k]. The tolerant comparison holds
    when [j = k] and fails when the two are 0.02 or more apart. *)
Theorem comparison_on_hundredths (j k : Z) :
  0 <= j < 2 ^ 47 -> 0 <= k < 2 ^ 47 ->
  (compareResults (hundredths j) (hundredths k) (Some true) = true <-> j = k)
  /\ (j = k -> compareResults (hundredths j) (hundredths k) None = true)
  /\ (2 <= Z.abs (j - k)
      -> compareResults (hundredths j) (hundredths k) None = false).
Proof.
  intros Hj Hk. split; [|split].
  - split.
    + intros C.
      destruct (Z.lt_trichotomy j k) as [L|[E|L]]; [|exact E|].
      * rewrite (proj1 (hundredths_differ_sym k j ltac:(lia) L ltac:(lia))) in C.
        discriminate C.
      * rewrite (proj1 (hundredths_differ j k ltac:(lia) L ltac:(lia))) in C.
        discriminate C.
    + intros ->. apply hundredths_same. exact Hk.
  - intros ->. apply hundredths_same. exact Hk.
  - intros H2.
    destruct (Z.le_gt_cases (k + 2) j) as [L|L].
    + apply hundredths_differ; lia.
    + apply hundredths_differ_sym; lia.
Qed.

Lemma comparison_on_hundredths_witness :
  compareResults (hundredths 4237) (hundredths 4237) (Some true) = true
  /\ compareResults (hundredths 4237) (hundredths 4239) None = false.
Proof.
  assert (B7 : 0 <= 4237 < 2 ^ 47) by (split; [lia|reflexivity]).
  assert (B9 : 0 <= 4239 < 2 ^ 47) by (split; [lia|reflexivity]).
  split.
  - apply (comparison_on_hundredths 4237 4237 B7 B7). reflexivity.
  - apply (comparison_on_hundredths 4237 4239 B7 B9). vm_compute. discriminate.
Defined.
